(** * Kaleidoscope retrieval orchestrator: a shallow embedding

    The development follows the Python sources module by module:
    - [PyStr]      the few [str] operations the code relies on;
    - [Retrieval]  backend/api/retrieval.py  (scoring, snippets, time bins);
    - [Sessions]   backend/models/sessions.py (the persistence store);
    - [Agent]      backend/services/agent.py, with one submodule per class
                   ([RetrievalTools], [LLMOrchestrator], [AgentService])
                   and [stream_answer].
    Exceptions are values of the error monad [res]; the external
    collaborators (completion and embedding gateways, the vector corpus,
    the json and uuid libraries) are fields of the record [Agent.world].
    The modules named [...Facts] hold the properties proved of these
    definitions, the modules [Demo] and [...Examples] concrete runs. *)

From Stdlib Require Import ZArith NArith QArith List String Ascii Lia PrimFloat.
From stdpp Require Import gmap strings list sorting.

Local Open Scope Z_scope.

(** ** Exceptions and the error monad *)

Inductive exn : Type :=
  | HTTPException (status_code : Z)   (* fastapi.HTTPException *)
  | SessionNotFound                   (* sessions.SessionNotFound *)
  | ValueError                        (* builtin ValueError *)
  | AttributeError                    (* e.g. [.get] on a non-dict *)
  | UnboundLocalError                 (* read of a local never assigned *)
  | KeyError
  | ZeroDivisionError
  | DatabaseError.                    (* psycopg failure *)

Inductive res (A : Type) : Type :=
  | Ok (a : A)
  | Raise (e : exn).
Arguments Ok {A} a.
Arguments Raise {A} e.

Definition bind {A B : Type} (m : res A) (k : A -> res B) : res B :=
  match m with
  | Ok a => k a
  | Raise e => Raise e
  end.

Declare Scope res_scope.
Delimit Scope res_scope with res.
Notation "'do' x <- m ; k" := (bind m (fun x => k))
  (at level 10, x pattern, m at level 100, k at level 200) : res_scope.
Local Open Scope res_scope.

(** ** Python strings *)

Module PyStr.

(** A [str] is a sequence of Unicode code points. *)
Definition char : Type := N.
Definition pystr : Type := list char.

(** Literals of the sources are ASCII; [lit] reads one. *)
Fixpoint lit (s : string) : pystr :=
  match s with
  | EmptyString => []
  | String a r => N_of_ascii a :: lit r
  end.

Definition SPACE : char := 32%N.

(** [str.isspace] for one code point (CPython's whitespace table). *)
Definition isspace (c : char) : bool :=
  (((9 <=? c) && (c <=? 13)) || ((28 <=? c) && (c <=? 32))
   || (c =? 133) || (c =? 160) || (c =? 5760)
   || ((8192 <=? c) && (c <=? 8202))
   || (c =? 8232) || (c =? 8233) || (c =? 8239) || (c =? 8287)
   || (c =? 12288))%N.

Fixpoint lstrip (s : pystr) : pystr :=
  match s with
  | [] => []
  | c :: r => if isspace c then lstrip r else s
  end.

Definition rstrip (s : pystr) : pystr := rev (lstrip (rev s)).

(** [s.strip()] *)
Definition strip (s : pystr) : pystr := rstrip (lstrip s).

(** [len(s)] *)
Definition len (s : pystr) : Z := Z.of_nat (length s).

(** [s[:n]] for a non-negative constant [n]. *)
Definition prefix (n : Z) (s : pystr) : pystr := take (Z.to_nat n) s.

(** Truth value of a string: non-empty. *)
Definition truthy (s : pystr) : bool :=
  match s with [] => false | _ => true end.

(** [s.split(" ")]: cut at every single U+0020; empty pieces are kept and
    the result is never empty. *)
Fixpoint split_space (s : pystr) : list pystr :=
  match s with
  | [] => [[]]
  | c :: r =>
      if (c =? SPACE)%N then [] :: split_space r
      else match split_space r with
           | p :: ps => (c :: p) :: ps
           | [] => [[c]]
           end
  end.

(** [s.split()]: maximal runs of non-whitespace characters. *)
Fixpoint split_whitespace_aux (cur : pystr) (s : pystr) : list pystr :=
  match s with
  | [] => match cur with [] => [] | _ => [rev cur] end
  | c :: r =>
      if isspace c
      then match cur with
           | [] => split_whitespace_aux [] r
           | _ => rev cur :: split_whitespace_aux [] r
           end
      else split_whitespace_aux (c :: cur) r
  end.
Definition split_whitespace (s : pystr) : list pystr :=
  split_whitespace_aux [] s.

End PyStr.
Import PyStr.


(** ** backend/api/retrieval.py *)

Module Retrieval.

Definition DEFAULT_TOP_K : Z := 100.
Definition DEFAULT_TOP_N_SNIPPETS : Z := 10.
Definition DEFAULT_BIN_DAYS : Z := 1.
Definition MAX_SNIPPET_LEN : Z := 400.

(** A UUID value; [str] of it is its canonical text, which we identify
    with the value. *)
Definition uuid : Type := N.

(** A [datetime] as the driver hands it over: wall-clock microseconds
    since 1970-01-01T00:00:00 and, when aware, the UTC offset in
    microseconds. *)
Record datetime : Type := {
  wall_us : Z;
  utcoffset_us : option Z
}.

(** An aware datetime in UTC, as microseconds since the epoch. *)
Definition instant : Type := Z.

(** [score_from_distance]: binary64 arithmetic, as Python floats.  (At
    distance -1.0 Python raises ZeroDivisionError where the IEEE quotient
    is an infinity; the [<->] distance of the corpus is a norm and never
    negative.) *)
Definition score_from_distance (distance : float) : float :=
  (1 / (1 + distance))%float.

Definition trim_snippet (text : option pystr) : option pystr :=
  match text with
  | None => None
  | Some t =>
      let t := strip t in
      if len t >? MAX_SNIPPET_LEN then Some (prefix MAX_SNIPPET_LEN t)
      else Some t
  end.

Definition ensure_utc (dt : option datetime) : option instant :=
  match dt with
  | None => None
  | Some d =>
      match utcoffset_us d with
      | None => Some (wall_us d)                (* replace(tzinfo=utc) *)
      | Some off => Some (wall_us d - off)      (* astimezone(utc) *)
      end
  end.

(** [bin_timestamp], applied to values of [ensure_utc] only, so that
    [astimezone(utc)] is the identity.  [int(ts.timestamp())] truncates
    toward zero; [//] is floor division and raises on a zero divisor. *)
Definition bin_timestamp (ts : instant) (bin_seconds : Z) : res instant :=
  if bin_seconds =? 0 then Raise ZeroDivisionError
  else
    let bucket_start := Z.quot ts 1000000 / bin_seconds * bin_seconds in
    Ok (bucket_start * 1000000).

(** [dt + timedelta(seconds=n)] *)
Definition add_seconds (dt : instant) (n : Z) : instant := dt + n * 1000000.

(** One row of [message_embeddings JOIN messages u LEFT JOIN messages a]. *)
Record corpus_row : Type := {
  me_id : uuid;
  me_provider : pystr;
  me_model : pystr;
  me_user_message_id : uuid;
  me_assistant_message_id : option uuid;
  me_used_turn_summary : bool;
  me_created_at : datetime;
  u_conversation_id : uuid;
  u_create_time : option datetime;
  u_content_text : option pystr;
  a_content_text : option pystr;
  a_turn_summary : option pystr
}.

(** A row of the nearest-neighbour SELECT: the joined columns and the
    [distance] column. *)
Record candidate : Type := {
  c_row : corpus_row;
  c_distance : float
}.

Record HistogramBucket : Type := {
  b_start : instant;
  b_end : instant;
  b_count : Z
}.

Record Histogram : Type := {
  h_bin_days : Z;
  h_buckets : list HistogramBucket;
  h_total : Z
}.

Record Match : Type := {
  m_turn_id : uuid;
  m_score : float;
  m_distance : float;
  m_user_message_id : uuid;
  m_assistant_message_id : option uuid;
  m_conversation_id : uuid;
  m_create_time : option instant;
  m_user_snippet : pystr;
  m_assistant_snippet : option pystr
}.

Record PeekResponse : Type := {
  pr_histogram : Histogram;
  pr_matches : list Match
}.

(** [assistant_summary if used_turn_summary else assistant_text] *)
Definition assistant_source (r : corpus_row) : option pystr :=
  if me_used_turn_summary r then a_turn_summary r else a_content_text r.

(** [trim_snippet(user_text) or ""] *)
Definition user_snippet (r : corpus_row) : pystr :=
  match trim_snippet (u_content_text r) with
  | Some (c :: t) => c :: t
  | _ => []
  end.

Definition make_match (c : candidate) (utc : option instant) : Match :=
  let r := c_row c in
  {| m_turn_id := me_id r;
     m_score := score_from_distance (c_distance c);
     m_distance := c_distance c;
     m_user_message_id := me_user_message_id r;
     m_assistant_message_id := me_assistant_message_id r;
     m_conversation_id := u_conversation_id r;
     m_create_time := utc;
     m_user_snippet := user_snippet r;
     m_assistant_snippet := trim_snippet (assistant_source r) |}.

(** The [for row in rows] loop, shared verbatim by the HTTP handler
    [peek] here and by [RetrievalTools.peek]; [mk] builds the element
    appended to the preview list.  [buckets] is the dict from bucket
    start to count. *)
Fixpoint scan_rows {A : Type} (mk : candidate -> option instant -> A)
    (bin_seconds max_matches : Z) (rows : list candidate)
    (buckets : gmap Z Z) (previews : list A) : res (gmap Z Z * list A) :=
  match rows with
  | [] => Ok (buckets, previews)
  | row :: rest =>
      let user_create_time_utc := ensure_utc (u_create_time (c_row row)) in
      do buckets' <-
        match user_create_time_utc with
        | Some t =>
            do bucket_start <- bin_timestamp t bin_seconds;
            Ok (<[bucket_start := default 0 (buckets !! bucket_start) + 1]>
                  buckets)
        | None => Ok buckets
        end;
      let previews' :=
        if Z.of_nat (length previews) <? max_matches
        then previews ++ [mk row user_create_time_utc]
        else previews in
      scan_rows mk bin_seconds max_matches rest buckets' previews'
  end.

(** Keys in ascending order: [sorted(buckets.items(), key=item[0])]. *)
Definition key_le (a b : Z * Z) : Prop := a.1 <= b.1.
#[export] Instance key_le_dec : RelDecision key_le.
Proof. intros a b. unfold key_le. apply _. Defined.

Definition sorted_items (buckets : gmap Z Z) : list (Z * Z) :=
  merge_sort key_le (map_to_list buckets).

Definition histogram_buckets (bin_seconds : Z) (buckets : gmap Z Z)
    : list HistogramBucket :=
  map (fun item =>
         {| b_start := item.1;
            b_end := add_seconds item.1 bin_seconds;
            b_count := item.2 |})
      (sorted_items buckets).

(** The handler [peek] from the point where [rows] has been fetched. *)
Definition peek_assemble (top_n_snippets bin_days : Z)
    (rows : list candidate) : res PeekResponse :=
  let bin_seconds := bin_days * 86400 in
  let max_matches := Z.min top_n_snippets (Z.of_nat (length rows)) in
  do scanned <- scan_rows make_match bin_seconds max_matches rows ∅ [];
  let (buckets, matches) := scanned in
  Ok {| pr_histogram :=
          {| h_bin_days := bin_days;
             h_buckets := histogram_buckets bin_seconds buckets;
             h_total := Z.of_nat (length rows) |};
        pr_matches := matches |}.

End Retrieval.

(** ** backend/models/sessions.py *)

Module Sessions.
Import Retrieval.

Definition MAX_CONTENT_LEN : Z := 32000.

(** A [sessions] row.  Of the jsonb [metadata] column the code reads one
    thing only, [_conversation_from_metadata(metadata)]; the column is
    kept as that value.  Timestamp columns are left out. *)
Record session_row : Type := {
  s_title : option pystr;
  s_pinned : bool;
  s_archived : bool;
  s_conversation : option uuid
}.

Record message_row : Type := {
  msg_id : uuid;
  msg_conversation_id : uuid;
  msg_role : pystr;
  msg_idx_in_conv : Z;
  msg_content_text : pystr
}.

Record session_message_row : Type := {
  sm_session_id : uuid;
  sm_message_id : uuid;
  sm_idx : Z
}.

(** The store as one connection sees it.  [next_uuid] is the source of
    [uuid4()] values. *)
Record db : Type := {
  conversations : gset uuid;
  sessions : gmap uuid session_row;
  messages : list message_row;
  session_messages : list session_message_row;
  next_uuid : N
}.

Definition uuid4 (d : db) : uuid * db :=
  (next_uuid d,
   {| conversations := conversations d; sessions := sessions d;
      messages := messages d; session_messages := session_messages d;
      next_uuid := N.succ (next_uuid d) |}).

(** INSERT ... ON CONFLICT (id) DO NOTHING *)
Definition _ensure_conversation (d : db) (conversation_id : uuid) : db :=
  {| conversations := {[conversation_id]} ∪ conversations d;
     sessions := sessions d; messages := messages d;
     session_messages := session_messages d; next_uuid := next_uuid d |}.

Definition insert_session (d : db) (session_id : uuid) (r : session_row)
    : db :=
  {| conversations := conversations d;
     sessions := <[session_id := r]> (sessions d);
     messages := messages d; session_messages := session_messages d;
     next_uuid := next_uuid d |}.

Definition create_session (d : db) (title : option pystr)
    : (uuid * uuid) * db :=
  let (conversation_id, d) := uuid4 d in
  let d := _ensure_conversation d conversation_id in
  let (session_id, d) := uuid4 d in
  let d := insert_session d session_id
             {| s_title := title; s_pinned := false; s_archived := false;
                s_conversation := Some conversation_id |} in
  ((session_id, conversation_id), d).

Definition _fetch_session_row (d : db) (session_id : uuid)
    : res session_row :=
  match sessions d !! session_id with
  | Some row => Ok row
  | None => Raise SessionNotFound
  end.

(** UPDATE sessions SET metadata = {..., conversation_id} WHERE id = ... *)
Definition _persist_conversation_metadata (d : db) (session_id : uuid)
    (conversation_id : uuid) : db :=
  {| conversations := conversations d;
     sessions :=
       alter (fun r => {| s_title := s_title r; s_pinned := s_pinned r;
                          s_archived := s_archived r;
                          s_conversation := Some conversation_id |})
             session_id (sessions d);
     messages := messages d; session_messages := session_messages d;
     next_uuid := next_uuid d |}.

(** The join of [session_messages] with [messages] for one session, in
    row order: pairs of link index and message conversation. *)
Definition joined_links (d : db) (session_id : uuid)
    : list (Z * uuid) :=
  omap (fun sm =>
          if bool_decide (sm_session_id sm = session_id) then
            match find (fun m => bool_decide (msg_id m = sm_message_id sm))
                       (messages d) with
            | Some m => Some (sm_idx sm, msg_conversation_id m)
            | None => None
            end
          else None)
       (session_messages d).

(** ORDER BY idx ASC ... LIMIT 1 (earlier rows win ties). *)
Fixpoint least_idx (l : list (Z * uuid)) : option (Z * uuid) :=
  match l with
  | [] => None
  | p :: r =>
      match least_idx r with
      | Some q => if q.1 <? p.1 then Some q else Some p
      | None => Some p
      end
  end.

Definition first_linked_conversation (d : db) (session_id : uuid)
    : option uuid :=
  option_map snd (least_idx (joined_links d session_id)).

Definition _conversation_id_for_session (d : db) (session_id : uuid)
    (metadata : option uuid) : uuid * db :=
  match metadata with
  | Some from_meta => (from_meta, _ensure_conversation d from_meta)
  | None =>
      match first_linked_conversation d session_id with
      | Some conversation_id =>
          let d := _ensure_conversation d conversation_id in
          (conversation_id,
           _persist_conversation_metadata d session_id conversation_id)
      | None =>
          let (conversation_id, d) := uuid4 d in
          let d := _ensure_conversation d conversation_id in
          (conversation_id,
           _persist_conversation_metadata d session_id conversation_id)
      end
  end.

(** COALESCE(MAX(idx) + 1, 0) *)
Definition next_after (idxs : list Z) : Z :=
  match idxs with
  | [] => 0
  | i :: r => fold_right Z.max i r + 1
  end.

Definition _next_idx_for_conversation (d : db) (conversation_id : uuid)
    : Z :=
  next_after
    (map msg_idx_in_conv
       (filter (fun m => msg_conversation_id m = conversation_id)
               (messages d))).

Definition _next_idx_for_session (d : db) (session_id : uuid) : Z :=
  next_after
    (map sm_idx
       (filter (fun sm => sm_session_id sm = session_id)
               (session_messages d))).

(** The text [_insert_message] stores for [content_text]. *)
Definition stored_content (content_text : pystr) : pystr :=
  let content_trimmed := strip content_text in
  if truthy content_trimmed && (len content_trimmed >? MAX_CONTENT_LEN)
  then prefix MAX_CONTENT_LEN content_trimmed
  else content_trimmed.

Definition _insert_message (d : db) (conversation_id : uuid)
    (role : pystr) (content_text : pystr) (idx_in_conv : Z) : uuid * db :=
  let (message_id, d) := uuid4 d in
  (message_id,
   {| conversations := conversations d; sessions := sessions d;
      messages :=
        messages d ++
          [{| msg_id := message_id;
              msg_conversation_id := conversation_id;
              msg_role := role;
              msg_idx_in_conv := idx_in_conv;
              msg_content_text := stored_content content_text |}];
      session_messages := session_messages d;
      next_uuid := next_uuid d |}).

Definition _link_session_message (d : db) (session_id message_id : uuid)
    (idx : Z) : db :=
  {| conversations := conversations d; sessions := sessions d;
     messages := messages d;
     session_messages :=
       session_messages d ++
         [{| sm_session_id := session_id; sm_message_id := message_id;
             sm_idx := idx |}];
     next_uuid := next_uuid d |}.

Record turn_ids : Type := {
  t_session_id : uuid;
  t_conversation_id : uuid;
  t_user_message_id : uuid;
  t_assistant_message_id : uuid
}.

Definition append_turn (d : db) (session_id : uuid)
    (user_content assistant_content : pystr) : res (turn_ids * db) :=
  do session_row <- _fetch_session_row d session_id;
  if s_archived session_row then Raise ValueError
  else
    let metadata := s_conversation session_row in
    let (conversation_id, d) :=
      _conversation_id_for_session d session_id metadata in
    let base_idx_conv := _next_idx_for_conversation d conversation_id in
    let base_idx_session := _next_idx_for_session d session_id in
    let (user_id, d) :=
      _insert_message d conversation_id (lit "user") user_content
                      base_idx_conv in
    let d := _link_session_message d session_id user_id base_idx_session in
    let (assistant_id, d) :=
      _insert_message d conversation_id (lit "assistant") assistant_content
                      (base_idx_conv + 1) in
    let d := _link_session_message d session_id assistant_id
               (base_idx_session + 1) in
    Ok ({| t_session_id := session_id;
           t_conversation_id := conversation_id;
           t_user_message_id := user_id;
           t_assistant_message_id := assistant_id |}, d).

End Sessions.

(** ** backend/services/agent.py *)

Module Agent.
Import Retrieval.

Definition MAX_ROUNDS : Z := 8.
Definition MAX_HYDRATE_TURNS : Z := 20.
Definition MAX_TURN_CHARS : Z := 2000.
Definition DEFAULT_TOP_K : Z := Retrieval.DEFAULT_TOP_K.
Definition DEFAULT_TOP_N_SNIPPETS : Z := Retrieval.DEFAULT_TOP_N_SNIPPETS.
Definition DEFAULT_BIN_DAYS : Z := 7.

(** *** Values decoded from JSON *)

#[warnings="-register-all"]
Inductive json : Type :=
  | JNull
  | JBool (b : bool)
  | JInt (z : Z)
  | JFloat (f : float)
  | JStr (s : pystr)
  | JList (l : list json)
  | JDict (items : list (pystr * json)).

Definition json_truthy (v : json) : bool :=
  match v with
  | JNull => false
  | JBool b => b
  | JInt z => negb (z =? 0)
  | JFloat f => negb (PrimFloat.eqb f 0%float)
  | JStr s => truthy s
  | JList l => match l with [] => false | _ => true end
  | JDict items => match items with [] => false | _ => true end
  end.

Fixpoint lookup_key (k : pystr) (items : list (pystr * json))
    : option json :=
  match items with
  | [] => None
  | (k', v) :: r => if bool_decide (k' = k) then Some v else lookup_key k r
  end.

(** [d.get(k)] and [d.get(k, dflt)] *)
Definition dict_get (items : list (pystr * json)) (k : string) : json :=
  default JNull (lookup_key (lit k) items).
Definition dict_get_default (items : list (pystr * json)) (k : string)
    (dflt : json) : json :=
  default dflt (lookup_key (lit k) items).

(** *** Tool responses *)

(** The [error] texts of the structured failures. *)
Inductive tool_error : Type :=
  | QueryRequired            (* "query is required" *)
  | InvalidArguments         (* "invalid arguments: ..." *)
  | HydrationCapReached      (* "turn hydration cap reached" *)
  | InvalidTurnId            (* "invalid turn_id: ..." *)
  | TurnNotFound             (* "turn not found" *)
  | InvalidJSONArguments     (* "Invalid JSON arguments: ..." *)
  | UnknownTool (name : option pystr).   (* "Unknown tool '...'" *)

Record preview : Type := {
  pv_turn_id : uuid;
  pv_conversation_id : uuid;
  pv_user_message_id : uuid;
  pv_assistant_message_id : option uuid;
  pv_create_time : option instant;
  pv_user_snippet : pystr;
  pv_assistant_snippet : option pystr;
  pv_score : float
}.

Record peek_data : Type := {
  pd_query : pystr;
  pd_top_k : Z;
  pd_bin_days : Z;
  pd_top_n_snippets : Z;
  pd_histogram : Histogram;
  pd_previews : list preview;
  pd_total_candidates : Z;
  pd_preview_count : Z
}.

Record turn_data : Type := {
  td_turn_id : uuid;
  td_provider : pystr;
  td_model : pystr;
  td_conversation_id : uuid;
  td_user_message_id : uuid;
  td_assistant_message_id : option uuid;
  td_create_time : option instant;
  td_user_content : option pystr;
  td_assistant_content : option pystr;
  td_used_turn_summary : bool;
  td_embedding_created_at : option instant;
  td_truncated : bool
}.

Inductive tool_data : Type :=
  | PeekData (d : peek_data)
  | TurnData (d : turn_data).

(** [{"ok": False, "error": ...}] or [{"ok": True, "data": ...}] *)
Inductive response : Type :=
  | Failure (e : tool_error)
  | Success (d : tool_data).

(** *** Messages of the completion protocol *)

Record function_call : Type := {
  fn_name : option pystr;
  fn_arguments : option pystr
}.

Record tool_call : Type := {
  call_id : option pystr;
  call_function : option function_call
}.

Record message : Type := {
  msg_content : option pystr;
  msg_tool_calls : option (list tool_call)
}.

Record choice : Type := { ch_message : option message }.
Record completion : Type := { choices : option (list choice) }.

Inductive chat_entry : Type :=
  | SystemEntry (content : pystr)
  | UserEntry (content : pystr)
  | AssistantEntry (content : option pystr)
                   (tool_calls : option (list tool_call))
  | ToolEntry (tool_call_id : option pystr) (name : option pystr)
              (content : pystr).

(** *** External collaborators *)

Record world : Type := {
  (* json.loads; None for JSONDecodeError *)
  json_loads : pystr -> option json;
  (* json.dumps of a tool response *)
  json_dumps : response -> pystr;
  (* str(v) and int(v) where the value alone does not fix them *)
  str_of : json -> pystr;
  int_of : json -> option Z;
  (* datetime.fromisoformat; None for ValueError *)
  fromisoformat : pystr -> option datetime;
  (* uuid.UUID(text); None when it raises *)
  UUID : pystr -> option uuid;
  (* POST /embeddings; None for any failure *)
  embeddings : pystr -> option (list float);
  (* the nearest-neighbour SELECT without its LIMIT, ascending distance;
     None for a driver failure *)
  select_nearest : list float -> option datetime -> option datetime ->
                   option uuid -> option (list candidate);
  (* the single-turn SELECT: None for a driver failure, Some None for
     no row *)
  select_turn : uuid -> option (option corpus_row);
  (* POST /chat/completions on the message history; None for
     httpx.HTTPError *)
  chat_completions : list chat_entry -> option completion;
  (* the constant SYSTEM_PROMPT *)
  SYSTEM_PROMPT : pystr
}.

(** [str(v)] *)
Definition py_str (w : world) (v : json) : pystr :=
  match v with
  | JStr s => s
  | _ => str_of w v
  end.

(** [int(v)]; [Raise] stands for TypeError / ValueError. *)
Definition py_int (w : world) (v : json) : res Z :=
  match v with
  | JInt z => Ok z
  | JBool b => Ok (if b then 1 else 0)
  | JNull | JList _ | JDict _ => Raise ValueError
  | _ => match int_of w v with Some z => Ok z | None => Raise ValueError end
  end.

(** *** Helpers *)

Definition _iso (dt : option datetime) : option instant :=
  match dt with
  | None => None
  | Some d =>
      match utcoffset_us d with
      | None => Some (wall_us d)
      | Some off => Some (wall_us d - off)
      end
  end.

Definition _truncate (text : option pystr) : option pystr :=
  match text with
  | None => None
  | Some t =>
      if len t >? MAX_TURN_CHARS then Some (prefix MAX_TURN_CHARS t)
      else Some t
  end.

(** [s.replace("Z", "+00:00")] *)
Definition replace_Z (s : pystr) : pystr :=
  flat_map (fun c => if (c =? 90)%N then lit "+00:00" else [c]) s.

Definition _parse_iso_datetime (w : world) (value : json)
    : res (option datetime) :=
  match value with
  | JNull => Ok None
  | JStr s =>
      let trimmed := strip s in
      if truthy trimmed then
        match fromisoformat w (replace_Z trimmed) with
        | None => Raise ValueError
        | Some parsed =>
            match utcoffset_us parsed with
            | None => Ok (Some {| wall_us := wall_us parsed;
                                  utcoffset_us := Some 0 |})
            | Some _ => Ok (Some parsed)
            end
        end
      else Ok None
  | _ => Raise AttributeError
  end.

(** *** class RetrievalTools *)

Module RetrievalTools.

(** The keyword arguments [peek] extracts inside its [try] block. *)
Record probe : Type := {
  p_top_k : Z;
  p_bin_days : Z;
  p_top_n_snippets : Z;
  p_start_time : option datetime;
  p_end_time : option datetime;
  p_conversation_uuid : option uuid
}.

Definition parse_probe (w : world) (arguments : list (pystr * json))
    : res probe :=
  do top_k <- py_int w (dict_get_default arguments "top_k"
                          (JInt DEFAULT_TOP_K));
  do bin_days <- py_int w (dict_get_default arguments "bin_days"
                             (JInt DEFAULT_BIN_DAYS));
  do top_n_snippets <-
     py_int w (dict_get_default arguments "top_n_snippets"
                 (JInt DEFAULT_TOP_N_SNIPPETS));
  do start_time <- _parse_iso_datetime w (dict_get arguments "start_time");
  do end_time <- _parse_iso_datetime w (dict_get arguments "end_time");
  let conversation_id := dict_get arguments "conversation_id" in
  do conversation_uuid <-
     (if json_truthy conversation_id then
        match conversation_id with
        | JStr s => match UUID w s with
                    | Some u => Ok (Some u)
                    | None => Raise ValueError
                    end
        | _ => Raise AttributeError
        end
      else Ok None);
  Ok {| p_top_k := top_k; p_bin_days := bin_days;
        p_top_n_snippets := top_n_snippets;
        p_start_time := start_time; p_end_time := end_time;
        p_conversation_uuid := conversation_uuid |}.

(** Embedding of the query, then the SELECT ... ORDER BY distance
    LIMIT top_k.  A gateway failure is HTTP 502; a negative LIMIT is
    rejected by the database. *)
Definition peek_search (w : world) (query : pystr) (p : probe)
    : res (list candidate) :=
  match embeddings w query with
  | None => Raise (HTTPException 502)
  | Some embedding =>
      match select_nearest w embedding (p_start_time p) (p_end_time p)
              (p_conversation_uuid p) with
      | None => Raise DatabaseError
      | Some ordered =>
          if p_top_k p <? 0 then Raise DatabaseError
          else Ok (take (Z.to_nat (p_top_k p)) ordered)
      end
  end.

Definition make_preview (c : candidate) (utc : option instant) : preview :=
  let r := c_row c in
  {| pv_turn_id := me_id r;
     pv_conversation_id := u_conversation_id r;
     pv_user_message_id := me_user_message_id r;
     pv_assistant_message_id := me_assistant_message_id r;
     pv_create_time := utc;
     pv_user_snippet := user_snippet r;
     pv_assistant_snippet := trim_snippet (assistant_source r);
     pv_score := score_from_distance (c_distance c) |}.

(** [peek] from the point where [rows] has been fetched. *)
Definition peek_build (query : pystr) (p : probe) (rows : list candidate)
    : res response :=
  let bin_seconds := p_bin_days p * 86400 in
  let max_matches := Z.min (p_top_n_snippets p) (Z.of_nat (length rows)) in
  do scanned <- scan_rows make_preview bin_seconds max_matches rows ∅ [];
  let (buckets, previews) := scanned in
  let histogram :=
    {| h_bin_days := p_bin_days p;
       h_buckets := histogram_buckets bin_seconds buckets;
       h_total := Z.of_nat (length rows) |} in
  Ok (Success (PeekData
        {| pd_query := query;
           pd_top_k := p_top_k p;
           pd_bin_days := p_bin_days p;
           pd_top_n_snippets := p_top_n_snippets p;
           pd_histogram := histogram;
           pd_previews := previews;
           pd_total_candidates := Z.of_nat (length rows);
           pd_preview_count := Z.of_nat (length previews) |})).

Definition peek (w : world) (arguments : json) : res response :=
  match arguments with
  | JDict items =>
      let q := dict_get items "query" in
      let query := strip (py_str w (if json_truthy q then q else JStr [])) in
      if truthy query then
        match parse_probe w items with
        | Raise _ => Ok (Failure InvalidArguments)
        | Ok p =>
            do rows <- peek_search w query p;
            peek_build query p rows
        end
      else Ok (Failure QueryRequired)
  | _ => Raise AttributeError
  end.

Definition hydrate (r : corpus_row) : turn_data :=
  let assistant_content := assistant_source r in
  let user_trunc := _truncate (u_content_text r) in
  let assistant_trunc := _truncate assistant_content in
  let truncated :=
    bool_decide (user_trunc <> u_content_text r)
    || bool_decide (assistant_trunc <> assistant_content) in
  {| td_turn_id := me_id r;
     td_provider := me_provider r;
     td_model := me_model r;
     td_conversation_id := u_conversation_id r;
     td_user_message_id := me_user_message_id r;
     td_assistant_message_id := me_assistant_message_id r;
     td_create_time := _iso (u_create_time r);
     td_user_content := user_trunc;
     td_assistant_content := assistant_trunc;
     td_used_turn_summary := me_used_turn_summary r;
     td_embedding_created_at := _iso (Some (me_created_at r));
     td_truncated := truncated |}.

(** [turn]: the second component is [self._hydrated] after the call. *)
Definition turn (w : world) (arguments : json) (_hydrated : Z)
    : res (response * Z) :=
  if _hydrated >=? MAX_HYDRATE_TURNS
  then Ok (Failure HydrationCapReached, _hydrated)
  else
    match arguments with
    | JDict items =>
        let turn_id_raw := dict_get items "turn_id" in
        match UUID w (py_str w turn_id_raw) with
        | None => Ok (Failure InvalidTurnId, _hydrated)
        | Some turn_uuid =>
            match select_turn w turn_uuid with
            | None => Raise DatabaseError
            | Some None => Ok (Failure TurnNotFound, _hydrated)
            | Some (Some row) =>
                Ok (Success (TurnData (hydrate row)), _hydrated + 1)
            end
        end
    | _ => Raise AttributeError
    end.

End RetrievalTools.

(** *** ToolRun, OrchestratorResult *)

Record ToolRun : Type := {
  tr_tool : pystr;
  tr_arguments : json;
  tr_response : response
}.

Inductive run_status : Type :=
  | completed                (* "completed" *)
  | max_rounds_exceeded.     (* "max_rounds_exceeded" *)

Record OrchestratorResult : Type := {
  intent : pystr;
  final_answer : option pystr;
  status : run_status;
  rounds : Z;
  tool_runs : list ToolRun;
  cited_turn_ids : list uuid;
  histogram : option Histogram
}.

(** *** class LLMOrchestrator *)

Module LLMOrchestrator.

Definition is_name (tool_name : option pystr) (s : string) : bool :=
  bool_decide (tool_name = Some (lit s)).

Definition _dispatch (w : world) (tool_name : option pystr)
    (arguments : json) (_hydrated : Z) : res (response * Z) :=
  if is_name tool_name "retrieval_peek" then
    do r <- RetrievalTools.peek w arguments; Ok (r, _hydrated)
  else if is_name tool_name "retrieval_turn" then
    RetrievalTools.turn w arguments _hydrated
  else Ok (Failure (UnknownTool tool_name), _hydrated).

Definition _complete (w : world) (messages : list chat_entry)
    : res completion :=
  match chat_completions w messages with
  | Some payload => Ok payload
  | None => Raise (HTTPException 502)
  end.

(** The empty dict [{}] as a message. *)
Definition empty_message : message :=
  {| msg_content := None; msg_tool_calls := None |}.

Definition _extract_message (payload : completion) : message :=
  match choices payload with
  | Some (c :: _) => default empty_message (ch_message c)
  | _ => empty_message
  end.

(** The locals of [run] that live across iterations, and the hydrate
    counter of the shared tools object.  [ls_parsed_args] is [None]
    while the local [parsed_args] has never been assigned. *)
Record locals : Type := {
  ls_messages : list chat_entry;
  ls_tool_runs : list ToolRun;
  ls_histogram : option Histogram;
  ls_parsed_args : option json;
  ls_hydrated : Z
}.

(** [x or dflt] on an optional string *)
Definition or_str (x : option pystr) (dflt : string) : pystr :=
  match x with
  | Some (c :: t) => c :: t
  | _ => lit dflt
  end.

(** [response["data"].get("histogram")] *)
Definition data_histogram (d : tool_data) : option Histogram :=
  match d with
  | PeekData pd => Some (pd_histogram pd)
  | TurnData _ => None
  end.

(** One iteration of [for call in tool_calls]. *)
Definition handle_call (w : world) (call : tool_call) (st : locals)
    : res locals :=
  let tool_name := match call_function call with
                   | Some f => fn_name f | None => None end in
  let tool_id := call_id call in
  let raw_args := or_str (match call_function call with
                          | Some f => fn_arguments f | None => None end)
                         "{}" in
  do tried <-
    match json_loads w raw_args with
    | None =>
        (* except json.JSONDecodeError: parsed_args is not assigned *)
        Ok (Failure InvalidJSONArguments, ls_parsed_args st,
            ls_histogram st, ls_hydrated st)
    | Some parsed_args =>
        do r <- _dispatch w tool_name parsed_args (ls_hydrated st);
        let (response, hydrated) := r in
        let histogram :=
          match response with
          | Success d =>
              if is_name tool_name "retrieval_peek" then data_histogram d
              else ls_histogram st
          | Failure _ => ls_histogram st
          end in
        Ok (response, Some parsed_args, histogram, hydrated)
    end;
  let '(response, parsed, histogram, hydrated) := tried in
  match parsed with
  | None => Raise UnboundLocalError
  | Some parsed_args =>
      let logged := match parsed_args with
                    | JDict _ => parsed_args
                    | _ => JDict []
                    end in
      Ok {| ls_messages :=
              ls_messages st ++
                [ToolEntry tool_id tool_name (json_dumps w response)];
            ls_tool_runs :=
              ls_tool_runs st ++
                [{| tr_tool := or_str tool_name "unknown";
                    tr_arguments := logged;
                    tr_response := response |}];
            ls_histogram := histogram;
            ls_parsed_args := parsed;
            ls_hydrated := hydrated |}
  end.

Fixpoint handle_calls (w : world) (calls : list tool_call) (st : locals)
    : res locals :=
  match calls with
  | [] => Ok st
  | call :: rest => do st' <- handle_call w call st; handle_calls w rest st'
  end.

(** The list comprehension computing [cited_turn_ids]. *)
Fixpoint collect_cited (runs : list ToolRun) : res (list uuid) :=
  match runs with
  | [] => Ok []
  | tr :: rest =>
      match tr_response tr with
      | Success d =>
          if bool_decide (tr_tool tr = lit "retrieval_turn") then
            match d with
            | TurnData td =>
                do ids <- collect_cited rest; Ok (td_turn_id td :: ids)
            | PeekData _ => Raise KeyError
            end
          else collect_cited rest
      | Failure _ => collect_cited rest
      end
  end.

(** What one iteration of the [for round_idx] loop does next. *)
Inductive round_outcome : Type :=
  | NextRound (st : locals)
  | Return (r : OrchestratorResult).

Definition with_message (st : locals) (e : chat_entry) : locals :=
  {| ls_messages := ls_messages st ++ [e];
     ls_tool_runs := ls_tool_runs st;
     ls_histogram := ls_histogram st;
     ls_parsed_args := ls_parsed_args st;
     ls_hydrated := ls_hydrated st |}.

Definition round (w : world) (intent0 : pystr) (round_idx : Z)
    (st : locals) : res round_outcome :=
  do payload <- _complete w (ls_messages st);
  let message := _extract_message payload in
  let st := with_message st
              (AssistantEntry (msg_content message)
                              (msg_tool_calls message)) in
  match default [] (msg_tool_calls message) with
  | call :: calls =>
      do st' <- handle_calls w (call :: calls) st;
      Ok (NextRound st')
  | [] =>
      let content := strip (default [] (msg_content message)) in
      if truthy content then
        do cited <- collect_cited (ls_tool_runs st);
        Ok (Return {| intent := intent0;
                      final_answer := Some content;
                      status := completed;
                      rounds := round_idx;
                      tool_runs := ls_tool_runs st;
                      cited_turn_ids := cited;
                      histogram := ls_histogram st |})
      else Ok (NextRound st)
  end.

Fixpoint rounds_from (w : world) (intent0 : pystr) (idxs : list Z)
    (st : locals) : res OrchestratorResult :=
  match idxs with
  | [] =>
      Ok {| intent := intent0;
            final_answer := None;
            status := max_rounds_exceeded;
            rounds := MAX_ROUNDS;
            tool_runs := ls_tool_runs st;
            cited_turn_ids := [];
            histogram := ls_histogram st |}
  | round_idx :: rest =>
      do o <- round w intent0 round_idx st;
      match o with
      | NextRound st' => rounds_from w intent0 rest st'
      | Return r => Ok r
      end
  end.

(** [range(a, b)] *)
Definition range (a b : Z) : list Z :=
  map (fun i => a + Z.of_nat i) (seq 0 (Z.to_nat (b - a))).

Definition initial (w : world) (intent0 : pystr) (_hydrated : Z) : locals :=
  {| ls_messages := [SystemEntry (SYSTEM_PROMPT w);
                     UserEntry (strip intent0)];
     ls_tool_runs := [];
     ls_histogram := None;
     ls_parsed_args := None;
     ls_hydrated := _hydrated |}.

(** [LLMOrchestrator.run] on a tools object whose counter is
    [_hydrated]. *)
Definition run (w : world) (_hydrated : Z) (intent0 : pystr)
    : res OrchestratorResult :=
  rounds_from w intent0 (range 1 (MAX_ROUNDS + 1))
              (initial w intent0 _hydrated).

End LLMOrchestrator.

(** *** class AgentService *)

Record metadata : Type := {
  md_cited_turn_ids : list uuid;
  md_histogram : Histogram;
  md_session_id : uuid;
  md_conversation_id : uuid;
  md_user_message_id : uuid;
  md_assistant_message_id : uuid
}.

(** Calls made to the persistence interface. *)
Inductive persistence_call : Type :=
  | CreateSession
  | AppendTurn (session_id : uuid) (user_content assistant_content : pystr).

(** The database behind [dsn], and the log of persistence calls made so
    far (the log is not part of the transaction). *)
Record service : Type := {
  store : Sessions.db;
  persistence_log : list persistence_call
}.

Definition default_histogram : Histogram :=
  {| h_bin_days := DEFAULT_BIN_DAYS; h_buckets := []; h_total := 0 |}.

Module AgentService.

(** [_persist_turn].  The [with psycopg.connect(...)] block is one
    transaction: an exception leaving it rolls the store back. *)
Definition _persist_turn (sv : service) (session_id : option uuid)
    (user_text assistant_text : pystr)
    : res Sessions.turn_ids * service :=
  let user_clean := strip user_text in
  if truthy user_clean then
    let assistant_clean := strip assistant_text in
    if truthy assistant_clean then
      let '(target_session_id, d, log) :=
        match session_id with
        | Some sid => (sid, store sv, persistence_log sv)
        | None =>
            let (ids, d) := Sessions.create_session (store sv) None in
            (ids.1, d, persistence_log sv ++ [CreateSession])
        end in
      let log :=
        log ++ [AppendTurn target_session_id user_clean assistant_clean] in
      match Sessions.append_turn d target_session_id user_clean
              assistant_clean with
      | Ok (result, d') =>
          (Ok result, {| store := d'; persistence_log := log |})
      | Raise e =>
          (Raise match e with
                 | SessionNotFound => HTTPException 404
                 | ValueError => HTTPException 400
                 | _ => e
                 end,
           {| store := store sv; persistence_log := log |})
      end
    else (Raise (HTTPException 502), sv)
  else (Raise (HTTPException 400), sv).

(** [AgentService.run].  [have_chat_client] says that a chat client was
    supplied or could be built (OPENAI_API_KEY is set). *)
Definition run (w : world) (have_chat_client : bool)
    (sv : service) (intent0 : pystr) (session_id : option uuid)
    : res (pystr * metadata) * service :=
  if have_chat_client then
    match LLMOrchestrator.run w 0 intent0 with
    | Raise e => (Raise e, sv)
    | Ok result =>
        match final_answer result with
        | Some (c :: t) =>
            let answer := c :: t in
            let histogram := default default_histogram (histogram result) in
            let (persisted, sv') :=
              _persist_turn sv session_id intent0 answer in
            match persisted with
            | Raise e => (Raise e, sv')
            | Ok ids =>
                (Ok (answer,
                     {| md_cited_turn_ids := cited_turn_ids result;
                        md_histogram := histogram;
                        md_session_id := Sessions.t_session_id ids;
                        md_conversation_id := Sessions.t_conversation_id ids;
                        md_user_message_id := Sessions.t_user_message_id ids;
                        md_assistant_message_id :=
                          Sessions.t_assistant_message_id ids |}),
                 sv')
            end
        | _ => (Raise (HTTPException 502), sv)
        end
    end
  else (Raise (HTTPException 502), sv).

End AgentService.

(** *** stream_answer *)

Inductive delta : Type :=
  | ContentDelta (content : pystr)       (* {"content": ...} *)
  | MetadataDelta (m : metadata).        (* {"metadata": ...} *)

(** A [chat.completion.chunk] payload with its single choice. *)
Record chunk : Type := {
  ck_id : pystr;
  ck_delta : delta;
  ck_finish_reason : option pystr
}.

Definition NEWLINES : pystr := [10%N; 10%N].

(** ["data: " + json.dumps(payload) + "\n\n"] *)
Definition event (dumps : chunk -> pystr) (payload : chunk) : pystr :=
  lit "data: " ++ dumps payload ++ NEWLINES.

Definition token_content (lines : list pystr) (idx : nat) (token : pystr)
    : pystr :=
  token ++ (if Z.of_nat idx <? Z.of_nat (length lines) - 1
            then lit " " else []).

Definition token_chunks (chunk_id : pystr) (text : pystr) : list chunk :=
  let lines := split_space text in
  imap (fun idx token =>
          {| ck_id := chunk_id;
             ck_delta := ContentDelta (token_content lines idx token);
             ck_finish_reason := None |})
       lines.

Definition meta_chunk (meta_id : pystr) (m : metadata) : chunk :=
  {| ck_id := meta_id;
     ck_delta := MetadataDelta m;
     ck_finish_reason := Some (lit "metadata") |}.

Definition DONE : pystr := lit "data: [DONE]" ++ NEWLINES.

(** The events the generator yields, in order.  [dumps] is json.dumps;
    [u1], [u2] are the texts of the two [uuid4()] values drawn. *)
Definition stream_answer (dumps : chunk -> pystr) (u1 u2 : pystr)
    (text : pystr) (m : metadata) : list pystr :=
  let chunk_id := lit "chatcmpl-" ++ u1 in
  map (event dumps) (token_chunks chunk_id text)
  ++ [event dumps (meta_chunk (lit "meta-" ++ u2) m)]
  ++ [DONE].

End Agent.

(** * Verification *)

(** ** The persistence store *)

Module SessionsFacts.
Import Retrieval Sessions.

Lemma prefix_length (n : Z) (s : pystr) : 0 <= n -> len (prefix n s) <= n.
Proof.
  intros Hn. unfold len, prefix. rewrite length_take. lia.
Qed.

Lemma stored_content_spec (s : pystr) :
  stored_content s = prefix MAX_CONTENT_LEN (strip s).
Proof.
  unfold stored_content, prefix, len.
  destruct (truthy (strip s)) eqn:Ht; cbn [andb].
  - destruct (Z.gtb_spec (Z.of_nat (length (strip s))) MAX_CONTENT_LEN)
      as [Hgt | Hle]; [reflexivity |].
    symmetry. apply take_ge. unfold MAX_CONTENT_LEN in *. lia.
  - destruct (strip s); [reflexivity | discriminate].
Qed.

Lemma stored_content_bounded (s : pystr) :
  len (stored_content s) <= MAX_CONTENT_LEN.
Proof.
  rewrite stored_content_spec. apply prefix_length. unfold MAX_CONTENT_LEN. lia.
Qed.

Lemma conversation_for_session_messages d sid meta :
  messages (_conversation_id_for_session d sid meta).2 = messages d.
Proof.
  unfold _conversation_id_for_session.
  destruct meta as [cid |]; [reflexivity |].
  destruct (first_linked_conversation d sid); reflexivity.
Qed.

Lemma conversation_for_session_sessions_dom d sid meta row :
  sessions d !! sid = Some row ->
  exists row',
    sessions (_conversation_id_for_session d sid meta).2 !! sid = Some row'
    /\ s_archived row' = s_archived row.
Proof.
  intros Hrow. unfold _conversation_id_for_session.
  destruct meta as [cid |]; [exists row; auto |].
  destruct (first_linked_conversation d sid); cbn;
    rewrite lookup_alter_eq, Hrow; cbn; eauto.
Qed.

(** What a successful [append_turn] leaves in the [messages] table. *)
Lemma append_turn_rows d sid u a ids d' :
  append_turn d sid u a = Ok (ids, d') ->
  exists c i,
    messages d' =
      messages d ++
        [ {| msg_id := t_user_message_id ids; msg_conversation_id := c;
             msg_role := lit "user"; msg_idx_in_conv := i;
             msg_content_text := stored_content u |};
          {| msg_id := t_assistant_message_id ids;
             msg_conversation_id := c;
             msg_role := lit "assistant"; msg_idx_in_conv := i + 1;
             msg_content_text := stored_content a |} ].
Proof.
  unfold append_turn, _fetch_session_row.
  destruct (sessions d !! sid) as [row |]; cbn [bind]; [| discriminate].
  destruct (s_archived row); [discriminate |].
  pose proof (conversation_for_session_messages d sid (s_conversation row))
    as Hm.
  destruct (_conversation_id_for_session d sid (s_conversation row))
    as [cid d1].
  cbn in Hm. cbn. intros H. injection H as <- <-. cbn.
  rewrite Hm, <- app_assoc. cbn. eauto.
Qed.

(** A store holding one fresh session (id 2, conversation 1). *)
Definition empty_db : db :=
  {| conversations := ∅; sessions := ∅; messages := [];
     session_messages := []; next_uuid := 1%N |}.
Definition one_session_db : db := (create_session empty_db None).2.

(** The same store after the session has been archived. *)
Definition archived_db : db :=
  insert_session one_session_db 2%N
    {| s_title := None; s_pinned := false; s_archived := true;
       s_conversation := Some 1%N |}.

Definition padded_text : pystr := lit "  which week did we start?  ".

(** C10. Every message row written through [append_turn] stores the
    caller's content stripped of surrounding whitespace and then cut to
    its first 32000 characters, so neither stored text is longer than
    [MAX_CONTENT_LEN], whatever the length of the text handed in. *)
Theorem append_turn_content_truncated d sid u a ids d' :
  append_turn d sid u a = Ok (ids, d') ->
  exists um am,
    messages d' = messages d ++ [um; am]
    /\ msg_id um = t_user_message_id ids
    /\ msg_id am = t_assistant_message_id ids
    /\ msg_content_text um = prefix MAX_CONTENT_LEN (strip u)
    /\ msg_content_text am = prefix MAX_CONTENT_LEN (strip a)
    /\ len (msg_content_text um) <= 32000
    /\ len (msg_content_text am) <= 32000.
Proof.
  intros H. apply append_turn_rows in H as (c & i & Hrows).
  eexists _, _. split; [exact Hrows |]. cbn.
  rewrite <- !stored_content_spec.
  repeat split; apply stored_content_bounded.
Qed.

Lemma append_turn_content_truncated_witness :
  exists ids d',
    append_turn one_session_db 2%N padded_text (lit "ok") = Ok (ids, d')
    /\ exists um am,
         messages d' = messages one_session_db ++ [um; am]
         /\ msg_id um = t_user_message_id ids
         /\ msg_id am = t_assistant_message_id ids
         /\ msg_content_text um = prefix MAX_CONTENT_LEN (strip padded_text)
         /\ msg_content_text am = prefix MAX_CONTENT_LEN (strip (lit "ok"))
         /\ len (msg_content_text um) <= 32000
         /\ len (msg_content_text am) <= 32000.
Proof.
  eexists _, _. split.
  - vm_compute. reflexivity.
  - apply (append_turn_content_truncated one_session_db 2%N padded_text
             (lit "ok")).
    vm_compute. reflexivity.
Defined.

End SessionsFacts.

(** ** The persistence interface as AgentService uses it *)

Module PersistenceFacts.
Import Retrieval Sessions Agent Agent.AgentService SessionsFacts.

Lemma append_turn_missing d sid u a :
  sessions d !! sid = None -> append_turn d sid u a = Raise SessionNotFound.
Proof.
  intros H. unfold append_turn, _fetch_session_row. rewrite H. reflexivity.
Qed.

Lemma append_turn_archived d sid u a row :
  sessions d !! sid = Some row -> s_archived row = true ->
  append_turn d sid u a = Raise ValueError.
Proof.
  intros H Ha. unfold append_turn, _fetch_session_row. rewrite H. cbn.
  rewrite Ha. reflexivity.
Qed.

Lemma append_turn_open d sid u a row :
  sessions d !! sid = Some row -> s_archived row = false ->
  exists ids d',
    append_turn d sid u a = Ok (ids, d') /\ t_session_id ids = sid.
Proof.
  intros H Ha. unfold append_turn, _fetch_session_row. rewrite H. cbn.
  rewrite Ha.
  destruct (_conversation_id_for_session d sid (s_conversation row))
    as [cid d1].
  cbn. eexists _, _. split; reflexivity.
Qed.

Lemma strip_empty_not_truthy s : strip s = [] -> truthy (strip s) = false.
Proof. intros ->. reflexivity. Qed.

Lemma strip_nonempty_truthy s : strip s <> [] -> truthy (strip s) = true.
Proof. destruct (strip s); [congruence | reflexivity]. Qed.

(** The claim read literally on [append_turn]: empty content is refused.
    It is not: the empty user text is stored as an empty row. *)
Lemma append_turn_accepts_empty_content :
  ~ (forall d sid u a,
        strip u = [] \/ strip a = [] ->
        exists e, append_turn d sid u a = Raise e).
Proof.
  intros H.
  destruct (H one_session_db 2%N [] (lit "answer") (or_introl eq_refl))
    as [e He].
  vm_compute in He. discriminate.
Qed.

(** C9 (amended). [append_turn] raises, returning no new store, when the
    session is missing or archived; on an open session it succeeds and
    returns the four identifiers, those of the session and of the two
    rows it appended.  It does not look at the emptiness of the contents:
    that check is made by its caller [_persist_turn], which raises before
    any persistence call when the user text or the assistant text is
    empty after trimming, and which leaves the store as it was when
    [append_turn] raises. *)
Theorem append_turn_failure_modes d sid u a :
  (sessions d !! sid = None ->
   append_turn d sid u a = Raise SessionNotFound)
  /\ (forall row, sessions d !! sid = Some row -> s_archived row = true ->
      append_turn d sid u a = Raise ValueError)
  /\ (forall row, sessions d !! sid = Some row -> s_archived row = false ->
      exists ids d' um am,
        append_turn d sid u a = Ok (ids, d')
        /\ t_session_id ids = sid
        /\ messages d' = messages d ++ [um; am]
        /\ msg_conversation_id um = t_conversation_id ids
        /\ msg_id um = t_user_message_id ids
        /\ msg_id am = t_assistant_message_id ids)
  /\ (forall sv session_id, strip u = [] ->
      _persist_turn sv session_id u a = (Raise (HTTPException 400), sv))
  /\ (forall sv session_id, strip u <> [] -> strip a = [] ->
      _persist_turn sv session_id u a = (Raise (HTTPException 502), sv))
  /\ (forall sv row, store sv = d ->
      sessions d !! sid = Some row -> s_archived row = true ->
      strip u <> [] -> strip a <> [] ->
      exists sv',
        _persist_turn sv (Some sid) u a = (Raise (HTTPException 400), sv')
        /\ store sv' = d).
Proof.
  split; [apply append_turn_missing |].
  split; [intros row; apply append_turn_archived |].
  split.
  { intros row H Ha.
    destruct (append_turn_open d sid u a row H Ha) as (ids & d' & Hok & Hs).
    pose proof Hok as Hrows.
    apply append_turn_rows in Hrows as (c & i & Hrows).
    assert (Hc : c = t_conversation_id ids).
    { revert Hok Hrows. unfold append_turn, _fetch_session_row.
      rewrite H. cbn. rewrite Ha.
      pose proof (conversation_for_session_messages d sid
                    (s_conversation row)) as Hm.
      destruct (_conversation_id_for_session d sid (s_conversation row))
        as [cid d1].
      cbn in Hm. cbn. intros Hok. injection Hok as <- <-. cbn.
      rewrite Hm, <- app_assoc. cbn. intros Hr.
      apply app_inv_head in Hr. congruence. }
    subst c. eexists ids, d', _, _. repeat split; eauto. }
  split.
  { intros sv session_id Hu. unfold _persist_turn.
    rewrite (strip_empty_not_truthy _ Hu). reflexivity. }
  split.
  { intros sv session_id Hu Ha. unfold _persist_turn.
    rewrite (strip_nonempty_truthy _ Hu), (strip_empty_not_truthy _ Ha).
    reflexivity. }
  intros sv row Hd H Harch Hu Ha. unfold _persist_turn.
  rewrite (strip_nonempty_truthy _ Hu), (strip_nonempty_truthy _ Ha).
  cbn. rewrite Hd.
  assert (Hraise : forall x y, append_turn d sid x y = Raise ValueError)
    by (intros; eapply append_turn_archived; eauto).
  rewrite Hraise. eexists. split; reflexivity.
Qed.

Definition demo_service (d : db) : service :=
  {| store := d; persistence_log := [] |}.

Lemma append_turn_failure_modes_witness :
  append_turn empty_db 7%N (lit "q") (lit "a") = Raise SessionNotFound
  /\ append_turn archived_db 2%N (lit "q") (lit "a") = Raise ValueError
  /\ (exists ids d' um am,
        append_turn one_session_db 2%N (lit "q") (lit "a") = Ok (ids, d')
        /\ t_session_id ids = 2%N
        /\ messages d' = messages one_session_db ++ [um; am]
        /\ msg_conversation_id um = t_conversation_id ids
        /\ msg_id um = t_user_message_id ids
        /\ msg_id am = t_assistant_message_id ids)
  /\ _persist_turn (demo_service one_session_db) (Some 2%N) (lit "  ")
       (lit "a")
     = (Raise (HTTPException 400), demo_service one_session_db)
  /\ _persist_turn (demo_service one_session_db) (Some 2%N) (lit "q")
       (lit " ")
     = (Raise (HTTPException 502), demo_service one_session_db)
  /\ (exists sv',
        _persist_turn (demo_service archived_db) (Some 2%N) (lit "q")
          (lit "a")
        = (Raise (HTTPException 400), sv')
        /\ store sv' = archived_db).
Proof.
  destruct (append_turn_failure_modes empty_db 7%N (lit "q") (lit "a"))
    as (Hmissing & _).
  destruct (append_turn_failure_modes archived_db 2%N (lit "q") (lit "a"))
    as (_ & Harchived & _ & _ & _ & Hrollback).
  destruct (append_turn_failure_modes one_session_db 2%N (lit "q") (lit "a"))
    as (_ & _ & Hopen & _).
  destruct (append_turn_failure_modes empty_db 7%N (lit "  ") (lit "a"))
    as (_ & _ & _ & Huser & _).
  destruct (append_turn_failure_modes empty_db 7%N (lit "q") (lit " "))
    as (_ & _ & _ & _ & Hassistant & _).
  split; [apply Hmissing; reflexivity |].
  split; [eapply Harchived; vm_compute; reflexivity |].
  split; [eapply Hopen; vm_compute; reflexivity |].
  split; [apply Huser; reflexivity |].
  split; [apply Hassistant; [discriminate | reflexivity] |].
  eapply (Hrollback (demo_service archived_db));
    [reflexivity | vm_compute; reflexivity | reflexivity
    | discriminate | discriminate].
Defined.

End PersistenceFacts.

(** ** The streaming protocol *)

Module StreamFacts.
Import Retrieval Agent.

(** [" ".join(pieces)] *)
Fixpoint join_space (pieces : list pystr) : pystr :=
  match pieces with
  | [] => []
  | [p] => p
  | p :: ps => p ++ SPACE :: join_space ps
  end.

Lemma split_space_nonempty (s : pystr) : split_space s <> [].
Proof.
  induction s as [| c r IH]; cbn; [discriminate |].
  destruct (c =? SPACE)%N; [discriminate |].
  destruct (split_space r); [congruence | discriminate].
Qed.

Lemma join_split_space (s : pystr) : join_space (split_space s) = s.
Proof.
  induction s as [| c r IH]; [reflexivity |].
  cbn [split_space]. destruct (N.eqb_spec c SPACE) as [-> | Hc].
  - pose proof (split_space_nonempty r) as Hne.
    destruct (split_space r) as [| p ps]; [congruence |].
    cbn [join_space app]. cbn [join_space] in IH. rewrite IH. reflexivity.
  - pose proof (split_space_nonempty r) as Hne.
    destruct (split_space r) as [| p ps]; [congruence |].
    rewrite <- IH. destruct ps; reflexivity.
Qed.

(** No piece of [split(" ")] contains a space. *)
Lemma split_space_pieces (s : pystr) :
  Forall (fun p => ~ In SPACE p) (split_space s).
Proof.
  induction s as [| c r IH]; cbn [split_space].
  - repeat constructor. intros [].
  - destruct (N.eqb_spec c SPACE) as [-> | Hc].
    + constructor; [intros [] | exact IH].
    + destruct (split_space r) as [| p ps].
      * repeat constructor. intros [H | []]. congruence.
      * inversion IH as [| ? ? Hp Hps]; subst. constructor; [| exact Hps].
        intros [H | H]; [congruence | contradiction].
Qed.

(** The content of the [idx]-th delta among [n]. *)
Definition spaced (n : nat) (idx : nat) (token : pystr) : pystr :=
  token ++ (if Z.of_nat idx <? Z.of_nat n - 1 then lit " " else []).

Lemma concat_spaced (l : list pystr) (k : nat) :
  concat (imap (fun i t => spaced (k + length l) (k + i) t) l) = join_space l.
Proof.
  revert k. induction l as [| p ps IH]; intros k; [reflexivity |].
  cbn [imap concat length]. unfold spaced at 1.
  destruct ps as [| q qs].
  - cbn. destruct (Z.ltb_spec (Z.of_nat (k + 0)) (Z.of_nat (k + 1) - 1));
      [lia | rewrite !app_nil_r; reflexivity].
  - destruct (Z.ltb_spec (Z.of_nat (k + 0))
                (Z.of_nat (k + S (length (q :: qs))) - 1)) as [_ | Hge];
      [| cbn [length] in Hge; lia].
    specialize (IH (S k)).
    change (join_space (p :: q :: qs))
      with (p ++ SPACE :: join_space (q :: qs)).
    rewrite <- IH, <- app_assoc. f_equal. change (lit " ") with [SPACE].
    cbn [app]. f_equal. f_equal. apply imap_ext. intros i t _.
    cbn [compose]. f_equal; lia.
Qed.

Definition contents (cs : list chunk) : list pystr :=
  omap (fun c => match ck_delta c with
                 | ContentDelta s => Some s
                 | MetadataDelta _ => None
                 end) cs.

Lemma contents_imap chunk_id (f : nat -> pystr -> pystr) (l : list pystr) :
  contents (imap (fun idx token =>
                    {| ck_id := chunk_id;
                       ck_delta := ContentDelta (f idx token);
                       ck_finish_reason := None |}) l)
  = imap f l.
Proof.
  revert f. induction l as [| p ps IH]; intros f; [reflexivity |].
  cbn. f_equal. apply (IH (f ∘ S)).
Qed.

Lemma token_chunks_contents chunk_id text :
  contents (token_chunks chunk_id text)
  = imap (spaced (length (split_space text))) (split_space text).
Proof. apply contents_imap. Qed.

Lemma token_chunks_shape chunk_id text :
  token_chunks chunk_id text
  = map (fun c => {| ck_id := chunk_id; ck_delta := ContentDelta c;
                     ck_finish_reason := None |})
        (contents (token_chunks chunk_id text)).
Proof.
  unfold token_chunks.
  generalize (token_content (split_space text)) as f.
  induction (split_space text) as [| p ps IH]; intros f; [reflexivity |].
  cbn. f_equal. apply (IH (f ∘ S)).
Qed.

(** The claim read literally: one delta per whitespace-separated word.
    Two spaces in a row yield an empty piece, hence a third delta. *)
Lemma token_deltas_not_whitespace_words :
  ~ (forall chunk_id text,
        length (token_chunks chunk_id text)
        = length (split_whitespace text)).
Proof.
  intros H. specialize (H [] (lit "a  b")). vm_compute in H. discriminate.
Qed.

(** C8 (amended). [stream_answer] yields, in this order: one token-delta
    event per piece of the answer cut at every single space character
    U+0020 (empty pieces included, other whitespace not a separator, so
    there is always at least one), each carrying the piece followed by a
    space except the last, so that the delta contents concatenate to the
    answer; then one metadata event with finish_reason "metadata"; then
    the literal "data: [DONE]\n\n".  Every event but the last is
    "data: " + JSON + "\n\n". *)
Theorem stream_answer_events dumps u1 u2 text m :
  let pieces := split_space text in
  let deltas := imap (spaced (length pieces)) pieces in
  stream_answer dumps u1 u2 text m
  = map (fun c => lit "data: " ++
                  dumps {| ck_id := lit "chatcmpl-" ++ u1;
                           ck_delta := ContentDelta c;
                           ck_finish_reason := None |} ++ NEWLINES)
        deltas
    ++ [lit "data: " ++
        dumps {| ck_id := lit "meta-" ++ u2; ck_delta := MetadataDelta m;
                 ck_finish_reason := Some (lit "metadata") |} ++ NEWLINES;
        lit "data: [DONE]" ++ NEWLINES]
  /\ (1 <= length deltas)%nat
  /\ length deltas = length pieces
  /\ join_space pieces = text
  /\ Forall (fun p => ~ In SPACE p) pieces
  /\ (forall i (p : pystr), pieces !! i = Some p ->
        deltas !! i
        = Some (if bool_decide (S i = length pieces) then p
                else p ++ [SPACE]))
  /\ concat deltas = text.
Proof.
  intros pieces deltas. subst deltas pieces.
  split.
  { unfold stream_answer. rewrite token_chunks_shape, token_chunks_contents.
    rewrite map_map. reflexivity. }
  pose proof (split_space_nonempty text) as Hne.
  rewrite length_imap.
  split; [destruct (split_space text); [congruence | cbn; lia] |].
  split; [reflexivity |].
  split; [apply join_split_space |].
  split; [apply split_space_pieces |].
  split.
  { intros i p Hi. rewrite list_lookup_imap, Hi. cbn. unfold spaced.
    apply lookup_lt_Some in Hi. f_equal.
    case_bool_decide as Hlast.
    - destruct (Z.ltb_spec (Z.of_nat i)
                  (Z.of_nat (length (split_space text)) - 1));
        [lia | apply app_nil_r].
    - destruct (Z.ltb_spec (Z.of_nat i)
                  (Z.of_nat (length (split_space text)) - 1));
        [reflexivity | lia]. }
  rewrite <- (join_split_space text) at 3.
  apply (concat_spaced (split_space text) 0).
Qed.

(** "hi  there" has two spaces: three deltas, the middle one a lone
    space, and the deltas spell the answer. *)
Example deltas_of_hi_there :
  contents (token_chunks (lit "chatcmpl-0") (lit "hi  there"))
  = [lit "hi "; lit " "; lit "there"]
  /\ contents (token_chunks (lit "chatcmpl-0") []) = [[]].
Proof. split; reflexivity. Qed.

End StreamFacts.

(** ** The similarity score *)

Module ScoreFacts.
Import Retrieval.


Example score_at_0 : score_from_distance 0 = 1%float.
Proof. reflexivity. Qed.
Example score_at_1 : score_from_distance 1 = 0.5%float.
Proof. reflexivity. Qed.
Example score_at_3 : score_from_distance 3 = 0.25%float.
Proof. reflexivity. Qed.

(** On distances a corpus typically returns, the computed scores do
    decrease and stay within (0, 1]. *)
Definition sample_distances : list float :=
  [0; 0.125; 0.25; 0.5; 1; 1.5; 2; 10; 1000000]%float.

Fixpoint strictly_decreasing (l : list float) : bool :=
  match l with
  | x :: ((y :: _) as r) => PrimFloat.ltb y x && strictly_decreasing r
  | _ => true
  end.

Example sample_scores :
  strictly_decreasing (map score_from_distance sample_distances) = true
  /\ forallb (fun d => PrimFloat.ltb 0 (score_from_distance d)
                       && PrimFloat.leb (score_from_distance d) 1)
             sample_distances = true.
Proof. split; reflexivity. Qed.





End ScoreFacts.

(** ** The hydrate tool and its cap *)

Module TurnFacts.
Import Retrieval Agent Agent.RetrievalTools.

(** Successive [turn] calls on one tools object whose counter starts at
    [_hydrated]: the responses and the final counter. *)
Fixpoint turn_calls (w : world) (calls : list json) (_hydrated : Z)
    : res (list response * Z) :=
  match calls with
  | [] => Ok ([], _hydrated)
  | arguments :: rest =>
      do r <- turn w arguments _hydrated;
      do rs <- turn_calls w rest r.2;
      Ok (r.1 :: rs.1, rs.2)
  end.

(** [arguments] names, by a well-formed id, the stored turn [row]. *)
Definition names_turn (w : world) (arguments : json) (row : corpus_row)
    : Prop :=
  exists items u,
    arguments = JDict items
    /\ UUID w (py_str w (dict_get items "turn_id")) = Some u
    /\ select_turn w u = Some (Some row).

(** [arguments] carries a well-formed id that no stored turn has. *)
Definition names_missing_turn (w : world) (arguments : json) : Prop :=
  exists items u,
    arguments = JDict items
    /\ UUID w (py_str w (dict_get items "turn_id")) = Some u
    /\ select_turn w u = Some None.

Definition hydrated_response (row : corpus_row) : response :=
  Success (TurnData (hydrate row)).

Section WithWorld.
Variable w : world.

Lemma turn_capped arguments h :
  MAX_HYDRATE_TURNS <= h ->
  turn w arguments h = Ok (Failure HydrationCapReached, h).
Proof.
  intros Hh. unfold turn.
  destruct (Z.geb_spec h MAX_HYDRATE_TURNS); [reflexivity | lia].
Qed.

Lemma turn_below_cap arguments row h :
  h < MAX_HYDRATE_TURNS -> names_turn w arguments row ->
  turn w arguments h = Ok (hydrated_response row, h + 1).
Proof.
  intros Hh (items & u & -> & Hu & Hrow). unfold turn.
  destruct (Z.geb_spec h MAX_HYDRATE_TURNS); [lia |].
  rewrite Hu, Hrow. reflexivity.
Qed.

Lemma turn_not_found arguments h :
  h < MAX_HYDRATE_TURNS -> names_missing_turn w arguments ->
  turn w arguments h = Ok (Failure TurnNotFound, h).
Proof.
  intros Hh (items & u & -> & Hu & Hrow). unfold turn.
  destruct (Z.geb_spec h MAX_HYDRATE_TURNS); [lia |].
  rewrite Hu, Hrow. reflexivity.
Qed.

Lemma turn_calls_capped calls h :
  MAX_HYDRATE_TURNS <= h ->
  turn_calls w calls h
  = Ok (map (fun _ => Failure HydrationCapReached) calls, h).
Proof.
  intros Hh. induction calls as [| c cs IH]; [reflexivity |].
  cbn [turn_calls]. rewrite turn_capped by exact Hh. cbn.
  rewrite IH. reflexivity.
Qed.

Lemma turn_calls_below_cap calls rows more h :
  Forall2 (names_turn w) calls rows ->
  h + Z.of_nat (length calls) = MAX_HYDRATE_TURNS -> 0 <= h ->
  turn_calls w (calls ++ more) h
  = Ok (map hydrated_response rows
        ++ map (fun _ => Failure HydrationCapReached) more,
        MAX_HYDRATE_TURNS).
Proof.
  intros Hall. revert h. induction Hall as [| c row cs rs Hc _ IH];
    intros h Hlen Hh.
  - cbn in *. rewrite turn_calls_capped by lia. f_equal. f_equal. lia.
  - cbn [app turn_calls length] in *.
    rewrite (turn_below_cap c row) by (auto; lia). cbn.
    rewrite IH by lia. reflexivity.
Qed.

Lemma turn_calls_hits calls rows h :
  Forall2 (names_turn w) calls rows ->
  h + Z.of_nat (length calls) <= MAX_HYDRATE_TURNS -> 0 <= h ->
  turn_calls w calls h
  = Ok (map hydrated_response rows, h + Z.of_nat (length calls)).
Proof.
  intros Hall. revert h. induction Hall as [| c row cs rs Hc _ IH];
    intros h Hlen Hh.
  - cbn. f_equal. f_equal. lia.
  - cbn [turn_calls length] in *.
    rewrite (turn_below_cap c row) by (auto; lia). cbn.
    rewrite IH by lia. cbn. f_equal. f_equal. lia.
Qed.

(** C2. On one tools object (counter starting at 0): twenty calls naming
    stored turns by well-formed ids all succeed, the twentieth included,
    and so does every shorter sequence of such calls, the counter
    counting them (each such call made below the cap adds exactly one);
    whatever is called after the counter has reached 20 gets the
    capped-out error, whatever its arguments; a call with a
    well-formed id that no stored turn has gets the not-found error and
    leaves the counter as it was. *)
Theorem hydrate_cap calls rows more arguments missing h :
  Forall2 (names_turn w) calls rows -> length calls = 20%nat ->
  names_missing_turn w missing -> 0 <= h < MAX_HYDRATE_TURNS ->
  turn_calls w (calls ++ more) 0
  = Ok (map hydrated_response rows
        ++ map (fun _ => Failure HydrationCapReached) more, 20)
  /\ (forall n, (n <= 20)%nat ->
        turn_calls w (take n calls) 0
        = Ok (map hydrated_response (take n rows), Z.of_nat n))
  /\ (forall k a row, k < 20 -> names_turn w a row ->
        turn w a k = Ok (hydrated_response row, k + 1))
  /\ (forall k, 20 <= k ->
        turn w arguments k = Ok (Failure HydrationCapReached, k))
  /\ turn w missing h = Ok (Failure TurnNotFound, h).
Proof.
  intros Hall Hlen Hmiss Hh.
  split.
  { apply turn_calls_below_cap; [exact Hall | | lia].
    rewrite Hlen. reflexivity. }
  split.
  { intros n Hn.
    rewrite (turn_calls_hits (take n calls) (take n rows)).
    - rewrite length_take, Hlen. f_equal. f_equal. lia.
    - apply Forall2_take. exact Hall.
    - rewrite length_take, Hlen. unfold MAX_HYDRATE_TURNS. lia.
    - lia. }
  split.
  { intros k a row Hk Ha. apply turn_below_cap; [exact Hk | exact Ha]. }
  split.
  { intros k Hk. apply turn_capped. exact Hk. }
  apply turn_not_found; [lia | exact Hmiss].
Qed.

End WithWorld.

End TurnFacts.


(** ** Concrete worlds for the examples *)

Module Demo.
Import Retrieval Agent.

(** A JSON string literal: the text between double quotes. *)
Definition quoted (s : string) : pystr := [34%N] ++ lit s ++ [34%N].

(** The canonical text of the UUID whose last digit is [n]. *)
Definition uuid_text (n : N) : pystr :=
  lit "00000000-0000-0000-0000-00000000000" ++ [(48 + n)%N].

Definition demo_UUID (s : pystr) : option uuid :=
  match rev s with
  | c :: r =>
      if bool_decide (rev r = lit "00000000-0000-0000-0000-00000000000")
         && (48 <=? c)%N && (c <=? 57)%N
      then Some (c - 48)%N else None
  | [] => None
  end.

(** The argument texts a model sends, and their decodings. *)
Definition turn_args_text (n : N) : pystr :=
  lit "{" ++ quoted "turn_id" ++ lit ": " ++ [34%N] ++ uuid_text n
  ++ [34%N] ++ lit "}".
Definition turn_args (n : N) : json :=
  JDict [(lit "turn_id", JStr (uuid_text n))].

Definition peek_args_text (query : string) : pystr :=
  lit "{" ++ quoted "query" ++ lit ": " ++ quoted query ++ lit "}".
Definition peek_args (query : string) : json :=
  JDict [(lit "query", JStr (lit query))].

Definition demo_json_table : list (pystr * json) :=
  [ (lit "{}", JDict []);
    (lit "[]", JList []);
    (turn_args_text 1, turn_args 1);
    (turn_args_text 2, turn_args 2);
    (turn_args_text 9, turn_args 9);
    (peek_args_text "kickoff", peek_args "kickoff");
    (peek_args_text "offline", peek_args "offline") ].

Definition demo_json_loads (s : pystr) : option json :=
  lookup_key s demo_json_table.

(** 2024-01-01T00:00:00Z and later instants, in microseconds. *)
Definition jan_1 : datetime :=
  {| wall_us := 1704067200000000; utcoffset_us := Some 0 |}.
Definition jan_3 : datetime :=
  {| wall_us := 1704240000000000; utcoffset_us := Some 0 |}.
Definition jan_9_cet : datetime :=
  {| wall_us := 1704762000000000; utcoffset_us := Some 3600000000 |}.

Definition demo_row (n : N) (t : option datetime) (user : string)
    : corpus_row :=
  {| me_id := n; me_provider := lit "supermind";
     me_model := lit "text-embedding-3-large";
     me_user_message_id := (100 + n)%N;
     me_assistant_message_id := Some (200 + n)%N;
     me_used_turn_summary := false;
     me_created_at := jan_9_cet;
     u_conversation_id := 50%N;
     u_create_time := t;
     u_content_text := Some (lit user);
     a_content_text := Some (lit "noted");
     a_turn_summary := None |}.

Definition row_1 : corpus_row := demo_row 1 (Some jan_1) "kickoff plan".
Definition row_2 : corpus_row := demo_row 2 (Some jan_3) "kickoff notes".
Definition row_3 : corpus_row := demo_row 3 None "undated kickoff".
Definition row_4 : corpus_row := demo_row 4 (Some jan_9_cet) "retro".

Definition demo_candidates : list candidate :=
  [ {| c_row := row_1; c_distance := 0.25 |};
    {| c_row := row_2; c_distance := 0.5 |};
    {| c_row := row_3; c_distance := 0.75 |};
    {| c_row := row_4; c_distance := 1.5 |} ].

Definition demo_select_turn (u : uuid) : option (option corpus_row) :=
  if (u =? 1)%N then Some (Some row_1)
  else if (u =? 2)%N then Some (Some row_2)
  else Some None.

(** How many completions the history already holds. *)
Fixpoint completions_so_far (messages : list chat_entry) : nat :=
  match messages with
  | [] => 0
  | AssistantEntry _ _ :: r => S (completions_so_far r)
  | _ :: r => completions_so_far r
  end.

(** A world whose completion gateway answers round after round from
    [script], and fails once the script is used up; the embedding gateway
    is down for the query "offline". *)
Definition demo_world (script : list message) : world :=
  {| json_loads := demo_json_loads;
     json_dumps := fun _ => lit "{...}";
     str_of := fun _ => lit "None";
     int_of := fun _ => None;
     fromisoformat := fun _ => None;
     UUID := demo_UUID;
     embeddings := fun q => if bool_decide (q = lit "offline") then None
                            else Some [0.5%float; 0.25%float];
     select_nearest := fun _ _ _ _ => Some demo_candidates;
     select_turn := demo_select_turn;
     chat_completions := fun messages =>
       match script !! completions_so_far messages with
       | Some m => Some {| choices := Some [{| ch_message := Some m |}] |}
       | None => None
       end;
     SYSTEM_PROMPT := lit "You are the retrieval research orchestrator." |}.

Definition call (id name : string) (arguments : pystr) : tool_call :=
  {| call_id := Some (lit id);
     call_function := Some {| fn_name := Some (lit name);
                              fn_arguments := Some arguments |} |}.

Definition asks (calls : list tool_call) : message :=
  {| msg_content := None; msg_tool_calls := Some calls |}.

Definition says (text : string) : message :=
  {| msg_content := Some (lit text); msg_tool_calls := None |}.

End Demo.

Module TurnExamples.
Import Retrieval Agent Agent.RetrievalTools TurnFacts Demo.

Lemma names_row_1 script : names_turn (demo_world script) (turn_args 1) row_1.
Proof. exists [(lit "turn_id", JStr (uuid_text 1))], 1%N. repeat split. Qed.

Lemma names_nothing_9 script :
  names_missing_turn (demo_world script) (turn_args 9).
Proof. exists [(lit "turn_id", JStr (uuid_text 9))], 9%N. repeat split. Qed.

Lemma hydrate_cap_witness :
  let w := demo_world [] in
  turn_calls w (repeat (turn_args 1) 20 ++ [turn_args 2; JList []]) 0
  = Ok (map hydrated_response (repeat row_1 20)
        ++ map (fun _ => Failure HydrationCapReached)
               [turn_args 2; JList []], 20)
  /\ (forall n, (n <= 20)%nat ->
        turn_calls w (take n (repeat (turn_args 1) 20)) 0
        = Ok (map hydrated_response (take n (repeat row_1 20)), Z.of_nat n))
  /\ (forall k a row, k < 20 -> names_turn w a row ->
        turn w a k = Ok (hydrated_response row, k + 1))
  /\ (forall k, 20 <= k ->
        turn w (JList []) k = Ok (Failure HydrationCapReached, k))
  /\ turn w (turn_args 9) 3 = Ok (Failure TurnNotFound, 3).
Proof.
  apply (hydrate_cap (demo_world []) (repeat (turn_args 1) 20)
           (repeat row_1 20) [turn_args 2; JList []] (JList [])
           (turn_args 9) 3).
  - cbn [repeat]. repeat (constructor; [apply names_row_1 |]).
    constructor.
  - reflexivity.
  - apply names_nothing_9.
  - unfold MAX_HYDRATE_TURNS. lia.
Defined.

(** The twentieth call succeeds, the twenty-first does not. *)
Example twentieth_and_after :
  turn (demo_world []) (turn_args 1) 19
  = Ok (hydrated_response row_1, 20)
  /\ turn (demo_world []) (turn_args 1) 20
     = Ok (Failure HydrationCapReached, 20).
Proof. split; reflexivity. Qed.

End TurnExamples.

(** ** The row scan behind peek: previews and histogram *)

Module PeekFacts.
Import Retrieval Agent Agent.RetrievalTools.



(** The rows whose user message has a create time. *)
Definition dated (c : candidate) : bool :=
  match u_create_time (c_row c) with Some _ => true | None => false end.








Lemma bin_timestamp_total ts bin_seconds :
  bin_seconds <> 0 -> exists start, bin_timestamp ts bin_seconds = Ok start.
Proof.
  intros Hb. unfold bin_timestamp.
  destruct (Z.eqb_spec bin_seconds 0); [contradiction | eauto].
Qed.

Section Scan.
Context {A : Type} (mk : candidate -> option instant -> A).
Variables bin_seconds max_matches : Z.

(** The element the loop appends for a row. *)
Definition entry (c : candidate) : A := mk c (ensure_utc (u_create_time (c_row c))).

Lemma scan_rows_total rows buckets previews :
  bin_seconds <> 0 ->
  exists out, scan_rows mk bin_seconds max_matches rows buckets previews
              = Ok out.
Proof.
  intros Hb. revert buckets previews.
  induction rows as [| row rest IH]; intros buckets previews; cbn; [eauto |].
  destruct (ensure_utc (u_create_time (c_row row))) as [t |]; cbn.
  - destruct (bin_timestamp_total t bin_seconds Hb) as [start ->]. cbn.
    apply IH.
  - apply IH.
Qed.

Lemma scan_rows_previews rows buckets previews buckets' previews' :
  scan_rows mk bin_seconds max_matches rows buckets previews
  = Ok (buckets', previews') ->
  previews'
  = previews
    ++ map entry
         (take (Z.to_nat (max_matches - Z.of_nat (length previews))) rows).
Proof.
  revert buckets previews.
  induction rows as [| row rest IH]; intros buckets previews; cbn [scan_rows].
  - intros H. injection H as <- <-. rewrite take_nil, app_nil_r. reflexivity.
  - destruct (match ensure_utc (u_create_time (c_row row)) with
              | Some t => _ | None => _ end) as [b1 | e]; cbn [bind];
      [| discriminate].
    intros H. apply IH in H. rewrite H. clear H IH.
    destruct (Z.ltb_spec (Z.of_nat (length previews)) max_matches) as [Hlt | Hge].
    + rewrite length_app. cbn [length].
      replace (Z.to_nat (max_matches - Z.of_nat (length previews)))
        with (S (Z.to_nat (max_matches
                           - Z.of_nat (length previews + 1)))) by lia.
      cbn [take map]. rewrite <- app_assoc. reflexivity.
    + replace (Z.to_nat (max_matches - Z.of_nat (length previews)))
        with 0%nat by lia.
      reflexivity.
Qed.


End Scan.



#[local] Instance key_le_total : Total key_le.
Proof. intros a b. unfold key_le. lia. Qed.





Lemma peek_build_data query p rows :
  p_bin_days p <> 0 ->
  exists buckets previews,
    scan_rows make_preview (p_bin_days p * 86400)
      (Z.min (p_top_n_snippets p) (Z.of_nat (length rows))) rows ∅ []
    = Ok (buckets, previews)
    /\ peek_build query p rows
       = Ok (Success (PeekData
           {| pd_query := query; pd_top_k := p_top_k p;
              pd_bin_days := p_bin_days p;
              pd_top_n_snippets := p_top_n_snippets p;
              pd_histogram :=
                {| h_bin_days := p_bin_days p;
                   h_buckets :=
                     histogram_buckets (p_bin_days p * 86400) buckets;
                   h_total := Z.of_nat (length rows) |};
              pd_previews := previews;
              pd_total_candidates := Z.of_nat (length rows);
              pd_preview_count := Z.of_nat (length previews) |})).
Proof.
  intros Hb.
  destruct (scan_rows_total make_preview (p_bin_days p * 86400)
              (Z.min (p_top_n_snippets p) (Z.of_nat (length rows)))
              rows ∅ []) as [[buckets previews] Hscan]; [lia |].
  exists buckets, previews. split; [exact Hscan |].
  unfold peek_build. rewrite Hscan. reflexivity.
Qed.






Definition default_probe : probe :=
  {| p_top_k := 100; p_bin_days := 7; p_top_n_snippets := 10;
     p_start_time := None; p_end_time := None;
     p_conversation_uuid := None |}.


(** Three candidates (the LIMIT cuts the fourth), two previews, and a
    single weekly bucket holding the two dated rows. *)
Example peek_demo :
  exists d,
    peek (Demo.demo_world [])
      (JDict [(lit "query", JStr (lit " kickoff "));
              (lit "top_k", JInt 3); (lit "top_n_snippets", JInt 2)])
    = Ok (Success (PeekData d))
    /\ map pv_turn_id (pd_previews d) = [1%N; 2%N]
    /\ pd_total_candidates d = 3
    /\ h_buckets (pd_histogram d)
       = [{| b_start := 1703721600000000; b_end := 1704326400000000;
             b_count := 2 |}].
Proof.
  eexists. split; [vm_compute; reflexivity |].
  split; [reflexivity |]. split; reflexivity.
Qed.

(** Fifty dated candidates over three consecutive weeks, 20, 18 and 12 of
    them, and a preview limit of five. *)
Definition week (k : Z) : datetime :=
  {| wall_us := (1704326400 + k * 604800 + 3600) * 1000000;
     utcoffset_us := Some 0 |}.

Definition kickoff_rows : list candidate :=
  map (fun i : nat =>
         {| c_row := Demo.demo_row (N.of_nat i)
                       (Some (week (if (i <? 20)%nat then 0
                                    else if (i <? 38)%nat then 1
                                    else 2)))
                       "project X kickoff";
            c_distance := 0.5 |})
      (seq 0 50).

Example kickoff_scenario :
  exists d,
    peek_build (lit "project X kickoff")
      {| p_top_k := 50; p_bin_days := 7; p_top_n_snippets := 5;
         p_start_time := None; p_end_time := None;
         p_conversation_uuid := None |}
      kickoff_rows
    = Ok (Success (PeekData d))
    /\ map b_count (h_buckets (pd_histogram d)) = [20; 18; 12]
    /\ h_total (pd_histogram d) = 50
    /\ map pv_turn_id (pd_previews d) = [0%N; 1%N; 2%N; 3%N; 4%N].
Proof.
  eexists. split; [vm_compute; reflexivity |].
  split; [vm_compute; reflexivity |]. split; reflexivity.
Qed.



End PeekFacts.

(** ** The orchestration loop *)

Module OrchestratorFacts.
Import Retrieval Agent Agent.RetrievalTools Agent.LLMOrchestrator.

(** The assistant entry appended for a completion message. *)
Definition assistant_entry (m : message) : chat_entry :=
  AssistantEntry (msg_content m) (msg_tool_calls m).

(** A completion without tool calls whose text is missing, empty or
    whitespace only. *)
Definition degenerate (m : message) : Prop :=
  default [] (msg_tool_calls m) = []
  /\ strip (default [] (msg_content m)) = [].

(** One round in which the gateway returns a degenerate completion. *)
Definition idle_round (w : world) (st st' : locals) : Prop :=
  exists payload,
    chat_completions w (ls_messages st) = Some payload
    /\ degenerate (_extract_message payload)
    /\ st' = with_message st (assistant_entry (_extract_message payload)).

(** One round in which the gateway returns tool calls and every call is
    dispatched to a response. *)
Definition tool_round (w : world) (st st' : locals) : Prop :=
  exists payload call calls,
    chat_completions w (ls_messages st) = Some payload
    /\ msg_tool_calls (_extract_message payload) = Some (call :: calls)
    /\ handle_calls w (call :: calls)
         (with_message st (assistant_entry (_extract_message payload)))
       = Ok st'.

(** The result of a run that used up its rounds in state [st]. *)
Definition exhausted (intent0 : pystr) (st : locals) : OrchestratorResult :=
  {| intent := intent0;
     final_answer := None;
     status := max_rounds_exceeded;
     rounds := 8;
     tool_runs := ls_tool_runs st;
     cited_turn_ids := [];
     histogram := ls_histogram st |}.

(** The turn ids of the successful [retrieval_turn] runs of a log, in
    order, repetitions kept. *)
Definition hydrated_ids (runs : list ToolRun) : list uuid :=
  omap (fun tr =>
          if bool_decide (tr_tool tr = lit "retrieval_turn") then
            match tr_response tr with
            | Success (TurnData td) => Some (td_turn_id td)
            | _ => None
            end
          else None) runs.

(** Entries logged under the name [retrieval_turn] carry turn data when
    they succeeded. *)
Definition turn_runs_carry_turns (runs : list ToolRun) : Prop :=
  Forall (fun tr =>
            tr_tool tr = lit "retrieval_turn" ->
            match tr_response tr with
            | Success (PeekData _) => False
            | _ => True
            end) runs.

Section WithWorld.
Variable w : world.
Variable intent0 : pystr.

Lemma round_idle st st' round_idx :
  idle_round w st st' -> round w intent0 round_idx st = Ok (NextRound st').
Proof.
  intros (payload & Hc & [Hcalls Htext] & ->). unfold round, _complete.
  rewrite Hc. cbn [bind]. unfold assistant_entry.
  rewrite Hcalls, Htext. reflexivity.
Qed.

Lemma round_tools st st' round_idx :
  tool_round w st st' -> round w intent0 round_idx st = Ok (NextRound st').
Proof.
  intros (payload & call & calls & Hc & Hcalls & Hrun).
  unfold round, _complete. rewrite Hc. cbn [bind].
  unfold assistant_entry in Hrun. rewrite Hcalls in Hrun |- *.
  cbn [from_option id]. rewrite Hrun. reflexivity.
Qed.

(** Rounds that all continue use up the indices. *)
Lemma rounds_from_exhausted (R : relation locals) idxs st st' :
  (forall s s' i, R s s' -> round w intent0 i s = Ok (NextRound s')) ->
  nsteps R (length idxs) st st' ->
  rounds_from w intent0 idxs st = Ok (exhausted intent0 st').
Proof.
  intros HR. revert st. induction idxs as [| i rest IH]; intros st Hn.
  - inversion Hn; subst. reflexivity.
  - inversion Hn as [| n s1 s2 s3 Hstep Hrest]; subst.
    cbn [rounds_from]. rewrite (HR _ _ i Hstep). cbn [bind].
    apply IH. exact Hrest.
Qed.

Lemma range_rounds : range 1 (MAX_ROUNDS + 1) = [1; 2; 3; 4; 5; 6; 7; 8].
Proof. reflexivity. Qed.

(** C6. A completion with no tool calls and no text (missing, empty or
    whitespace only) does not end the run: the round ends with the
    history extended by that assistant entry and nothing else changed,
    and the loop goes on with the remaining round indices; when this
    happens in all eight rounds the run returns the round-exhaustion
    result. *)
Theorem degenerate_completion_consumes_round st payload :
  chat_completions w (ls_messages st) = Some payload ->
  degenerate (_extract_message payload) ->
  let st' := with_message st (assistant_entry (_extract_message payload)) in
  (forall round_idx, round w intent0 round_idx st = Ok (NextRound st'))
  /\ (forall round_idx rest,
        rounds_from w intent0 (round_idx :: rest) st
        = rounds_from w intent0 rest st')
  /\ (forall _hydrated last,
        nsteps (idle_round w) 8 (initial w intent0 _hydrated) last ->
        run w _hydrated intent0 = Ok (exhausted intent0 last)
        /\ ls_tool_runs last = []).
Proof.
  intros Hc Hdeg st'.
  assert (Hidle : idle_round w st st') by (exists payload; auto).
  split; [intros i; apply round_idle; exact Hidle |].
  split.
  { intros i rest. cbn [rounds_from].
    rewrite (round_idle st st' i Hidle). reflexivity. }
  intros h last Hn. split.
  - unfold run. rewrite range_rounds.
    apply (rounds_from_exhausted (idle_round w)); [| exact Hn].
    intros s s' i. apply round_idle.
  - assert (Hkeep : forall n s s', nsteps (idle_round w) n s s' ->
                                   ls_tool_runs s' = ls_tool_runs s).
    { induction 1 as [| n s1 s2 s3 (p & _ & _ & ->) _ IH]; [reflexivity |].
      rewrite IH. reflexivity. }
    rewrite (Hkeep _ _ _ Hn). reflexivity.
Qed.

Lemma turn_response_kind arguments h r h' :
  turn w arguments h = Ok (r, h') ->
  match r with Success (PeekData _) => False | _ => True end.
Proof.
  unfold turn. destruct (h >=? MAX_HYDRATE_TURNS).
  { intros H. injection H as <- _. exact I. }
  destruct arguments; try discriminate.
  destruct (UUID w _) as [u |]; [| intros H; injection H as <- _; exact I].
  destruct (select_turn w u) as [[row |] |]; [| | discriminate];
    intros H; injection H as <- _; exact I.
Qed.

Lemma dispatch_response_kind tool_name arguments h r h' :
  _dispatch w tool_name arguments h = Ok (r, h') ->
  or_str tool_name "unknown" = lit "retrieval_turn" ->
  match r with Success (PeekData _) => False | _ => True end.
Proof.
  unfold _dispatch, is_name.
  case_bool_decide as Hpeek; [subst tool_name; discriminate |].
  case_bool_decide as Hturn.
  - intros H _. eapply turn_response_kind. exact H.
  - intros H _. injection H as <- _. exact I.
Qed.

Lemma handle_call_log call st st' :
  handle_call w call st = Ok st' ->
  turn_runs_carry_turns (ls_tool_runs st) ->
  turn_runs_carry_turns (ls_tool_runs st').
Proof.
  unfold handle_call, turn_runs_carry_turns.
  set (tool_name := match call_function call with
                    | Some f => fn_name f | None => None end).
  destruct (json_loads w _) as [parsed |]; cbn [bind].
  - destruct (_dispatch w tool_name parsed (ls_hydrated st))
      as [[response hydrated] | e] eqn:Hd; cbn [bind]; [| discriminate].
    intros H Hlog. injection H as <-. cbn.
    apply Forall_app. split; [exact Hlog |].
    constructor; [| constructor]. cbn. intros Hname.
    eapply dispatch_response_kind; eauto.
  - destruct (ls_parsed_args st); [| discriminate].
    intros H Hlog. injection H as <-. cbn.
    apply Forall_app. split; [exact Hlog |].
    constructor; [| constructor]. cbn. intros _. exact I.
Qed.

Lemma handle_calls_log calls st st' :
  handle_calls w calls st = Ok st' ->
  turn_runs_carry_turns (ls_tool_runs st) ->
  turn_runs_carry_turns (ls_tool_runs st').
Proof.
  revert st. induction calls as [| call rest IH]; intros st; cbn.
  - intros H. injection H as <-. auto.
  - destruct (handle_call w call st) as [st1 | e] eqn:H1; cbn; [| discriminate].
    intros H Hlog. eapply IH; [exact H |].
    eapply handle_call_log; eauto.
Qed.

Lemma hydrated_ids_cons tr rest :
  hydrated_ids (tr :: rest)
  = if bool_decide (tr_tool tr = lit "retrieval_turn") then
      match tr_response tr with
      | Success (TurnData td) => td_turn_id td :: hydrated_ids rest
      | _ => hydrated_ids rest
      end
    else hydrated_ids rest.
Proof.
  unfold hydrated_ids. cbn [omap list_omap].
  case_bool_decide; [| reflexivity].
  destruct (tr_response tr) as [e | [pd | td]]; reflexivity.
Qed.

Lemma collect_cited_spec runs :
  turn_runs_carry_turns runs -> collect_cited runs = Ok (hydrated_ids runs).
Proof.
  induction 1 as [| tr rest Htr _ IH]; [reflexivity |].
  rewrite hydrated_ids_cons. cbn [collect_cited].
  destruct (tr_response tr) as [e | d].
  { rewrite IH. case_bool_decide; reflexivity. }
  case_bool_decide as Hname; [| exact IH].
  destruct d as [pd | td]; [destruct (Htr Hname) |].
  rewrite IH. reflexivity.
Qed.

(** What a round returns, when it returns, and what it keeps. *)
Lemma round_outcomes round_idx st o :
  round w intent0 round_idx st = Ok o ->
  turn_runs_carry_turns (ls_tool_runs st) ->
  match o with
  | NextRound st' => turn_runs_carry_turns (ls_tool_runs st')
  | Return r =>
      status r = completed
      /\ rounds r = round_idx
      /\ (exists c t, final_answer r = Some (c :: t))
      /\ cited_turn_ids r = hydrated_ids (tool_runs r)
  end.
Proof.
  unfold round. destruct (_complete w (ls_messages st)) as [payload | e];
    cbn [bind]; [| discriminate].
  destruct (default [] (msg_tool_calls (_extract_message payload)))
    as [| call calls].
  - destruct (strip (default [] (msg_content (_extract_message payload))))
      as [| c t] eqn:Htext; cbn [truthy].
    + intros H Hlog. injection H as <-. exact Hlog.
    + intros H Hlog. cbn [with_message ls_tool_runs] in H.
      rewrite (collect_cited_spec _ Hlog) in H. cbn [bind] in H.
      injection H as <-. cbn. eauto 6.
  - destruct (handle_calls w (call :: calls) _) as [st' | e] eqn:Hrun;
      cbn [bind]; [| discriminate].
    intros H Hlog. injection H as <-.
    eapply handle_calls_log; [exact Hrun | exact Hlog].
Qed.

Lemma rounds_from_outcomes idxs st r :
  rounds_from w intent0 idxs st = Ok r ->
  turn_runs_carry_turns (ls_tool_runs st) ->
  (status r = completed /\ In (rounds r) idxs
   /\ (exists c t, final_answer r = Some (c :: t))
   /\ cited_turn_ids r = hydrated_ids (tool_runs r))
  \/ (status r = max_rounds_exceeded /\ rounds r = MAX_ROUNDS
      /\ final_answer r = None /\ cited_turn_ids r = []).
Proof.
  revert st. induction idxs as [| i rest IH]; intros st; cbn [rounds_from].
  - intros H _. injection H as <-. right. cbn. auto.
  - destruct (round w intent0 i st) as [o | e] eqn:Hround; cbn [bind];
      [| discriminate].
    intros H Hlog. pose proof (round_outcomes i st o Hround Hlog) as Ho.
    destruct o as [st' | r'].
    + destruct (IH st' H Ho) as [(?&?&?&?) | ?]; [left | right; auto].
      repeat split; auto. right. assumption.
    + injection H as <-. destruct Ho as (?&?&?&?). left.
      repeat split; auto. left. auto.
Qed.

Lemma initial_log_ok h :
  turn_runs_carry_turns (ls_tool_runs (initial w intent0 h)).
Proof. constructor. Qed.

(** C3 (amended). When a run ends with status [completed], its
    [cited_turn_ids] is the list of turn ids of the successful
    [retrieval_turn] runs of its tool-run log, in log order and with
    repetitions kept; when it ends with status [max_rounds_exceeded],
    [cited_turn_ids] is empty whatever the log holds. *)
Theorem cited_turn_ids_by_status _hydrated r :
  run w _hydrated intent0 = Ok r ->
  (status r = completed -> cited_turn_ids r = hydrated_ids (tool_runs r))
  /\ (status r = max_rounds_exceeded -> cited_turn_ids r = []).
Proof.
  intros Hrun.
  destruct (rounds_from_outcomes _ _ _ Hrun (initial_log_ok _hydrated))
    as [(Hs & _ & _ & Hc) | (Hs & _ & _ & Hc)];
    rewrite Hs; split; intros; congruence.
Qed.

(** C1 (amended). When each of the eight completion responses of a run
    contains tool calls and every tool call is dispatched to a response
    (no dispatch aborts the run), [LLMOrchestrator.run] returns, after
    the eighth round, a result with status [max_rounds_exceeded], no
    final answer and [rounds] equal to 8; and [AgentService.run] then
    raises HTTP 502 with the store and the log of persistence calls left
    as they were: neither [create_session] nor [append_turn] is called. *)
Theorem tool_rounds_exhaust_the_budget have_chat_client sv session_id last :
  nsteps (tool_round w) 8 (initial w intent0 0) last ->
  (exists r,
     run w 0 intent0 = Ok r
     /\ status r = max_rounds_exceeded
     /\ final_answer r = None
     /\ rounds r = 8
     /\ tool_runs r = ls_tool_runs last)
  /\ AgentService.run w have_chat_client sv intent0 session_id
     = (Raise (HTTPException 502), sv)
  /\ persistence_log
       (AgentService.run w have_chat_client sv intent0 session_id).2
     = persistence_log sv.
Proof.
  intros Hn.
  assert (Hrun : run w 0 intent0 = Ok (exhausted intent0 last)).
  { unfold run. rewrite range_rounds.
    apply (rounds_from_exhausted (tool_round w)); [| exact Hn].
    intros s s' i. apply round_tools. }
  split; [exists (exhausted intent0 last); repeat split; exact Hrun |].
  assert (Hsv : AgentService.run w have_chat_client sv intent0 session_id
                = (Raise (HTTPException 502), sv)).
  { unfold AgentService.run. destruct have_chat_client; [| reflexivity].
    rewrite Hrun. reflexivity. }
  split; [exact Hsv | rewrite Hsv; reflexivity].
Qed.

End WithWorld.

End OrchestratorFacts.


Module OrchestratorExamples.
Import Retrieval Agent Agent.RetrievalTools Agent.LLMOrchestrator.
Import OrchestratorFacts Demo.

Definition question : pystr := lit "When did project X kick off?".

Definition hydrate_1 : message :=
  asks [call "call_a" "retrieval_turn" (turn_args_text 1)].

(** Eight rounds of tool calls, all served. *)
Definition busy_script : list message := repeat hydrate_1 8.

(** Seven rounds of tool calls, then a peek whose query the embedding
    gateway cannot embed. *)
Definition aborting_script : list message :=
  repeat hydrate_1 7
  ++ [asks [call "call_b" "retrieval_peek" (peek_args_text "offline")]].

(** Eight completions with neither tool calls nor text. *)
Definition silent_script : list message :=
  repeat {| msg_content := Some (lit "  "); msg_tool_calls := Some [] |} 8.

(** The same turn hydrated twice, then an answer. *)
Definition twice_script : list message :=
  [ asks [call "call_a" "retrieval_turn" (turn_args_text 1);
          call "call_b" "retrieval_turn" (turn_args_text 1)];
    says "It started in the first week of January [1]." ].

Ltac tool_step :=
  eapply nsteps_l;
  [ eexists _, _, _;
    split; [vm_compute; reflexivity |];
    split; [vm_compute; reflexivity |];
    vm_compute; reflexivity
  | ].

Ltac idle_step :=
  eapply nsteps_l;
  [ eexists;
    split; [vm_compute; reflexivity |];
    split; [split; vm_compute; reflexivity |];
    vm_compute; reflexivity
  | ].

Lemma busy_rounds :
  exists last,
    nsteps (tool_round (demo_world busy_script)) 8
      (initial (demo_world busy_script) question 0) last.
Proof. eexists. do 8 tool_step. apply nsteps_O. Defined.

Lemma tool_rounds_exhaust_the_budget_witness :
  exists last,
    nsteps (tool_round (demo_world busy_script)) 8
      (initial (demo_world busy_script) question 0) last
    /\ (exists r,
          run (demo_world busy_script) 0 question = Ok r
          /\ status r = max_rounds_exceeded
          /\ final_answer r = None
          /\ rounds r = 8
          /\ tool_runs r = ls_tool_runs last)
    /\ AgentService.run (demo_world busy_script) true
         (PersistenceFacts.demo_service SessionsFacts.one_session_db)
         question (Some 2%N)
       = (Raise (HTTPException 502),
          PersistenceFacts.demo_service SessionsFacts.one_session_db)
    /\ persistence_log
         (AgentService.run (demo_world busy_script) true
            (PersistenceFacts.demo_service SessionsFacts.one_session_db)
            question (Some 2%N)).2
       = [].
Proof.
  destruct busy_rounds as [last Hlast]. exists last.
  split; [exact Hlast |].
  apply (tool_rounds_exhaust_the_budget (demo_world busy_script) question
           true (PersistenceFacts.demo_service SessionsFacts.one_session_db)
           (Some 2%N) last Hlast).
Defined.

(** The claim read literally: eight completion responses with tool calls
    always end in the round-exhaustion result.  Here all eight responses
    carry tool calls and are received, seven rounds are served, and in the
    eighth the peek's embedding request fails: the HTTP 502 raised by
    [embed_query] leaves [run], which returns no result. *)
(** The state reached by [n] rounds that all go on to the next. *)
Fixpoint advance (w : world) (n : nat) (st : locals) : option locals :=
  match n with
  | O => Some st
  | S k =>
      match round w question 0 st with
      | Ok (NextRound st') => advance w k st'
      | _ => None
      end
  end.

Definition after_seven_rounds : locals :=
  Eval vm_compute in
    default (initial (demo_world aborting_script) question 0)
      (advance (demo_world aborting_script) 7
         (initial (demo_world aborting_script) question 0)).

Lemma seven_served_rounds :
  nsteps (tool_round (demo_world aborting_script)) 7
    (initial (demo_world aborting_script) question 0) after_seven_rounds.
Proof. do 7 tool_step. apply nsteps_O. Qed.

Lemma gateway_failure_in_round_8_aborts :
  let w := demo_world aborting_script in
  length aborting_script = 8%nat
  /\ Forall (fun m => exists c cs, msg_tool_calls m = Some (c :: cs))
            aborting_script
  /\ (exists st7 payload c cs,
        nsteps (tool_round w) 7 (initial w question 0) st7
        /\ chat_completions w (ls_messages st7) = Some payload
        /\ msg_tool_calls (_extract_message payload) = Some (c :: cs))
  /\ run w 0 question = Raise (HTTPException 502)
  /\ ~ (exists r, run w 0 question = Ok r
                  /\ status r = max_rounds_exceeded).
Proof.
  intros w. subst w. split; [reflexivity |].
  split; [repeat constructor; eexists _, _; reflexivity |].
  split.
  { exists after_seven_rounds. eexists _, _, _.
    split; [exact seven_served_rounds |].
    split; vm_compute; reflexivity. }
  assert (Hrun : run (demo_world aborting_script) 0 question
                 = Raise (HTTPException 502))
    by (vm_compute; reflexivity).
  split; [exact Hrun |].
  intros (r & Hr & _). rewrite Hrun in Hr. discriminate Hr.
Qed.

(** The claim read literally: the citations are those of the log whatever
    the status.  After eight served rounds of hydration the log holds
    eight successful hydrate runs and [cited_turn_ids] is empty. *)
Lemma exhausted_run_cites_nothing :
  ~ (forall w _hydrated intent0 r,
        run w _hydrated intent0 = Ok r ->
        cited_turn_ids r = hydrated_ids (tool_runs r)).
Proof.
  intros H.
  assert (exists r,
            run (demo_world busy_script) 0 question = Ok r
            /\ cited_turn_ids r = []
            /\ hydrated_ids (tool_runs r) = repeat 1%N 8)
    as (r & Hr & Hc & Hl).
  { eexists. split; [vm_compute; reflexivity |]. split; reflexivity. }
  specialize (H _ _ _ _ Hr). rewrite Hc, Hl in H. discriminate H.
Qed.

Lemma cited_turn_ids_by_status_witness :
  exists r,
    run (demo_world twice_script) 0 question = Ok r
    /\ (status r = completed ->
        cited_turn_ids r = hydrated_ids (tool_runs r))
    /\ (status r = max_rounds_exceeded -> cited_turn_ids r = []).
Proof.
  eexists. split; [vm_compute; reflexivity |].
  apply (cited_turn_ids_by_status (demo_world twice_script) question 0).
  vm_compute. reflexivity.
Defined.

(** Hydrating one turn twice cites it twice, with the same content. *)
Example same_turn_cited_twice :
  exists r,
    run (demo_world twice_script) 0 question = Ok r
    /\ status r = completed
    /\ rounds r = 2
    /\ cited_turn_ids r = [1%N; 1%N]
    /\ map tr_response (tool_runs r)
       = [TurnFacts.hydrated_response row_1;
          TurnFacts.hydrated_response row_1].
Proof.
  eexists. split; [vm_compute; reflexivity |].
  split; [reflexivity |]. split; [reflexivity |]. split; reflexivity.
Qed.

(** An answer in the first round: one round, nothing cited. *)
Example answer_in_round_1 :
  exists r,
    run (demo_world [says " Nothing to look up. "]) 0 question = Ok r
    /\ status r = completed
    /\ rounds r = 1
    /\ final_answer r = Some (lit "Nothing to look up.")
    /\ cited_turn_ids r = [].
Proof.
  eexists. split; [vm_compute; reflexivity |].
  split; [reflexivity |]. split; [reflexivity |]. split; reflexivity.
Qed.

Lemma silent_rounds :
  exists last,
    nsteps (idle_round (demo_world silent_script)) 8
      (initial (demo_world silent_script) question 0) last.
Proof. eexists. do 8 idle_step. apply nsteps_O. Defined.

Lemma degenerate_completion_consumes_round_witness :
  let w := demo_world silent_script in
  let st := initial w question 0 in
  let silent := {| msg_content := Some (lit "  ");
                   msg_tool_calls := Some [] |} in
  (forall round_idx,
     round w question round_idx st
     = Ok (NextRound (with_message st (assistant_entry silent))))
  /\ (exists last,
        run w 0 question = Ok (exhausted question last)
        /\ ls_tool_runs last = []).
Proof.
  intros w st silent.
  destruct (degenerate_completion_consumes_round w question st
              {| choices := Some [{| ch_message := Some silent |}] |})
    as (Hround & _ & Hrun).
  - vm_compute. reflexivity.
  - split; vm_compute; reflexivity.
  - split; [exact Hround |].
    destruct silent_rounds as [last Hlast]. exists last.
    apply Hrun. exact Hlast.
Defined.

(** Arguments that do not decode, in the very first tool call: the local
    [parsed_args] is read before it was ever assigned. *)
Example undecodable_first_arguments :
  run (demo_world [asks [call "call_a" "retrieval_turn" (lit "{oops")]])
      0 question
  = Raise UnboundLocalError.
Proof. reflexivity. Qed.

(** Arguments that decode to something other than an object reach the
    tool, whose [arguments.get] raises. *)
Example non_object_arguments :
  run (demo_world [asks [call "call_a" "retrieval_turn" (lit "[]")]])
      0 question
  = Raise AttributeError.
Proof. reflexivity. Qed.

(** After a call that decoded, a call that does not decode is logged with
    the arguments of the earlier call. *)
Example undecodable_later_arguments :
  exists r,
    run (demo_world
           [asks [call "call_a" "retrieval_turn" (turn_args_text 1);
                  call "call_b" "retrieval_peek" (lit "{oops")];
            says "done"])
        0 question
    = Ok r
    /\ map (fun tr => (tr_arguments tr, tr_response tr)) (tool_runs r)
       = [(turn_args 1, TurnFacts.hydrated_response row_1);
          (turn_args 1, Failure InvalidJSONArguments)].
Proof. eexists. split; [vm_compute; reflexivity | reflexivity]. Qed.

End OrchestratorExamples.

(** * Further properties of the code *)

(** ** Facts about [strip] *)

Module PyStrFacts.

(** A string has no whitespace at its start (or is empty). *)
Definition starts_clean (s : pystr) : Prop :=
  match s with
  | [] => True
  | c :: _ => isspace c = false
  end.

(** A string has no whitespace at its end (or is empty). *)
Definition ends_clean (s : pystr) : Prop := starts_clean (rev s).

Lemma lstrip_starts_clean (s : pystr) : starts_clean (lstrip s).
Proof.
  induction s as [| c r IH]; cbn; [exact I |].
  destruct (isspace c) eqn:Hc; [exact IH | exact Hc].
Qed.

Lemma lstrip_clean (s : pystr) : starts_clean s -> lstrip s = s.
Proof. destruct s as [| c r]; cbn; [reflexivity | intros ->; reflexivity]. Qed.

Lemma lstrip_suffix (s : pystr) : exists ws, s = ws ++ lstrip s.
Proof.
  induction s as [| c r [ws IH]]; [exists []; reflexivity |].
  cbn. destruct (isspace c).
  - exists (c :: ws). cbn. rewrite <- IH. reflexivity.
  - exists []. reflexivity.
Qed.

Lemma rstrip_ends_clean (s : pystr) : ends_clean (rstrip s).
Proof.
  unfold ends_clean, rstrip. rewrite rev_involutive.
  apply lstrip_starts_clean.
Qed.

Lemma rstrip_clean (s : pystr) : ends_clean s -> rstrip s = s.
Proof.
  unfold ends_clean, rstrip. intros H. rewrite lstrip_clean by exact H.
  apply rev_involutive.
Qed.

Lemma rstrip_prefix (s : pystr) : exists ws, s = rstrip s ++ ws.
Proof.
  unfold rstrip. destruct (lstrip_suffix (rev s)) as [ws Hws].
  exists (rev ws). rewrite <- rev_app_distr, <- Hws, rev_involutive.
  reflexivity.
Qed.

(** Cutting whitespace off the end keeps a clean start. *)
Lemma rstrip_keeps_start (s : pystr) : starts_clean s -> starts_clean (rstrip s).
Proof.
  destruct s as [| c r]; [intros _; exact I |].
  cbn [starts_clean]. intros Hc. unfold rstrip. cbn [rev].
  destruct (lstrip_suffix (rev r ++ [c])) as [ws Hws].
  pose proof (lstrip_starts_clean (rev r ++ [c])) as Hclean.
  destruct (lstrip (rev r ++ [c])) as [| d t] eqn:Hl.
  - (* everything was dropped, so [c] itself is whitespace *)
    rewrite app_nil_r in Hws.
    assert (Hall : forall u, lstrip u = [] -> Forall (fun x => isspace x = true) u).
    { induction u as [| x u IHu]; cbn; [constructor |].
      destruct (isspace x) eqn:Hx; [| discriminate].
      intros Hu. constructor; auto. }
    specialize (Hall _ Hl). apply Forall_app in Hall as [_ Hc'].
    inversion Hc' as [| ? ? Hcs _]; subst. congruence.
  - (* the kept part ends with [c] *)
    assert (Hlast : exists t', d :: t = t' ++ [c]).
    { destruct (list_eq_nil_dec (d :: t)) as [Hnil | _]; [discriminate |].
      assert (Hsuf : (d :: t) `suffix_of` (rev r ++ [c]))
        by (exists ws; exact Hws).
      destruct (rev (d :: t)) as [| z zs] eqn:Hrev.
      { apply (f_equal (@rev _)) in Hrev. rewrite rev_involutive in Hrev.
        discriminate. }
      exists (rev zs).
      apply (f_equal (@rev _)) in Hrev. rewrite rev_involutive in Hrev.
      cbn [rev] in Hrev. rewrite Hrev in Hsuf |- *.
      destruct Hsuf as [k Hk]. rewrite app_assoc in Hk.
      apply app_inj_tail in Hk as [_ ->]. reflexivity. }
    destruct Hlast as [t' Ht']. rewrite Ht'. rewrite rev_app_distr. cbn.
    exact Hc.
Qed.

Lemma strip_clean_ends (s : pystr) :
  starts_clean (strip s) /\ ends_clean (strip s).
Proof.
  unfold strip. split.
  - apply rstrip_keeps_start, lstrip_starts_clean.
  - apply rstrip_ends_clean.
Qed.

Lemma strip_fixed (s : pystr) : starts_clean s -> ends_clean s -> strip s = s.
Proof.
  intros Hs He. unfold strip. rewrite (lstrip_clean s Hs).
  apply rstrip_clean. exact He.
Qed.

Lemma strip_idempotent (s : pystr) : strip (strip s) = strip s.
Proof. destruct (strip_clean_ends s). apply strip_fixed; assumption. Qed.

(** [strip s] is [s] without a margin on each side. *)
Lemma strip_infix (s : pystr) : exists l r, s = l ++ strip s ++ r.
Proof.
  unfold strip. destruct (lstrip_suffix s) as [l Hl].
  destruct (rstrip_prefix (lstrip s)) as [r Hr].
  exists l, r. rewrite <- Hr. exact Hl.
Qed.

Lemma strip_length (s : pystr) : len (strip s) <= len s.
Proof.
  destruct (strip_infix s) as (l & r & H). unfold len.
  rewrite H at 2. rewrite !length_app. lia.
Qed.

End PyStrFacts.

(** ** Time bins *)

Module BinFacts.
Import Retrieval.





(** Half a second before the epoch: truncation toward zero puts the time
    into the bin that starts after it. *)
Example before_the_epoch :
  bin_timestamp (-500000) 86400 = Ok 0.
Proof. reflexivity. Qed.

End BinFacts.

(** ** The histogram, bucket by bucket *)

Module HistogramFacts.
Import Retrieval Agent Agent.RetrievalTools PeekFacts PyStrFacts.

(** The bucket start a candidate is counted under, if any. *)
Definition bucket_of (bin_seconds : Z) (c : candidate) : option Z :=
  match ensure_utc (u_create_time (c_row c)) with
  | Some t =>
      match bin_timestamp t bin_seconds with
      | Ok start => Some start
      | Raise _ => None
      end
  | None => None
  end.

(** How many of [rows] are counted under the bucket start [k]. *)
Definition count_in (bin_seconds k : Z) (rows : list candidate) : Z :=
  Z.of_nat (length (filter (fun c => bucket_of bin_seconds c = Some k) rows)).

Lemma count_in_nil bin_seconds k : count_in bin_seconds k [] = 0.
Proof. reflexivity. Qed.

Lemma count_in_cons bin_seconds k c rows :
  count_in bin_seconds k (c :: rows)
  = (if bool_decide (bucket_of bin_seconds c = Some k) then 1 else 0)
    + count_in bin_seconds k rows.
Proof.
  unfold count_in. rewrite filter_cons.
  case_bool_decide as Hk; destruct (decide _); try contradiction;
    cbn [length]; lia.
Qed.


Lemma count_in_Permutation bin_seconds k rows rows' :
  rows ≡ₚ rows' -> count_in bin_seconds k rows = count_in bin_seconds k rows'.
Proof. intros H. unfold count_in. rewrite H. reflexivity. Qed.


Definition counts_from (bin_seconds : Z) (rows : list candidate)
    (before after : gmap Z Z) : Prop :=
  forall k, default 0 (after !! k)
            = default 0 (before !! k) + count_in bin_seconds k rows.

Definition all_positive (buckets : gmap Z Z) : Prop :=
  map_Forall (fun _ v => 1 <= v) buckets.

Section Scan.
Context {A : Type} (mk : candidate -> option instant -> A).
Variables bin_seconds max_matches : Z.

Lemma scan_rows_counts rows buckets previews buckets' previews' :
  scan_rows mk bin_seconds max_matches rows buckets previews
  = Ok (buckets', previews') ->
  counts_from bin_seconds rows buckets buckets'
  /\ (all_positive buckets -> all_positive buckets').
Proof.
  revert buckets previews.
  induction rows as [| row rest IH]; intros buckets previews; cbn [scan_rows].
  - intros H. injection H as <- <-. split; [| auto].
    intros k. rewrite count_in_nil. lia.
  - destruct (ensure_utc (u_create_time (c_row row))) as [t |] eqn:Ht.
    + destruct (bin_timestamp t bin_seconds) as [start | e] eqn:Hbin;
        cbn [bind]; [| discriminate].
      intros H. apply IH in H as [Hcount Hpos]. split.
      * intros k. rewrite Hcount, count_in_cons. unfold bucket_of.
        rewrite Ht, Hbin.
        destruct (decide (start = k)) as [-> | Hne].
        -- rewrite lookup_insert_eq, bool_decide_eq_true_2 by reflexivity.
           cbn [from_option id]. unfold instant in *. lia.
        -- rewrite lookup_insert_ne by exact Hne.
           rewrite bool_decide_eq_false_2 by congruence. lia.
      * intros Hall. apply Hpos. apply map_Forall_insert_2; [| exact Hall].
        destruct (buckets !! start) as [v |] eqn:Hv; cbn; [| lia].
        specialize (Hall start v Hv). cbn in Hall. lia.
    + cbn [bind]. intros H. apply IH in H as [Hcount Hpos].
      split; [| exact Hpos].
      intros k. rewrite Hcount, count_in_cons. unfold bucket_of. rewrite Ht.
      rewrite bool_decide_eq_false_2 by discriminate. lia.
Qed.

(** From the empty dict, the final dict holds exactly the positive
    counts. *)
Lemma scan_rows_lookup rows previews buckets' previews' k :
  scan_rows mk bin_seconds max_matches rows ∅ previews
  = Ok (buckets', previews') ->
  buckets' !! k
  = if decide (count_in bin_seconds k rows = 0) then None
    else Some (count_in bin_seconds k rows).
Proof.
  intros H. apply scan_rows_counts in H as [Hcount Hpos].
  specialize (Hcount k). rewrite lookup_empty in Hcount. cbn in Hcount.
  assert (Hall : all_positive buckets') by (apply Hpos, map_Forall_empty).
  destruct (buckets' !! k) as [v |] eqn:Hv.
  - specialize (Hall k v Hv). cbn in Hall, Hcount.
    destruct (decide _); [lia | f_equal; lia].
  - cbn in Hcount. destruct (decide _); [reflexivity | lia].
Qed.

End Scan.

(** The scan's dict does not depend on the order of the rows, on the
    preview limit or on what is built for a preview. *)
Lemma scan_rows_buckets_invariant {A B : Type}
    (mk : candidate -> option instant -> A)
    (mk' : candidate -> option instant -> B)
    bin_seconds n n' rows rows' pv pv' b1 p1 b2 p2 :
  rows ≡ₚ rows' ->
  scan_rows mk bin_seconds n rows ∅ pv = Ok (b1, p1) ->
  scan_rows mk' bin_seconds n' rows' ∅ pv' = Ok (b2, p2) ->
  b1 = b2.
Proof.
  intros Hperm H1 H2. apply map_eq. intros k.
  rewrite (scan_rows_lookup mk bin_seconds n rows pv b1 p1 k H1).
  rewrite (scan_rows_lookup mk' bin_seconds n' rows' pv' b2 p2 k H2).
  rewrite (count_in_Permutation bin_seconds k rows rows' Hperm).
  reflexivity.
Qed.




Lemma peek_build_inv query p rows d :
  peek_build query p rows = Ok (Success (PeekData d)) ->
  exists buckets previews,
    scan_rows make_preview (p_bin_days p * 86400)
      (Z.min (p_top_n_snippets p) (Z.of_nat (length rows))) rows ∅ []
    = Ok (buckets, previews)
    /\ pd_histogram d
       = {| h_bin_days := p_bin_days p;
            h_buckets := histogram_buckets (p_bin_days p * 86400) buckets;
            h_total := Z.of_nat (length rows) |}
    /\ pd_previews d = previews
    /\ pd_preview_count d = Z.of_nat (length previews).
Proof.
  unfold peek_build.
  destruct (scan_rows _ _ _ _ _ _) as [[buckets previews] | e]; cbn [bind];
    [| discriminate].
  intros H. injection H as <-. exists buckets, previews. auto.
Qed.

Lemma peek_assemble_inv top_n_snippets bin_days rows r :
  peek_assemble top_n_snippets bin_days rows = Ok r ->
  exists buckets matches,
    scan_rows make_match (bin_days * 86400)
      (Z.min top_n_snippets (Z.of_nat (length rows))) rows ∅ []
    = Ok (buckets, matches)
    /\ pr_histogram r
       = {| h_bin_days := bin_days;
            h_buckets := histogram_buckets (bin_days * 86400) buckets;
            h_total := Z.of_nat (length rows) |}
    /\ pr_matches r = matches.
Proof.
  unfold peek_assemble.
  destruct (scan_rows _ _ _ _ _ _) as [[buckets matches] | e]; cbn [bind];
    [| discriminate].
  intros H. injection H as <-. exists buckets, matches. auto.
Qed.



(** X3. The histogram depends on the set of candidates and on [bin_days]
    only: reordering the candidates, changing the preview limit, or going
    through the HTTP handler instead of the tool gives the same
    histogram. *)
Theorem histogram_ignores_order_and_previews
    query p rows rows' top_n_snippets' d r :
  rows ≡ₚ rows' ->
  peek_build query p rows = Ok (Success (PeekData d)) ->
  peek_assemble top_n_snippets' (p_bin_days p) rows' = Ok r ->
  pd_histogram d = pr_histogram r.
Proof.
  intros Hperm Hd Hr.
  apply peek_build_inv in Hd as (b1 & p1 & H1 & -> & _).
  apply peek_assemble_inv in Hr as (b2 & p2 & H2 & -> & _).
  rewrite (scan_rows_buckets_invariant _ _ _ _ _ _ _ _ _ _ _ _ _
             Hperm H1 H2).
  rewrite (Permutation_length Hperm). reflexivity.
Qed.

Lemma histogram_ignores_order_and_previews_witness :
  exists d r,
    peek_build (lit "kickoff") default_probe Demo.demo_candidates
    = Ok (Success (PeekData d))
    /\ peek_assemble 1 7 (rev Demo.demo_candidates) = Ok r
    /\ pd_histogram d = pr_histogram r.
Proof.
  eexists _, _. split; [vm_compute; reflexivity |].
  split; [vm_compute; reflexivity |].
  apply (histogram_ignores_order_and_previews (lit "kickoff") default_probe
           Demo.demo_candidates (rev Demo.demo_candidates) 1).
  - symmetry. apply Permutation_rev.
  - vm_compute. reflexivity.
  - vm_compute. reflexivity.
Defined.

Lemma scan_rows_zero_bin {A : Type} (mk : candidate -> option instant -> A)
    n rows buckets previews :
  scan_rows mk 0 n rows buckets previews
  = if forallb (fun c => negb (dated c)) rows
    then Ok (buckets,
             previews
             ++ map (entry mk)
                  (take (Z.to_nat (n - Z.of_nat (length previews))) rows))
    else Raise ZeroDivisionError.
Proof.
  revert previews. induction rows as [| row rest IH]; intros previews.
  - cbn. rewrite take_nil, app_nil_r. reflexivity.
  - cbn [scan_rows forallb]. unfold dated at 1.
    destruct (u_create_time (c_row row)) as [dt |] eqn:Hdt; cbn [ensure_utc].
    + destruct (utcoffset_us dt); reflexivity.
    + cbn [bind negb andb]. rewrite IH.
      destruct (forallb _ rest); [| reflexivity].
      f_equal. f_equal.
      destruct (Z.ltb_spec (Z.of_nat (length previews)) n) as [Hlt | Hge].
      * rewrite length_app. cbn [length].
        replace (Z.to_nat (n - Z.of_nat (length previews)))
          with (S (Z.to_nat (n - Z.of_nat (length previews + 1)))) by lia.
        cbn [take map]. unfold entry at 2. rewrite Hdt.
        rewrite <- app_assoc. reflexivity.
      * replace (Z.to_nat (n - Z.of_nat (length previews))) with 0%nat by lia.
        reflexivity.
Qed.

(** X4. [RetrievalTools.peek] does not enforce the minimums of its tool
    schema.  With [bin_days] = 0 the first candidate that has a create
    time makes it raise ZeroDivisionError, and with only undated
    candidates it returns an empty histogram; with a preview limit of zero
    or less it returns no preview at all, without an error. *)
Theorem peek_outside_schema query p rows :
  (p_bin_days p = 0 ->
   (exists c, c ∈ rows /\ dated c = true) ->
   peek_build query p rows = Raise ZeroDivisionError)
  /\ (p_bin_days p = 0 ->
      (forall c, c ∈ rows -> dated c = false) ->
      exists d, peek_build query p rows = Ok (Success (PeekData d))
                /\ h_buckets (pd_histogram d) = []
                /\ h_total (pd_histogram d) = Z.of_nat (length rows))
  /\ (p_top_n_snippets p <= 0 ->
      forall d, peek_build query p rows = Ok (Success (PeekData d)) ->
                pd_previews d = [] /\ pd_preview_count d = 0).
Proof.
  split; [| split].
  - intros Hb (c & Hc & Hd). unfold peek_build. rewrite Hb. cbn [Z.mul].
    rewrite scan_rows_zero_bin.
    replace (forallb (fun c => negb (dated c)) rows) with false; [reflexivity |].
    symmetry. apply not_true_is_false. intros Hall.
    rewrite forallb_forall in Hall.
    apply list_elem_of_In in Hc. specialize (Hall c Hc).
    rewrite Hd in Hall. discriminate.
  - intros Hb Hall. unfold peek_build. rewrite Hb. cbn [Z.mul].
    rewrite scan_rows_zero_bin.
    replace (forallb (fun c => negb (dated c)) rows) with true.
    + cbn [bind]. eexists. split; [reflexivity |]. cbn.
      split; reflexivity.
    + symmetry. apply forallb_forall. intros c Hc.
      apply list_elem_of_In in Hc. rewrite (Hall c Hc). reflexivity.
  - intros Hn d Hd.
    apply peek_build_inv in Hd as (buckets & previews & Hscan & _ & -> & ->).
    apply scan_rows_previews in Hscan. cbn [length app] in Hscan.
    replace (Z.to_nat _) with 0%nat in Hscan by lia.
    subst previews. split; reflexivity.
Qed.

Definition zero_bin : probe :=
  {| p_top_k := 100; p_bin_days := 0; p_top_n_snippets := 0;
     p_start_time := None; p_end_time := None;
     p_conversation_uuid := None |}.

Definition undated_candidate : candidate :=
  {| c_row := Demo.row_3; c_distance := 0.75 |}.

Lemma peek_outside_schema_witness :
  peek_build (lit "kickoff") zero_bin Demo.demo_candidates
  = Raise ZeroDivisionError
  /\ (exists d,
        peek_build (lit "kickoff") zero_bin [undated_candidate]
        = Ok (Success (PeekData d))
        /\ h_buckets (pd_histogram d) = []
        /\ h_total (pd_histogram d) = 1
        /\ pd_previews d = [] /\ pd_preview_count d = 0).
Proof.
  destruct (peek_outside_schema (lit "kickoff") zero_bin Demo.demo_candidates)
    as (Hraise & _ & _).
  destruct (peek_outside_schema (lit "kickoff") zero_bin [undated_candidate])
    as (_ & Hempty & Hnone).
  split.
  - apply Hraise; [reflexivity |].
    eexists. split; [apply list_elem_of_here | reflexivity].
  - destruct Hempty as (d & Hd & Hb & Ht); [reflexivity | |].
    + intros c Hc. apply list_elem_of_singleton in Hc. subst c. reflexivity.
    + exists d. split; [exact Hd |]. split; [exact Hb |].
      split; [exact Ht |]. apply Hnone; [cbn; lia | exact Hd].
Defined.

End HistogramFacts.

(** ** Snippets and hydrated content *)

Module EvidenceFacts.
Import Retrieval Agent Agent.RetrievalTools PeekFacts PyStrFacts.

Lemma take_starts_clean (n : nat) (s : pystr) :
  starts_clean s -> starts_clean (take n s).
Proof. destruct n, s; cbn; auto. Qed.

Lemma trim_snippet_spec (t : pystr) :
  trim_snippet (Some t) = Some (prefix MAX_SNIPPET_LEN (strip t)).
Proof.
  unfold trim_snippet, prefix, len.
  destruct (Z.gtb_spec (Z.of_nat (length (strip t))) MAX_SNIPPET_LEN);
    [reflexivity |].
  f_equal. symmetry. apply take_ge. unfold MAX_SNIPPET_LEN in *. lia.
Qed.

Lemma user_snippet_spec (r : corpus_row) :
  user_snippet r
  = prefix MAX_SNIPPET_LEN (strip (default [] (u_content_text r))).
Proof.
  unfold user_snippet. destruct (u_content_text r) as [t |]; [| reflexivity].
  rewrite trim_snippet_spec. cbn [default from_option id].
  destruct (prefix MAX_SNIPPET_LEN (strip t)); reflexivity.
Qed.

(** A snippet: at most 400 characters, no whitespace in front, cut from
    the front of the stripped text. *)
Definition is_snippet_of (text : pystr) (snippet : pystr) : Prop :=
  snippet = prefix MAX_SNIPPET_LEN (strip text)
  /\ len snippet <= 400
  /\ starts_clean snippet
  /\ (len (strip text) <= 400 -> snippet = strip text).

Lemma prefix_is_snippet (text : pystr) :
  is_snippet_of text (prefix MAX_SNIPPET_LEN (strip text)).
Proof.
  split; [reflexivity |]. split; [| split].
  - unfold len, prefix. rewrite length_take. unfold MAX_SNIPPET_LEN. lia.
  - apply take_starts_clean, strip_clean_ends.
  - intros Hshort. unfold prefix. apply take_ge.
    unfold len, MAX_SNIPPET_LEN in *. lia.
Qed.

(** X5. Every preview of a successful peek carries bounded excerpts: the
    user snippet is the stripped user text cut to its first 400 characters
    (the empty string when the text is NULL), the assistant snippet is the
    same excerpt of the summary when the turn uses its summary and of the
    assistant text otherwise (null when that is NULL); neither is longer
    than 400 characters nor starts with whitespace, and a text of at most
    400 characters after stripping is shown whole. *)
Theorem previews_carry_snippets query p rows d :
  peek_build query p rows = Ok (Success (PeekData d)) ->
  exists shown,
    shown `prefix_of` rows
    /\ Forall2 (fun c pv =>
                  is_snippet_of (default [] (u_content_text (c_row c)))
                                (pv_user_snippet pv)
                  /\ match assistant_source (c_row c) with
                     | Some text =>
                         exists s, pv_assistant_snippet pv = Some s
                                   /\ is_snippet_of text s
                     | None => pv_assistant_snippet pv = None
                     end)
               shown (pd_previews d).
Proof.
  unfold peek_build.
  destruct (scan_rows _ _ _ _ _ _) as [[buckets previews] | e] eqn:Hscan;
    cbn [bind]; [| discriminate].
  intros H. injection H as <-. cbn [pd_previews].
  apply scan_rows_previews in Hscan. cbn [app] in Hscan. subst previews.
  eexists. split; [apply prefix_take |].
  apply Forall2_fmap_r, Forall_Forall2_diag, Forall_forall.
  intros c _. unfold entry, make_preview. cbn. split.
  - rewrite user_snippet_spec. apply prefix_is_snippet.
  - destruct (assistant_source (c_row c)) as [text |]; [| reflexivity].
    rewrite trim_snippet_spec. eexists. split; [reflexivity |].
    apply prefix_is_snippet.
Qed.

Lemma previews_carry_snippets_witness :
  exists d shown,
    peek_build (lit "kickoff") default_probe Demo.demo_candidates
    = Ok (Success (PeekData d))
    /\ shown `prefix_of` Demo.demo_candidates
    /\ Forall2 (fun c pv =>
                  is_snippet_of (default [] (u_content_text (c_row c)))
                                (pv_user_snippet pv)
                  /\ match assistant_source (c_row c) with
                     | Some text =>
                         exists s, pv_assistant_snippet pv = Some s
                                   /\ is_snippet_of text s
                     | None => pv_assistant_snippet pv = None
                     end)
               shown (pd_previews d).
Proof.
  destruct (PeekFacts.peek_build_data (lit "kickoff") default_probe
              Demo.demo_candidates) as (b & pv & _ & Hd); [discriminate |].
  destruct (previews_carry_snippets _ _ _ _ Hd) as (shown & Hs & Hall).
  eexists _, shown. split; [exact Hd |]. split; [exact Hs | exact Hall].
Defined.

Lemma truncate_spec (text : option pystr) :
  _truncate text = option_map (prefix MAX_TURN_CHARS) text.
Proof.
  destruct text as [t |]; [| reflexivity]. cbn. unfold prefix, len.
  destruct (Z.gtb_spec (Z.of_nat (length t)) MAX_TURN_CHARS); [reflexivity |].
  f_equal. symmetry. apply take_ge. unfold MAX_TURN_CHARS in *. lia.
Qed.

(** A text is longer than the hydrate limit. *)
Definition too_long (text : option pystr) : Prop :=
  exists t, text = Some t /\ MAX_TURN_CHARS < len t.

Lemma truncate_changes (text : option pystr) :
  _truncate text <> text <-> too_long text.
Proof.
  unfold too_long. destruct text as [t |]; cbn.
  - destruct (Z.gtb_spec (len t) MAX_TURN_CHARS) as [Hgt | Hle].
    + split; [intros _; eauto |]. intros _ Heq. injection Heq as Heq.
      apply (f_equal (@length _)) in Heq. unfold prefix in Heq.
      rewrite length_take in Heq. unfold len, MAX_TURN_CHARS in *. lia.
    + split; [congruence |]. intros (t' & Ht' & Hlen).
      injection Ht' as <-. lia.
  - split; [congruence |]. intros (t' & Ht' & _). discriminate.
Qed.

(** X6. A successful hydrate returns, for the stored turn, the user text
    and the assistant content (the summary when the turn uses its summary,
    the assistant text otherwise), each cut to its first 2000 characters;
    the [truncated] flag is set exactly when one of the two was longer
    than 2000 characters, and when it is not set both are returned
    verbatim.  The call is counted: the counter was below 20 and is one
    higher afterwards. *)
Theorem hydrated_content_is_bounded w arguments h d h' :
  turn w arguments h = Ok (Success (TurnData d), h') ->
  exists turn_uuid row,
    select_turn w turn_uuid = Some (Some row)
    /\ td_turn_id d = me_id row
    /\ td_user_content d = option_map (prefix 2000) (u_content_text row)
    /\ td_assistant_content d
       = option_map (prefix 2000) (assistant_source row)
    /\ (forall t, td_user_content d = Some t -> len t <= 2000)
    /\ (forall t, td_assistant_content d = Some t -> len t <= 2000)
    /\ (td_truncated d = true <->
        too_long (u_content_text row) \/ too_long (assistant_source row))
    /\ (td_truncated d = false ->
        td_user_content d = u_content_text row
        /\ td_assistant_content d = assistant_source row)
    /\ h < 20 /\ h' = h + 1.
Proof.
  unfold turn. destruct (Z.geb_spec h MAX_HYDRATE_TURNS) as [| Hlt];
    [discriminate |].
  destruct arguments as [| | | | | | items]; try discriminate.
  destruct (UUID w _) as [u |]; [| discriminate].
  destruct (select_turn w u) as [[row |] |] eqn:Hsel; try discriminate.
  intros H. injection H as <- <-. exists u, row.
  assert (Hbound : forall text t,
             option_map (prefix 2000) text = Some t -> len t <= 2000).
  { intros [x |] t Ht; [| discriminate]. injection Ht as <-.
    unfold len, prefix. rewrite length_take. lia. }
  cbn [hydrate td_turn_id td_user_content td_assistant_content td_truncated].
  rewrite !truncate_spec.
  assert (Hflag :
    bool_decide (option_map (prefix MAX_TURN_CHARS) (u_content_text row)
                 <> u_content_text row)
    || bool_decide (option_map (prefix MAX_TURN_CHARS) (assistant_source row)
                    <> assistant_source row) = true
    <-> too_long (u_content_text row) \/ too_long (assistant_source row)).
  { rewrite orb_true_iff, !bool_decide_eq_true, <- !truncate_spec,
      !truncate_changes. reflexivity. }
  split; [exact Hsel |]. split; [reflexivity |].
  split; [reflexivity |]. split; [reflexivity |].
  split; [apply Hbound |]. split; [apply Hbound |].
  split; [exact Hflag |].
  split; [| unfold MAX_HYDRATE_TURNS in Hlt; lia].
  intros Hfalse.
  assert (Hnot : ~ (too_long (u_content_text row)
                    \/ too_long (assistant_source row))).
  { rewrite <- Hflag, Hfalse. discriminate. }
  rewrite <- !truncate_spec. split.
  - destruct (decide (_truncate (u_content_text row) = u_content_text row))
      as [He | Hne]; [exact He |].
    exfalso. apply Hnot. left. apply truncate_changes. exact Hne.
  - destruct (decide (_truncate (assistant_source row) = assistant_source row))
      as [He | Hne]; [exact He |].
    exfalso. apply Hnot. right. apply truncate_changes. exact Hne.
Qed.

Lemma hydrated_content_is_bounded_witness :
  exists d turn_uuid row,
    turn (Demo.demo_world []) (Demo.turn_args 2) 7
    = Ok (Success (TurnData d), 8)
    /\ select_turn (Demo.demo_world []) turn_uuid = Some (Some row)
    /\ td_turn_id d = me_id row
    /\ td_user_content d = option_map (prefix 2000) (u_content_text row)
    /\ td_assistant_content d
       = option_map (prefix 2000) (assistant_source row)
    /\ (forall t, td_user_content d = Some t -> len t <= 2000)
    /\ (forall t, td_assistant_content d = Some t -> len t <= 2000)
    /\ (td_truncated d = true <->
        too_long (u_content_text row) \/ too_long (assistant_source row))
    /\ (td_truncated d = false ->
        td_user_content d = u_content_text row
        /\ td_assistant_content d = assistant_source row)
    /\ 7 < 20 /\ 8 = 7 + 1.
Proof.
  assert (Hturn : turn (Demo.demo_world []) (Demo.turn_args 2) 7
                  = Ok (Success (TurnData (hydrate Demo.row_2)), 8))
    by reflexivity.
  destruct (hydrated_content_is_bounded _ _ _ _ _ Hturn)
    as (u & row & Hrest).
  exists (hydrate Demo.row_2), u, row. split; [exact Hturn | exact Hrest].
Defined.

End EvidenceFacts.

(** ** Invariants of an orchestration run *)

Module RunFacts.
Import Retrieval Agent Agent.RetrievalTools Agent.LLMOrchestrator.
Import OrchestratorFacts PyStrFacts.

(** [call.get("function", {}).get("name")] *)
Definition call_name (call : tool_call) : option pystr :=
  match call_function call with
  | Some f => fn_name f
  | None => None
  end.

(** The tool message appended for a call and its logged run. *)
Definition tool_entry (w : world) (call : tool_call) (tr : ToolRun)
    : chat_entry :=
  ToolEntry (call_id call) (call_name call) (json_dumps w (tr_response tr)).

(** The histograms of the successful [retrieval_peek] runs of a log. *)
Definition peek_histograms (runs : list ToolRun) : list Histogram :=
  omap (fun tr =>
          if bool_decide (tr_tool tr = lit "retrieval_peek") then
            match tr_response tr with
            | Success (PeekData pd) => Some (pd_histogram pd)
            | _ => None
            end
          else None) runs.

(** The histogram of the last successful peek, if there was one. *)
Definition last_peek_histogram (runs : list ToolRun) : option Histogram :=
  last (peek_histograms runs).

Lemma or_str_unknown_turn x :
  or_str x "unknown" = lit "retrieval_turn" -> x = Some (lit "retrieval_turn").
Proof.
  destruct x as [[| c t] |]; cbn [or_str]; [discriminate | | discriminate].
  intros ->. reflexivity.
Qed.

Lemma or_str_unknown_peek x :
  or_str x "unknown" = lit "retrieval_peek" -> x = Some (lit "retrieval_peek").
Proof.
  destruct x as [[| c t] |]; cbn [or_str]; [discriminate | | discriminate].
  intros ->. reflexivity.
Qed.

Lemma peek_response_kind w arguments r :
  peek w arguments = Ok r ->
  match r with Success (TurnData _) => False | _ => True end.
Proof.
  unfold peek. destruct arguments; try discriminate.
  destruct (truthy _); [| intros H; injection H as <-; exact I].
  destruct (parse_probe w items) as [p | e];
    [| intros H; injection H as <-; exact I].
  destruct (peek_search w _ p) as [rows | e]; cbn [bind]; [| discriminate].
  unfold peek_build.
  destruct (scan_rows _ _ _ _ _ _) as [[b pv] | e]; cbn [bind];
    [| discriminate].
  intros H. injection H as <-. exact I.
Qed.

Lemma turn_counts w arguments h r h' :
  turn w arguments h = Ok (r, h') ->
  match r with
  | Failure _ => h' = h
  | Success (TurnData _) => h' = h + 1 /\ h < MAX_HYDRATE_TURNS
  | Success (PeekData _) => False
  end.
Proof.
  unfold turn. destruct (Z.geb_spec h MAX_HYDRATE_TURNS) as [Hge | Hlt].
  { intros Hr. injection Hr as <- <-. reflexivity. }
  destruct arguments; try discriminate.
  destruct (UUID w _) as [u |];
    [| intros Hr; injection Hr as <- <-; reflexivity].
  destruct (select_turn w u) as [[row |] |]; [| | discriminate];
    intros Hr; injection Hr as <- <-; auto.
Qed.

(** What a logged run contributes to the citations and to the peek
    histograms, by the name it was dispatched under. *)
Lemma hydrated_ids_single tr :
  hydrated_ids [tr]
  = if bool_decide (tr_tool tr = lit "retrieval_turn") then
      match tr_response tr with
      | Success (TurnData td) => [td_turn_id td]
      | _ => []
      end
    else [].
Proof. rewrite hydrated_ids_cons. reflexivity. Qed.

Lemma peek_histograms_single tr :
  peek_histograms [tr]
  = if bool_decide (tr_tool tr = lit "retrieval_peek") then
      match tr_response tr with
      | Success (PeekData pd) => [pd_histogram pd]
      | _ => []
      end
    else [].
Proof.
  unfold peek_histograms. cbn [omap list_omap].
  case_bool_decide; [| reflexivity].
  destruct (tr_response tr) as [e | [pd | td]]; reflexivity.
Qed.

Lemma hydrated_ids_app l1 l2 :
  hydrated_ids (l1 ++ l2) = hydrated_ids l1 ++ hydrated_ids l2.
Proof. apply omap_app. Qed.

Lemma peek_histograms_app l1 l2 :
  peek_histograms (l1 ++ l2) = peek_histograms l1 ++ peek_histograms l2.
Proof. apply omap_app. Qed.

Section WithWorld.
Variable w : world.

(** Everything one iteration of the call loop does to the locals. *)
Lemma handle_call_effect call st st' :
  handle_call w call st = Ok st' ->
  exists tr,
    ls_tool_runs st' = ls_tool_runs st ++ [tr]
    /\ tr_tool tr = or_str (call_name call) "unknown"
    /\ ls_messages st' = ls_messages st ++ [tool_entry w call tr]
    /\ ls_hydrated st'
       = ls_hydrated st + Z.of_nat (length (hydrated_ids [tr]))
    /\ ls_hydrated st' <= Z.max (ls_hydrated st) MAX_HYDRATE_TURNS
    /\ ls_histogram st'
       = match last (peek_histograms [tr]) with
         | Some h => Some h
         | None => ls_histogram st
         end.
Proof.
  unfold handle_call. fold (call_name call).
  destruct (json_loads w _) as [parsed |]; cbn [bind].
  - destruct (_dispatch w (call_name call) parsed (ls_hydrated st))
      as [[response hydrated] | e] eqn:Hd; cbn [bind]; [| discriminate].
    intros H. injection H as <-. eexists.
    split; [reflexivity |]. split; [reflexivity |]. split; [reflexivity |].
    rewrite hydrated_ids_single, peek_histograms_single.
    cbn [tr_tool tr_response ls_hydrated ls_histogram].
    revert Hd. unfold _dispatch, is_name.
    case_bool_decide as Hpeek.
    + (* dispatched to peek *)
      rewrite Hpeek. cbn [or_str lit].
      destruct (peek w parsed) as [r |] eqn:Hr; cbn [bind]; [| discriminate].
      intros H. injection H as <- <-.
      pose proof (peek_response_kind w parsed r Hr) as Hk.
      rewrite bool_decide_eq_false_2 by discriminate.
      rewrite bool_decide_eq_true_2 by reflexivity.
      destruct r as [e | [pd | td]]; [| | destruct Hk]; cbn;
        (split; [lia |]); (split; [lia |]); reflexivity.
    + case_bool_decide as Hturn.
      * (* dispatched to turn *)
        rewrite Hturn. cbn [or_str lit]. intros H.
        pose proof (turn_counts w parsed (ls_hydrated st) response hydrated H)
          as Hk.
        rewrite bool_decide_eq_true_2 by reflexivity.
        rewrite bool_decide_eq_false_2 by discriminate.
        destruct response as [e | [pd | td]]; [| destruct Hk |]; cbn.
        -- subst hydrated. split; [lia |]. split; [lia | reflexivity].
        -- destruct Hk as [-> Hlt]. split; [lia |].
           split; [lia | reflexivity].
      * (* unknown tool *)
        intros H. injection H as <- <-.
        rewrite bool_decide_eq_false_2
          by (intros Hn; apply or_str_unknown_turn in Hn; congruence).
        cbn. split; [lia |]. split; [lia |].
        case_bool_decide; reflexivity.
  - destruct (ls_parsed_args st); [| discriminate].
    intros H. injection H as <-. eexists.
    split; [reflexivity |]. split; [reflexivity |]. split; [reflexivity |].
    rewrite hydrated_ids_single, peek_histograms_single.
    cbn [tr_tool tr_response ls_hydrated ls_histogram].
    split; [case_bool_decide; cbn; lia |]. split; [lia |].
    case_bool_decide; reflexivity.
Qed.

(** The locals agree with the log: the hydrate counter of a tools object
    that started at [h0] counts the successful hydrations logged, never
    passes the cap unless it started above it, and the remembered
    histogram is that of the last successful peek logged. *)
Definition consistent (h0 : Z) (st : locals) : Prop :=
  ls_hydrated st = h0 + Z.of_nat (length (hydrated_ids (ls_tool_runs st)))
  /\ ls_hydrated st <= Z.max h0 MAX_HYDRATE_TURNS
  /\ ls_histogram st = last_peek_histogram (ls_tool_runs st).

(** The calls of one completion were served from [st] to [st']: one run
    logged and one tool message appended per call, in call order. *)
Definition served (calls : list tool_call) (st st' : locals) : Prop :=
  exists new,
    ls_tool_runs st' = ls_tool_runs st ++ new
    /\ Forall2 (fun call tr =>
                  tr_tool tr = or_str (call_name call) "unknown")
               calls new
    /\ ls_messages st' = ls_messages st ++ zip_with (tool_entry w) calls new.

Lemma handle_call_consistent h0 call st st' :
  handle_call w call st = Ok st' -> consistent h0 st -> consistent h0 st'.
Proof.
  intros H (Hc & Hcap & Hh).
  destruct (handle_call_effect call st st' H)
    as (tr & Hlog & _ & _ & Hcount & Hmax & Hhist).
  unfold consistent, last_peek_histogram.
  rewrite Hlog, hydrated_ids_app, peek_histograms_app, length_app, last_app.
  split; [lia |]. split; [lia |].
  rewrite Hhist, Hh. reflexivity.
Qed.

Lemma handle_calls_consistent h0 calls st st' :
  handle_calls w calls st = Ok st' -> consistent h0 st -> consistent h0 st'.
Proof.
  revert st. induction calls as [| call rest IH]; intros st; cbn.
  - intros H. injection H as <-. auto.
  - destruct (handle_call w call st) as [st1 | e] eqn:H1; cbn;
      [| discriminate].
    intros H Hst. eapply IH; [exact H |].
    eapply handle_call_consistent; eauto.
Qed.

Lemma handle_calls_served calls st st' :
  handle_calls w calls st = Ok st' -> served calls st st'.
Proof.
  revert st. induction calls as [| call rest IH]; intros st; cbn.
  - intros H. injection H as <-. exists [].
    rewrite !app_nil_r. split; [reflexivity |].
    split; [constructor | reflexivity].
  - destruct (handle_call w call st) as [st1 | e] eqn:H1; cbn;
      [| discriminate].
    intros H.
    destruct (handle_call_effect call st st1 H1)
      as (tr & Hlog & Hname & Hmsg & _).
    destruct (IH st1 H) as (new & Hlog' & Hnames & Hmsgs).
    exists (tr :: new). rewrite Hlog', Hlog, Hmsgs, Hmsg, <- !app_assoc.
    split; [reflexivity |]. split; [constructor; assumption | reflexivity].
Qed.

(** The two ways a round ends without raising. *)
Lemma round_cases intent0 round_idx st o :
  round w intent0 round_idx st = Ok o ->
  exists payload,
    chat_completions w (ls_messages st) = Some payload
    /\ match o with
       | NextRound st' =>
           handle_calls w
             (default [] (msg_tool_calls (_extract_message payload)))
             (with_message st (assistant_entry (_extract_message payload)))
           = Ok st'
       | Return r =>
           default [] (msg_tool_calls (_extract_message payload)) = []
           /\ intent r = intent0
           /\ final_answer r
              = Some (strip (default []
                               (msg_content (_extract_message payload))))
           /\ strip (default [] (msg_content (_extract_message payload)))
              <> []
           /\ status r = completed
           /\ rounds r = round_idx
           /\ tool_runs r = ls_tool_runs st
           /\ histogram r = ls_histogram st
       end.
Proof.
  unfold round, _complete.
  destruct (chat_completions w (ls_messages st)) as [payload |];
    cbn [bind]; [| discriminate].
  intros H. exists payload. split; [reflexivity |]. revert H.
  fold (assistant_entry (_extract_message payload)).
  destruct (default [] (msg_tool_calls (_extract_message payload)))
    as [| call calls].
  - destruct (strip (default [] (msg_content (_extract_message payload))))
      as [| c t] eqn:Htext; cbn [truthy].
    + intros H. injection H as <-. reflexivity.
    + destruct (collect_cited _) as [cited | e]; cbn [bind];
        [| discriminate].
      intros H. injection H as <-. cbn. repeat split; discriminate.
  - destruct (handle_calls w (call :: calls) _) as [st' | e];
      cbn [bind]; [| discriminate].
    intros H. injection H as <-. reflexivity.
Qed.

Lemma rounds_from_consistent h0 intent0 idxs st r :
  rounds_from w intent0 idxs st = Ok r ->
  consistent h0 st ->
  exists st',
    consistent h0 st'
    /\ tool_runs r = ls_tool_runs st'
    /\ histogram r = ls_histogram st'
    /\ intent r = intent0
    /\ match final_answer r with
       | Some a => a <> [] /\ strip a = a
       | None => True
       end.
Proof.
  revert st. induction idxs as [| i rest IH]; intros st; cbn [rounds_from].
  - intros H Hst. injection H as <-. exists st. cbn. auto.
  - destruct (round w intent0 i st) as [o | e] eqn:Hround; cbn [bind];
      [| discriminate].
    destruct (round_cases intent0 i st o Hround) as (payload & _ & Ho).
    destruct o as [st' | r'].
    + intros H Hst. apply (IH st' H).
      eapply handle_calls_consistent; [exact Ho | exact Hst].
    + intros H Hst. injection H as <-.
      destruct Ho as (_ & Hi & Ha & Hne & _ & _ & Hruns & Hh).
      exists st. rewrite Ha.
      split; [exact Hst |]. split; [exact Hruns |]. split; [exact Hh |].
      split; [exact Hi |]. split; [exact Hne | apply strip_idempotent].
Qed.

Lemma initial_consistent h0 intent0 : consistent h0 (initial w intent0 h0).
Proof. unfold consistent. cbn. split; [lia |]. split; [lia | reflexivity]. Qed.

(** X7. A result returned by [LLMOrchestrator.run] echoes the intent it
    was given, reports between 1 and 8 rounds, and carries a final answer
    exactly when its status is [completed]; that answer is never empty
    and has no whitespace at either end. *)
Theorem run_result_shape h0 intent0 r :
  run w h0 intent0 = Ok r ->
  intent r = intent0
  /\ 1 <= rounds r <= MAX_ROUNDS
  /\ (status r = completed <-> final_answer r <> None)
  /\ (forall a, final_answer r = Some a -> a <> [] /\ strip a = a).
Proof.
  unfold run. intros H.
  destruct (rounds_from_consistent h0 _ _ _ _ H (initial_consistent h0 intent0))
    as (st' & _ & _ & _ & Hi & Ha).
  split; [exact Hi |].
  pose proof (rounds_from_outcomes w intent0 _ _ _ H
                (initial_log_ok w intent0 h0)) as Ho.
  rewrite range_rounds in Ho.
  destruct Ho as [(Hs & Hin & (c & t & Hf) & _) | (Hs & Hr & Hf & _)].
  - split.
    { unfold MAX_ROUNDS. cbn in Hin.
      repeat (destruct Hin as [Hin | Hin]; [lia |]). destruct Hin. }
    split.
    { rewrite Hs, Hf. split; [discriminate | reflexivity]. }
    intros a Hfa. rewrite Hfa in Ha. exact Ha.
  - split; [rewrite Hr; unfold MAX_ROUNDS; lia |].
    split.
    { rewrite Hs, Hf. split; [discriminate | intros Hn; destruct Hn; reflexivity]. }
    intros a Hfa. rewrite Hfa in Hf. discriminate Hf.
Qed.

(** X8. Whatever the model asks for, a run hydrates at most as many
    turns as the tools object has left under the cap of 20: the log of a
    result holds at most [20 - h0] successful [retrieval_turn] runs when
    the counter started at [h0] (none when it started at or above the
    cap), and the result cites no more turns than that. *)
Theorem run_hydration_budget h0 intent0 r :
  run w h0 intent0 = Ok r ->
  Z.of_nat (length (hydrated_ids (tool_runs r)))
  <= Z.max 0 (MAX_HYDRATE_TURNS - h0)
  /\ (length (cited_turn_ids r) <= length (hydrated_ids (tool_runs r)))%nat.
Proof.
  unfold run. intros H.
  destruct (rounds_from_consistent h0 _ _ _ _ H (initial_consistent h0 intent0))
    as (st' & (Hc & Hcap & _) & Hruns & _).
  split; [rewrite Hruns; lia |].
  destruct (rounds_from_outcomes w intent0 _ _ _ H
              (initial_log_ok w intent0 h0))
    as [(_ & _ & _ & ->) | (_ & _ & _ & ->)]; cbn; lia.
Qed.

(** X9. A round that goes on to the next one appends to the history the
    assistant message of the completion followed by one tool message per
    tool call, in call order, each carrying the call's id and name and
    the JSON of the response logged for it; the log grows by exactly one
    run per call, named after the call (or "unknown"). *)
Theorem round_extends_history intent0 round_idx st st' :
  round w intent0 round_idx st = Ok (NextRound st') ->
  exists payload new,
    chat_completions w (ls_messages st) = Some payload
    /\ ls_tool_runs st' = ls_tool_runs st ++ new
    /\ Forall2 (fun call tr =>
                  tr_tool tr = or_str (call_name call) "unknown")
               (default [] (msg_tool_calls (_extract_message payload))) new
    /\ ls_messages st'
       = ls_messages st
         ++ assistant_entry (_extract_message payload)
            :: zip_with (tool_entry w)
                 (default [] (msg_tool_calls (_extract_message payload)))
                 new.
Proof.
  intros H. destruct (round_cases _ _ _ _ H) as (payload & Hp & Hcalls).
  destruct (handle_calls_served _ _ _ Hcalls) as (new & Hlog & Hnames & Hmsgs).
  exists payload, new. split; [exact Hp |]. split; [exact Hlog |].
  split; [exact Hnames |].
  rewrite Hmsgs. cbn [with_message ls_messages].
  rewrite <- app_assoc. reflexivity.
Qed.

(** X10. The histogram of a result is the histogram of the last
    successful [retrieval_peek] run of its log; a result whose log holds
    no successful peek has none. *)
Theorem result_histogram_is_last_peek h0 intent0 r :
  run w h0 intent0 = Ok r ->
  histogram r = last_peek_histogram (tool_runs r).
Proof.
  unfold run. intros H.
  destruct (rounds_from_consistent h0 _ _ _ _ H (initial_consistent h0 intent0))
    as (st' & (_ & _ & Hh) & Hruns & Hhist & _).
  rewrite Hhist, Hruns. exact Hh.
Qed.

End WithWorld.

End RunFacts.

Module RunExamples.
Import Retrieval Agent Agent.RetrievalTools Agent.LLMOrchestrator.
Import OrchestratorFacts RunFacts Demo OrchestratorExamples.

(** A peek, then a round hydrating a known turn, an unknown turn and
    calling a tool that does not exist, then the answer. *)
Definition research_script : list message :=
  [ asks [call "call_p" "retrieval_peek" (peek_args_text "kickoff")];
    asks [call "call_a" "retrieval_turn" (turn_args_text 1);
          call "call_b" "retrieval_turn" (turn_args_text 9);
          call "call_c" "retrieval_grep" (lit "{}")];
    says "  The kickoff was planned on 1 January [1].  " ].

Definition research_result : OrchestratorResult :=
  Eval vm_compute in
    match run (demo_world research_script) 0 question with
    | Ok r => r
    | Raise _ => exhausted question (initial (demo_world []) question 0)
    end.

Lemma research_run :
  run (demo_world research_script) 0 question = Ok research_result.
Proof. vm_compute. reflexivity. Qed.

Lemma run_result_shape_witness :
  run (demo_world research_script) 0 question = Ok research_result
  /\ intent research_result = question
  /\ 1 <= rounds research_result <= MAX_ROUNDS
  /\ (status research_result = completed
      <-> final_answer research_result <> None)
  /\ (forall a, final_answer research_result = Some a ->
                a <> [] /\ strip a = a).
Proof.
  split; [exact research_run |].
  apply (run_result_shape (demo_world research_script) 0 question).
  exact research_run.
Defined.

Example research_answer :
  final_answer research_result
  = Some (lit "The kickoff was planned on 1 January [1].")
  /\ rounds research_result = 3
  /\ map tr_tool (tool_runs research_result)
     = [lit "retrieval_peek"; lit "retrieval_turn"; lit "retrieval_turn";
        lit "retrieval_grep"]
  /\ cited_turn_ids research_result = [1%N].
Proof. repeat split. Qed.

(** One hydration left under the cap: the second call of the round is
    refused. *)
Definition last_slot_result : OrchestratorResult :=
  Eval vm_compute in
    match run (demo_world twice_script) 19 question with
    | Ok r => r
    | Raise _ => exhausted question (initial (demo_world []) question 0)
    end.

Lemma last_slot_run :
  run (demo_world twice_script) 19 question = Ok last_slot_result.
Proof. vm_compute. reflexivity. Qed.

Lemma run_hydration_budget_witness :
  run (demo_world twice_script) 19 question = Ok last_slot_result
  /\ Z.of_nat (length (hydrated_ids (tool_runs last_slot_result)))
     <= Z.max 0 (MAX_HYDRATE_TURNS - 19)
  /\ (length (cited_turn_ids last_slot_result)
      <= length (hydrated_ids (tool_runs last_slot_result)))%nat.
Proof.
  split; [exact last_slot_run |].
  apply (run_hydration_budget (demo_world twice_script) 19 question).
  exact last_slot_run.
Defined.

Example last_slot_responses :
  map tr_response (tool_runs last_slot_result)
  = [TurnFacts.hydrated_response row_1; Failure HydrationCapReached]
  /\ cited_turn_ids last_slot_result = [1%N].
Proof. split; reflexivity. Qed.

(** The second round of the research script, from the state the first
    round left. *)
Definition after_peek : locals :=
  Eval vm_compute in
    default (initial (demo_world research_script) question 0)
      (advance (demo_world research_script) 1
         (initial (demo_world research_script) question 0)).

Definition after_hydration : locals :=
  Eval vm_compute in
    default (initial (demo_world research_script) question 0)
      (advance (demo_world research_script) 2
         (initial (demo_world research_script) question 0)).

Lemma second_round :
  round (demo_world research_script) question 2 after_peek
  = Ok (NextRound after_hydration).
Proof. vm_compute. reflexivity. Qed.

Lemma round_extends_history_witness :
  round (demo_world research_script) question 2 after_peek
  = Ok (NextRound after_hydration)
  /\ exists payload new,
       chat_completions (demo_world research_script) (ls_messages after_peek)
       = Some payload
       /\ ls_tool_runs after_hydration = ls_tool_runs after_peek ++ new
       /\ Forall2 (fun call tr =>
                     tr_tool tr = or_str (call_name call) "unknown")
                  (default [] (msg_tool_calls (_extract_message payload)))
                  new
       /\ ls_messages after_hydration
          = ls_messages after_peek
            ++ assistant_entry (_extract_message payload)
               :: zip_with (tool_entry (demo_world research_script))
                    (default []
                       (msg_tool_calls (_extract_message payload)))
                    new.
Proof.
  split; [exact second_round |].
  apply (round_extends_history (demo_world research_script) question 2
           after_peek after_hydration).
  exact second_round.
Defined.

Example second_round_sizes :
  length (ls_tool_runs after_peek) = 1%nat
  /\ length (ls_tool_runs after_hydration) = 4%nat
  /\ length (ls_messages after_peek) = 4%nat
  /\ length (ls_messages after_hydration) = 8%nat.
Proof. repeat split. Qed.

Lemma result_histogram_is_last_peek_witness :
  run (demo_world research_script) 0 question = Ok research_result
  /\ histogram research_result
     = last_peek_histogram (tool_runs research_result).
Proof.
  split; [exact research_run |].
  apply (result_histogram_is_last_peek (demo_world research_script) 0
           question).
  exact research_run.
Defined.

Example research_histogram :
  option_map h_total (histogram research_result) = Some 4.
Proof. reflexivity. Qed.

End RunExamples.

(** ** Turns in the session store *)

Module StoreFacts.
Import Retrieval Sessions SessionsFacts.

(** The session row with its conversation recorded. *)
Definition with_conversation (row : session_row) (cid : uuid)
    : session_row :=
  {| s_title := s_title row; s_pinned := s_pinned row;
     s_archived := s_archived row; s_conversation := Some cid |}.

(** The conversation [_conversation_id_for_session] settles on. *)
Definition chosen_conversation (d : db) (session_id : uuid)
    (metadata : option uuid) : uuid :=
  match metadata with
  | Some from_meta => from_meta
  | None => default (next_uuid d) (first_linked_conversation d session_id)
  end.

Lemma fold_max_bounds (i : Z) (r : list Z) :
  i <= fold_right Z.max i r /\ Forall (fun x => x <= fold_right Z.max i r) r.
Proof.
  induction r as [| x r [IH1 IH2]]; cbn [fold_right].
  - split; [lia | constructor].
  - split; [lia |]. constructor; [lia |].
    eapply Forall_impl; [exact IH2 |]. cbn. intros. lia.
Qed.

(** [COALESCE(MAX(idx) + 1, 0)] lies above every index present. *)
Lemma next_after_above (idxs : list Z) :
  Forall (fun i => i < next_after idxs) idxs.
Proof.
  destruct idxs as [| i r]; [constructor |]. cbn [next_after].
  destruct (fold_max_bounds i r) as [H1 H2].
  constructor; [lia |]. eapply Forall_impl; [exact H2 |]. cbn. intros. lia.
Qed.

Lemma fold_max_least (i b : Z) (r : list Z) :
  i <= b -> Forall (fun x => x <= b) r -> fold_right Z.max i r <= b.
Proof. induction 2; cbn [fold_right]; lia. Qed.

Lemma fold_max_reached (i b : Z) (r : list Z) :
  In b (i :: r) -> b <= fold_right Z.max i r.
Proof.
  destruct (fold_max_bounds i r) as [H1 H2]. intros [<- | Hin]; [exact H1 |].
  rewrite Forall_forall in H2. apply H2. apply list_elem_of_In. exact Hin.
Qed.

(** Two indices appended at the end move the next index by two. *)
Lemma next_after_two (idxs : list Z) :
  next_after (idxs ++ [next_after idxs; next_after idxs + 1])
  = next_after idxs + 2.
Proof.
  pose proof (next_after_above idxs) as Habove.
  destruct idxs as [| i r]; [reflexivity |].
  set (b := next_after (i :: r)) in *.
  change ((i :: r) ++ [b; b + 1]) with (i :: (r ++ [b; b + 1])).
  cbn [next_after].
  assert (fold_right Z.max i (r ++ [b; b + 1]) = b + 1) as ->; [| lia].
  apply Z.le_antisymm.
  - inversion Habove as [| ? ? Hi Hr]; subst.
    apply fold_max_least; [lia |].
    apply Forall_app. split.
    + eapply Forall_impl; [exact Hr |]. cbn. intros. lia.
    + repeat constructor; lia.
  - apply fold_max_reached. right. apply in_or_app. right. cbn. auto.
Qed.

Lemma conversation_for_session_effect d sid row :
  sessions d !! sid = Some row ->
  let cd := _conversation_id_for_session d sid (s_conversation row) in
  cd.1 = chosen_conversation d sid (s_conversation row)
  /\ messages cd.2 = messages d
  /\ session_messages cd.2 = session_messages d
  /\ conversations cd.2 = {[cd.1]} ∪ conversations d
  /\ sessions cd.2 !! sid = Some (with_conversation row cd.1)
  /\ (forall sid', sid' <> sid -> sessions cd.2 !! sid' = sessions d !! sid')
  /\ (next_uuid d <= next_uuid cd.2 <= N.succ (next_uuid d))%N.
Proof.
  intros Hrow. unfold _conversation_id_for_session, chosen_conversation.
  destruct row as [title pinned archived meta]. cbn [s_conversation].
  destruct meta as [cid |].
  - cbn. rewrite Hrow. repeat split; auto; lia.
  - destruct (first_linked_conversation d sid) as [cid |]; cbn.
    + rewrite lookup_alter_eq, Hrow. repeat split; auto; try lia.
      intros sid' Hne. apply lookup_alter_ne. congruence.
    + rewrite lookup_alter_eq, Hrow. repeat split; auto; try lia.
      intros sid' Hne. apply lookup_alter_ne. congruence.
Qed.

(** Everything a successful [append_turn] does to the store. *)
Lemma append_turn_effect d sid u a ids d' :
  append_turn d sid u a = Ok (ids, d') ->
  exists row,
    sessions d !! sid = Some row
    /\ s_archived row = false
    /\ t_session_id ids = sid
    /\ t_conversation_id ids
       = chosen_conversation d sid (s_conversation row)
    /\ t_assistant_message_id ids = N.succ (t_user_message_id ids)
    /\ (next_uuid d <= t_user_message_id ids)%N
    /\ next_uuid d' = N.succ (t_assistant_message_id ids)
    /\ conversations d' = {[t_conversation_id ids]} ∪ conversations d
    /\ sessions d' !! sid
       = Some (with_conversation row (t_conversation_id ids))
    /\ (forall sid', sid' <> sid -> sessions d' !! sid' = sessions d !! sid')
    /\ messages d'
       = messages d ++
         [ {| msg_id := t_user_message_id ids;
              msg_conversation_id := t_conversation_id ids;
              msg_role := lit "user";
              msg_idx_in_conv :=
                _next_idx_for_conversation d (t_conversation_id ids);
              msg_content_text := stored_content u |};
           {| msg_id := t_assistant_message_id ids;
              msg_conversation_id := t_conversation_id ids;
              msg_role := lit "assistant";
              msg_idx_in_conv :=
                _next_idx_for_conversation d (t_conversation_id ids) + 1;
              msg_content_text := stored_content a |} ]
    /\ session_messages d'
       = session_messages d ++
         [ {| sm_session_id := sid;
              sm_message_id := t_user_message_id ids;
              sm_idx := _next_idx_for_session d sid |};
           {| sm_session_id := sid;
              sm_message_id := t_assistant_message_id ids;
              sm_idx := _next_idx_for_session d sid + 1 |} ].
Proof.
  unfold append_turn, _fetch_session_row.
  destruct (sessions d !! sid) as [row |] eqn:Hrow; [| discriminate].
  cbn [bind]. destruct (s_archived row) eqn:Harch; [discriminate |].
  pose proof (conversation_for_session_effect d sid row Hrow) as Hcd.
  destruct (_conversation_id_for_session d sid (s_conversation row))
    as [cid d1].
  cbn [fst snd] in Hcd.
  destruct Hcd as (Hcid & Hm & Hsm & Hconv & Hsid & Hother & Hnext).
  unfold _next_idx_for_conversation, _next_idx_for_session.
  cbn. rewrite Hm, Hsm. intros H. injection H as <- <-. cbn.
  exists row. rewrite <- !app_assoc. cbn [app].
  repeat split; auto; lia.
Qed.

Lemma next_idx_for_session_above d sid sm :
  sm ∈ session_messages d -> sm_session_id sm = sid ->
  sm_idx sm < _next_idx_for_session d sid.
Proof.
  intros Hin Hsid. unfold _next_idx_for_session.
  pose proof (next_after_above
                (map sm_idx
                   (filter (fun sm => sm_session_id sm = sid)
                           (session_messages d)))) as Habove.
  rewrite Forall_forall in Habove. apply Habove.
  apply list_elem_of_fmap. exists sm. split; [reflexivity |].
  apply list_elem_of_filter. auto.
Qed.

Lemma next_idx_for_conversation_above d cid m :
  m ∈ messages d -> msg_conversation_id m = cid ->
  msg_idx_in_conv m < _next_idx_for_conversation d cid.
Proof.
  intros Hin Hcid. unfold _next_idx_for_conversation.
  pose proof (next_after_above
                (map msg_idx_in_conv
                   (filter (fun m => msg_conversation_id m = cid)
                           (messages d)))) as Habove.
  rewrite Forall_forall in Habove. apply Habove.
  apply list_elem_of_fmap. exists m. split; [reflexivity |].
  apply list_elem_of_filter. auto.
Qed.

(** X11. A successful [append_turn] appends exactly two message rows and
    two session links: a user row and an assistant row of one
    conversation, with distinct fresh ids, linked to the session in that
    order; the assistant's index follows the user's, in the conversation
    and in the session, and the user's index lies strictly above every
    index the conversation, respectively the session, already held. *)
Theorem append_turn_positions d sid u a ids d' :
  append_turn d sid u a = Ok (ids, d') ->
  exists um am ul al,
    messages d' = messages d ++ [um; am]
    /\ session_messages d' = session_messages d ++ [ul; al]
    /\ msg_role um = lit "user" /\ msg_role am = lit "assistant"
    /\ msg_conversation_id um = t_conversation_id ids
    /\ msg_conversation_id am = t_conversation_id ids
    /\ sm_session_id ul = sid /\ sm_session_id al = sid
    /\ sm_message_id ul = msg_id um /\ sm_message_id al = msg_id am
    /\ msg_id um <> msg_id am
    /\ (next_uuid d <= msg_id um)%N
    /\ msg_idx_in_conv am = msg_idx_in_conv um + 1
    /\ sm_idx al = sm_idx ul + 1
    /\ (forall m, m ∈ messages d ->
                  msg_conversation_id m = t_conversation_id ids ->
                  msg_idx_in_conv m < msg_idx_in_conv um)
    /\ (forall sm, sm ∈ session_messages d -> sm_session_id sm = sid ->
                   sm_idx sm < sm_idx ul).
Proof.
  intros H.
  destruct (append_turn_effect d sid u a ids d' H)
    as (row & _ & _ & _ & _ & Hids & Hfresh & _ & _ & _ & _ & Hm & Hsm).
  eexists _, _, _, _. split; [exact Hm |]. split; [exact Hsm |]. cbn.
  repeat split; try reflexivity.
  - rewrite Hids. lia.
  - exact Hfresh.
  - intros m. apply next_idx_for_conversation_above.
  - intros sm. apply next_idx_for_session_above.
Qed.

Lemma filter_two {A} (P : A -> Prop) `{forall x, Decision (P x)}
    (l : list A) (x y : A) :
  P x -> P y -> filter P (l ++ [x; y]) = filter P l ++ [x; y].
Proof.
  intros Hx Hy. rewrite filter_app. f_equal.
  rewrite filter_cons_True by exact Hx.
  rewrite filter_cons_True by exact Hy. reflexivity.
Qed.

Lemma filter_two_out {A} (P : A -> Prop) `{forall x, Decision (P x)}
    (l : list A) (x y : A) :
  ~ P x -> ~ P y -> filter P (l ++ [x; y]) = filter P l.
Proof.
  intros Hx Hy. rewrite filter_app.
  rewrite filter_cons_False by exact Hx.
  rewrite filter_cons_False by exact Hy. apply app_nil_r.
Qed.

(** X12. After a successful [append_turn] the session accepts another
    turn, which lands in the same conversation under fresh message ids,
    and both next indices have advanced by exactly two. *)
Theorem successive_turns_continue d sid u a ids d' u2 a2 :
  append_turn d sid u a = Ok (ids, d') ->
  _next_idx_for_session d' sid = _next_idx_for_session d sid + 2
  /\ _next_idx_for_conversation d' (t_conversation_id ids)
     = _next_idx_for_conversation d (t_conversation_id ids) + 2
  /\ exists ids2 d'',
       append_turn d' sid u2 a2 = Ok (ids2, d'')
       /\ t_conversation_id ids2 = t_conversation_id ids
       /\ t_user_message_id ids2 = N.succ (t_assistant_message_id ids).
Proof.
  intros H.
  destruct (append_turn_effect d sid u a ids d' H)
    as (row & Hrow & Harch & _ & _ & _ & _ & Hnext & _ & Hsid & _ & Hm & Hsm).
  split.
  { unfold _next_idx_for_session at 1. rewrite Hsm.
    rewrite filter_two by reflexivity. rewrite map_app. cbn [map sm_idx].
    apply next_after_two. }
  split.
  { unfold _next_idx_for_conversation at 1. rewrite Hm.
    rewrite filter_two by reflexivity. rewrite map_app.
    cbn [map msg_idx_in_conv]. apply next_after_two. }
  destruct (PersistenceFacts.append_turn_open d' sid u2 a2 _ Hsid Harch)
    as (ids2 & d'' & H2 & _).
  exists ids2, d''. split; [exact H2 |].
  revert H2. unfold append_turn, _fetch_session_row. rewrite Hsid.
  cbn [bind with_conversation s_archived s_conversation].
  rewrite Harch. cbn. rewrite Hnext.
  intros H2. injection H2 as <- _. split; reflexivity.
Qed.

(** X13. [append_turn] only adds: the rows and links the store held are
    still there, in place; every other session keeps its row, its links
    and its next index; the session written to keeps its title and its
    flags, and has its conversation recorded. *)
Theorem append_turn_frame d sid u a ids d' :
  append_turn d sid u a = Ok (ids, d') ->
  messages d `prefix_of` messages d'
  /\ session_messages d `prefix_of` session_messages d'
  /\ conversations d ⊆ conversations d'
  /\ (forall sid', sid' <> sid ->
        sessions d' !! sid' = sessions d !! sid'
        /\ filter (fun sm => sm_session_id sm = sid') (session_messages d')
           = filter (fun sm => sm_session_id sm = sid') (session_messages d)
        /\ _next_idx_for_session d' sid' = _next_idx_for_session d sid')
  /\ exists row,
       sessions d !! sid = Some row
       /\ sessions d' !! sid
          = Some {| s_title := s_title row; s_pinned := s_pinned row;
                    s_archived := false;
                    s_conversation := Some (t_conversation_id ids) |}.
Proof.
  intros H.
  destruct (append_turn_effect d sid u a ids d' H)
    as (row & Hrow & Harch & _ & _ & _ & _ & _ & Hconv & Hsid & Hother
        & Hm & Hsm).
  split; [rewrite Hm; apply prefix_app_r; reflexivity |].
  split; [rewrite Hsm; apply prefix_app_r; reflexivity |].
  split; [rewrite Hconv; apply union_subseteq_r |].
  split.
  - intros sid' Hne.
    assert (Hf : filter (fun sm => sm_session_id sm = sid')
                        (session_messages d')
                 = filter (fun sm => sm_session_id sm = sid')
                          (session_messages d)).
    { rewrite Hsm. apply filter_two_out; cbn; congruence. }
    split; [apply Hother; exact Hne |]. split; [exact Hf |].
    unfold _next_idx_for_session. rewrite Hf. reflexivity.
  - exists row. split; [exact Hrow |]. rewrite Hsid.
    unfold with_conversation. rewrite Harch. reflexivity.
Qed.

(** X14. A session made by [create_session] is open, records its own
    fresh conversation, and accepts a turn at once: [append_turn] on it
    succeeds whatever the texts and writes into that conversation.
    Creating it touches no message row and no link. *)
Theorem created_session_accepts_turn d title u a :
  let created := create_session d title in
  let session_id := created.1.1 in
  let conversation_id := created.1.2 in
  session_id <> conversation_id
  /\ conversation_id ∈ conversations created.2
  /\ sessions created.2 !! session_id
     = Some {| s_title := title; s_pinned := false; s_archived := false;
               s_conversation := Some conversation_id |}
  /\ messages created.2 = messages d
  /\ session_messages created.2 = session_messages d
  /\ exists ids d',
       append_turn created.2 session_id u a = Ok (ids, d')
       /\ t_session_id ids = session_id
       /\ t_conversation_id ids = conversation_id.
Proof.
  cbn. split; [lia |]. split; [set_solver |].
  rewrite lookup_insert_eq. split; [reflexivity |].
  split; [reflexivity |]. split; [reflexivity |].
  unfold append_turn, _fetch_session_row. cbn. rewrite lookup_insert_eq.
  cbn. eexists _, _. split; [reflexivity |]. split; reflexivity.
Qed.

End StoreFacts.

Module StoreExamples.
Import Retrieval Sessions SessionsFacts StoreFacts.

(** Two sessions: 2 (conversation 1) and 4 (conversation 3). *)
Definition two_session_db : db := (create_session one_session_db None).2.

(** The store after a first turn in session 2. *)
Definition after_first_turn : turn_ids * db :=
  Eval vm_compute in
    match append_turn two_session_db 2%N padded_text (lit "ok") with
    | Ok x => x
    | Raise _ =>
        ({| t_session_id := 0%N; t_conversation_id := 0%N;
            t_user_message_id := 0%N; t_assistant_message_id := 0%N |},
         two_session_db)
    end.

Lemma first_turn :
  append_turn two_session_db 2%N padded_text (lit "ok")
  = Ok (after_first_turn.1, after_first_turn.2).
Proof. vm_compute. reflexivity. Qed.

Lemma append_turn_positions_witness :
  append_turn two_session_db 2%N padded_text (lit "ok")
  = Ok (after_first_turn.1, after_first_turn.2)
  /\ exists um am ul al,
       messages after_first_turn.2 = messages two_session_db ++ [um; am]
       /\ session_messages after_first_turn.2
          = session_messages two_session_db ++ [ul; al]
       /\ msg_role um = lit "user" /\ msg_role am = lit "assistant"
       /\ msg_conversation_id um = t_conversation_id after_first_turn.1
       /\ msg_conversation_id am = t_conversation_id after_first_turn.1
       /\ sm_session_id ul = 2%N /\ sm_session_id al = 2%N
       /\ sm_message_id ul = msg_id um /\ sm_message_id al = msg_id am
       /\ msg_id um <> msg_id am
       /\ (next_uuid two_session_db <= msg_id um)%N
       /\ msg_idx_in_conv am = msg_idx_in_conv um + 1
       /\ sm_idx al = sm_idx ul + 1
       /\ (forall m, m ∈ messages two_session_db ->
                     msg_conversation_id m
                     = t_conversation_id after_first_turn.1 ->
                     msg_idx_in_conv m < msg_idx_in_conv um)
       /\ (forall sm, sm ∈ session_messages two_session_db ->
                      sm_session_id sm = 2%N -> sm_idx sm < sm_idx ul).
Proof.
  split; [exact first_turn |].
  apply (append_turn_positions two_session_db 2%N padded_text (lit "ok")).
  exact first_turn.
Defined.

Lemma successive_turns_continue_witness :
  append_turn two_session_db 2%N padded_text (lit "ok")
  = Ok (after_first_turn.1, after_first_turn.2)
  /\ _next_idx_for_session after_first_turn.2 2%N
     = _next_idx_for_session two_session_db 2%N + 2
  /\ _next_idx_for_conversation after_first_turn.2
       (t_conversation_id after_first_turn.1)
     = _next_idx_for_conversation two_session_db
         (t_conversation_id after_first_turn.1) + 2
  /\ exists ids2 d'',
       append_turn after_first_turn.2 2%N (lit "and then?") (lit "done")
       = Ok (ids2, d'')
       /\ t_conversation_id ids2 = t_conversation_id after_first_turn.1
       /\ t_user_message_id ids2
          = N.succ (t_assistant_message_id after_first_turn.1).
Proof.
  split; [exact first_turn |].
  apply (successive_turns_continue two_session_db 2%N padded_text (lit "ok")).
  exact first_turn.
Defined.

Lemma append_turn_frame_witness :
  append_turn two_session_db 2%N padded_text (lit "ok")
  = Ok (after_first_turn.1, after_first_turn.2)
  /\ messages two_session_db `prefix_of` messages after_first_turn.2
  /\ session_messages two_session_db
     `prefix_of` session_messages after_first_turn.2
  /\ conversations two_session_db ⊆ conversations after_first_turn.2
  /\ (forall sid', sid' <> 2%N ->
        sessions after_first_turn.2 !! sid' = sessions two_session_db !! sid'
        /\ filter (fun sm => sm_session_id sm = sid')
                  (session_messages after_first_turn.2)
           = filter (fun sm => sm_session_id sm = sid')
                    (session_messages two_session_db)
        /\ _next_idx_for_session after_first_turn.2 sid'
           = _next_idx_for_session two_session_db sid')
  /\ exists row,
       sessions two_session_db !! 2%N = Some row
       /\ sessions after_first_turn.2 !! 2%N
          = Some {| s_title := s_title row; s_pinned := s_pinned row;
                    s_archived := false;
                    s_conversation
                    := Some (t_conversation_id after_first_turn.1) |}.
Proof.
  split; [exact first_turn |].
  apply (append_turn_frame two_session_db 2%N padded_text (lit "ok")).
  exact first_turn.
Defined.

(** The first turn of session 2: rows 5 and 6 of conversation 1, at
    positions 0 and 1. *)
Example first_turn_rows :
  after_first_turn.1
  = {| t_session_id := 2%N; t_conversation_id := 1%N;
       t_user_message_id := 5%N; t_assistant_message_id := 6%N |}
  /\ map (fun m => (msg_id m, msg_idx_in_conv m, msg_content_text m))
         (messages after_first_turn.2)
     = [(5%N, 0, lit "which week did we start?"); (6%N, 1, lit "ok")]
  /\ map (fun sm => (sm_session_id sm, sm_idx sm))
         (session_messages after_first_turn.2)
     = [(2%N, 0); (2%N, 1)].
Proof. repeat split. Qed.

End StoreExamples.

(** ** The agent service: a run and its persisted turn *)

Module ServiceFacts.
Import Retrieval Sessions Agent.
Import OrchestratorFacts RunFacts PersistenceFacts StoreFacts PyStrFacts.
Import SessionsFacts.

(** The session a turn is written to, and the store it is written into:
    the caller's session, or one created for the turn. *)
Definition target_session (sv : service) (session_id : option uuid) : uuid :=
  match session_id with
  | Some sid => sid
  | None => (create_session (store sv) None).1.1
  end.

Definition target_store (sv : service) (session_id : option uuid) : db :=
  match session_id with
  | Some _ => store sv
  | None => (create_session (store sv) None).2
  end.

(** The persistence calls one [_persist_turn] makes. *)
Definition turn_calls (sv : service) (session_id : option uuid)
    (user_clean assistant_clean : pystr) : list persistence_call :=
  match session_id with Some _ => [] | None => [CreateSession] end
  ++ [AppendTurn (target_session sv session_id) user_clean assistant_clean].

Lemma append_turn_raises d sid u a e :
  append_turn d sid u a = Raise e ->
  (e = SessionNotFound /\ sessions d !! sid = None)
  \/ (e = ValueError
      /\ exists row, sessions d !! sid = Some row /\ s_archived row = true).
Proof.
  unfold append_turn, _fetch_session_row.
  destruct (sessions d !! sid) as [row |] eqn:Hrow; cbn [bind].
  - destruct (s_archived row) eqn:Harch.
    + intros H. injection H as <-. right. eauto.
    + destruct (_conversation_id_for_session d sid (s_conversation row)).
      cbn. discriminate.
  - intros H. injection H as <-. left. auto.
Qed.

Lemma fresh_session_accepts d u a :
  exists ids d',
    append_turn (create_session d None).2 (create_session d None).1.1 u a
    = Ok (ids, d').
Proof.
  unfold append_turn, _fetch_session_row. cbn. rewrite lookup_insert_eq.
  cbn. eexists _, _. reflexivity.
Qed.

(** [_persist_turn] in terms of the store operations it performs. *)
Lemma persist_turn_cases sv session_id u a :
  AgentService._persist_turn sv session_id u a
  = if truthy (strip u) then
      if truthy (strip a) then
        match append_turn (target_store sv session_id)
                (target_session sv session_id) (strip u) (strip a) with
        | Ok (result, d') =>
            (Ok result,
             {| store := d';
                persistence_log :=
                  persistence_log sv
                  ++ turn_calls sv session_id (strip u) (strip a) |})
        | Raise e =>
            (Raise match e with
                   | SessionNotFound => HTTPException 404
                   | ValueError => HTTPException 400
                   | _ => e
                   end,
             {| store := store sv;
                persistence_log :=
                  persistence_log sv
                  ++ turn_calls sv session_id (strip u) (strip a) |})
        end
      else (Raise (HTTPException 502), sv)
    else (Raise (HTTPException 400), sv).
Proof.
  unfold AgentService._persist_turn, turn_calls, target_session,
    target_store.
  destruct (truthy (strip u)); [| reflexivity].
  destruct (truthy (strip a)); [| reflexivity].
  destruct session_id as [sid |].
  - cbn [app]. reflexivity.
  - destruct (create_session (store sv) None) as [[sid cid] d1].
    cbn [fst snd]. rewrite <- app_assoc. reflexivity.
Qed.

Section WithWorld.
Variable w : world.

(** What the orchestrator's result looks like, by its answer. *)
Lemma run_summary intent0 r :
  LLMOrchestrator.run w 0 intent0 = Ok r ->
  histogram r = last_peek_histogram (tool_runs r)
  /\ match final_answer r with
     | Some answer =>
         status r = completed /\ answer <> [] /\ strip answer = answer
         /\ cited_turn_ids r = hydrated_ids (tool_runs r)
     | None => status r = max_rounds_exceeded /\ cited_turn_ids r = []
     end.
Proof.
  unfold LLMOrchestrator.run. intros H.
  destruct (rounds_from_consistent w 0 _ _ _ _ H
              (initial_consistent w 0 intent0))
    as (st' & (_ & _ & Hh) & Hruns & Hhist & _ & Ha).
  split; [rewrite Hhist, Hruns; exact Hh |].
  destruct (rounds_from_outcomes w intent0 _ _ _ H
              (initial_log_ok w intent0 0))
    as [(Hs & _ & (c & t & Hf) & Hc) | (Hs & _ & Hf & Hc)].
  - rewrite Hf in Ha |- *. destruct Ha. auto.
  - rewrite Hf. auto.
Qed.

(** X15. When [AgentService.run] returns, a chat client was at hand, the
    orchestrator completed with the answer returned, which is non-empty
    and already trimmed; the metadata cites the turns hydrated in the
    run and carries the histogram of its last successful peek (the empty
    default histogram if there was none); and exactly one turn was
    persisted, by one [append_turn] of the trimmed intent and the answer
    into the caller's session, or into a session created for it, whose
    identifiers are the ones the metadata reports. *)
Theorem service_run_success have_chat_client sv intent0 session_id
    answer md sv' :
  AgentService.run w have_chat_client sv intent0 session_id
  = (Ok (answer, md), sv') ->
  exists r ids,
    have_chat_client = true
    /\ LLMOrchestrator.run w 0 intent0 = Ok r
    /\ status r = completed
    /\ final_answer r = Some answer
    /\ answer <> [] /\ strip answer = answer
    /\ strip intent0 <> []
    /\ md_cited_turn_ids md = hydrated_ids (tool_runs r)
    /\ md_histogram md
       = default default_histogram (last_peek_histogram (tool_runs r))
    /\ append_turn (target_store sv session_id)
         (target_session sv session_id) (strip intent0) answer
       = Ok (ids, store sv')
    /\ persistence_log sv'
       = persistence_log sv
         ++ turn_calls sv session_id (strip intent0) answer
    /\ md_session_id md = target_session sv session_id
    /\ md_conversation_id md = t_conversation_id ids
    /\ md_user_message_id md = t_user_message_id ids
    /\ md_assistant_message_id md = t_assistant_message_id ids.
Proof.
  unfold AgentService.run.
  destruct have_chat_client; [| discriminate].
  destruct (LLMOrchestrator.run w 0 intent0) as [r | e] eqn:Hr;
    [| discriminate].
  destruct (run_summary intent0 r Hr) as (Hh & Ha).
  destruct (final_answer r) as [[| c t] |] eqn:Hfa; try discriminate.
  destruct Ha as (Hs & Hne & Hstrip & Hc).
  rewrite persist_turn_cases, Hstrip.
  destruct (truthy (strip intent0)) eqn:Hu; [| discriminate].
  cbn [truthy].
  destruct (append_turn _ _ _ _) as [[ids d'] | e] eqn:Happ;
    [| discriminate].
  intros H. injection H as <- <- <-. exists r, ids. cbn.
  pose proof (append_turn_effect _ _ _ _ _ _ Happ)
    as (row & _ & _ & Hsid & _).
  rewrite Hh.
  repeat split; auto.
  intros Hn. rewrite Hn in Hu. discriminate Hu.
Qed.

(** X16. When [AgentService.run] raises, the store is as it was before
    the call.  A persistence call was made only if the orchestrator had
    produced an answer and the caller named a session: then the one
    call is the refused [append_turn], the error is HTTP 404 when the
    session does not exist and HTTP 400 when it is archived. *)
Theorem service_run_failure have_chat_client sv intent0 session_id e sv' :
  AgentService.run w have_chat_client sv intent0 session_id
  = (Raise e, sv') ->
  store sv' = store sv
  /\ (sv' = sv
      \/ exists sid r answer,
           session_id = Some sid
           /\ LLMOrchestrator.run w 0 intent0 = Ok r
           /\ final_answer r = Some answer
           /\ persistence_log sv'
              = persistence_log sv
                ++ [AppendTurn sid (strip intent0) answer]
           /\ ((e = HTTPException 404
                /\ sessions (store sv) !! sid = None)
               \/ (e = HTTPException 400
                   /\ exists row, sessions (store sv) !! sid = Some row
                                  /\ s_archived row = true))).
Proof.
  unfold AgentService.run.
  destruct have_chat_client;
    [| intros H; injection H as <- <-; auto].
  destruct (LLMOrchestrator.run w 0 intent0) as [r | e0] eqn:Hr;
    [| intros H; injection H as <- <-; auto].
  destruct (run_summary intent0 r Hr) as (_ & Ha).
  destruct (final_answer r) as [[| c t] |] eqn:Hfa;
    try (intros H; injection H as <- <-; auto).
  destruct Ha as (_ & _ & Hstrip & _).
  rewrite persist_turn_cases, Hstrip.
  destruct (truthy (strip intent0)) eqn:Hu;
    [| intros H; injection H as <- <-; auto].
  cbn [truthy].
  destruct (append_turn _ _ _ _) as [[ids d'] | e1] eqn:Happ;
    [discriminate |].
  intros H. injection H as <- <-. cbn [store persistence_log].
  split; [reflexivity |]. right.
  destruct session_id as [sid |].
  - exists sid, r, (c :: t). cbn in Happ |- *.
    split; [reflexivity |]. split; [reflexivity |].
    split; [exact Hfa |]. split; [reflexivity |].
    destruct (append_turn_raises _ _ _ _ _ Happ) as [(-> & Hnone) | (-> & Hrow)];
      [left | right]; auto.
  - destruct (fresh_session_accepts (store sv) (strip intent0) (c :: t))
      as (ids & d' & Hok).
    cbn [target_store target_session] in Happ.
    rewrite Hok in Happ. discriminate Happ.
Qed.

(** X17. With a chat client at hand, a completed orchestration of a
    non-blank intent and no session named, [AgentService.run] always
    returns: it creates a session, open and unpinned, with its own
    conversation, and stores the turn there as the first 32000
    characters of the trimmed intent and of the answer. *)
Theorem service_run_new_session sv intent0 r :
  LLMOrchestrator.run w 0 intent0 = Ok r ->
  status r = completed ->
  strip intent0 <> [] ->
  exists answer md sv' um am,
    AgentService.run w true sv intent0 None = (Ok (answer, md), sv')
    /\ final_answer r = Some answer
    /\ md_conversation_id md = next_uuid (store sv)
    /\ md_session_id md = N.succ (next_uuid (store sv))
    /\ sessions (store sv') !! md_session_id md
       = Some {| s_title := None; s_pinned := false; s_archived := false;
                 s_conversation := Some (md_conversation_id md) |}
    /\ messages (store sv') = messages (store sv) ++ [um; am]
    /\ msg_id um = md_user_message_id md
    /\ msg_id am = md_assistant_message_id md
    /\ msg_conversation_id um = md_conversation_id md
    /\ msg_conversation_id am = md_conversation_id md
    /\ msg_content_text um = prefix MAX_CONTENT_LEN (strip intent0)
    /\ msg_content_text am = prefix MAX_CONTENT_LEN answer.
Proof.
  intros Hr Hs Hu. unfold AgentService.run. rewrite Hr.
  destruct (run_summary intent0 r Hr) as (_ & Ha).
  destruct (final_answer r) as [[| c t] |] eqn:Hfa.
  - destruct Ha as (_ & Hne & _). congruence.
  - destruct Ha as (_ & _ & Hstrip & _).
    rewrite persist_turn_cases, Hstrip, (strip_nonempty_truthy _ Hu).
    cbn [truthy].
    destruct (fresh_session_accepts (store sv) (strip intent0) (c :: t))
      as (ids & d' & Hok).
    cbn [target_store target_session]. rewrite Hok.
    pose proof (append_turn_effect _ _ _ _ _ _ Hok)
      as (row & Hrow & _ & Hsid & Hcid & _ & _ & _ & _ & Hsess & _ & Hm & _).
    cbn in Hrow. rewrite lookup_insert_eq in Hrow. injection Hrow as <-.
    cbn in Hcid. cbn in Hsid.
    eexists _, _, _, _, _. split; [reflexivity |]. cbn.
    split; [reflexivity |]. split; [exact Hcid |]. split; [exact Hsid |].
    split; [rewrite Hsid; rewrite Hcid in Hsess |- *; exact Hsess |].
    split; [exact Hm |]. cbn.
    rewrite !stored_content_spec, Hstrip, strip_idempotent.
    repeat split; reflexivity.
  - destruct Ha as (Hm & _). congruence.
Qed.

End WithWorld.

End ServiceFacts.

Module ServiceExamples.
Import Retrieval Sessions Agent.
Import OrchestratorFacts RunFacts PersistenceFacts StoreFacts SessionsFacts.
Import ServiceFacts Demo OrchestratorExamples RunExamples.

Lemma service_run_success_witness :
  exists answer md sv',
    AgentService.run (demo_world research_script) true
      (demo_service one_session_db) question (Some 2%N)
    = (Ok (answer, md), sv')
    /\ exists r ids,
         true = true
         /\ LLMOrchestrator.run (demo_world research_script) 0 question
            = Ok r
         /\ status r = completed
         /\ final_answer r = Some answer
         /\ answer <> [] /\ strip answer = answer
         /\ strip question <> []
         /\ md_cited_turn_ids md = hydrated_ids (tool_runs r)
         /\ md_histogram md
            = default default_histogram
                (last_peek_histogram (tool_runs r))
         /\ append_turn
              (target_store (demo_service one_session_db) (Some 2%N))
              (target_session (demo_service one_session_db) (Some 2%N))
              (strip question) answer
            = Ok (ids, store sv')
         /\ persistence_log sv'
            = persistence_log (demo_service one_session_db)
              ++ turn_calls (demo_service one_session_db) (Some 2%N)
                   (strip question) answer
         /\ md_session_id md
            = target_session (demo_service one_session_db) (Some 2%N)
         /\ md_conversation_id md = t_conversation_id ids
         /\ md_user_message_id md = t_user_message_id ids
         /\ md_assistant_message_id md = t_assistant_message_id ids.
Proof.
  eexists _, _, _. split.
  - vm_compute. reflexivity.
  - apply (service_run_success (demo_world research_script) true
             (demo_service one_session_db) question (Some 2%N)).
    vm_compute. reflexivity.
Defined.

Lemma service_run_failure_witness :
  exists sv',
    AgentService.run (demo_world [says "It began in January."]) true
      (demo_service archived_db) question (Some 2%N)
    = (Raise (HTTPException 400), sv')
    /\ store sv' = store (demo_service archived_db)
    /\ (sv' = demo_service archived_db
        \/ exists sid r answer,
             Some 2%N = Some sid
             /\ LLMOrchestrator.run
                  (demo_world [says "It began in January."]) 0 question
                = Ok r
             /\ final_answer r = Some answer
             /\ persistence_log sv'
                = persistence_log (demo_service archived_db)
                  ++ [AppendTurn sid (strip question) answer]
             /\ ((HTTPException 400 = HTTPException 404
                  /\ sessions (store (demo_service archived_db)) !! sid
                     = None)
                 \/ (HTTPException 400 = HTTPException 400
                     /\ exists row,
                          sessions (store (demo_service archived_db)) !! sid
                          = Some row
                          /\ s_archived row = true))).
Proof.
  eexists. split.
  - vm_compute. reflexivity.
  - apply (service_run_failure (demo_world [says "It began in January."])
             true (demo_service archived_db) question (Some 2%N)).
    vm_compute. reflexivity.
Defined.

Lemma service_run_new_session_witness :
  exists answer md sv' um am,
    AgentService.run (demo_world research_script) true
      (demo_service one_session_db) question None
    = (Ok (answer, md), sv')
    /\ final_answer research_result = Some answer
    /\ md_conversation_id md = next_uuid (store (demo_service one_session_db))
    /\ md_session_id md
       = N.succ (next_uuid (store (demo_service one_session_db)))
    /\ sessions (store sv') !! md_session_id md
       = Some {| s_title := None; s_pinned := false; s_archived := false;
                 s_conversation := Some (md_conversation_id md) |}
    /\ messages (store sv')
       = messages (store (demo_service one_session_db)) ++ [um; am]
    /\ msg_id um = md_user_message_id md
    /\ msg_id am = md_assistant_message_id md
    /\ msg_conversation_id um = md_conversation_id md
    /\ msg_conversation_id am = md_conversation_id md
    /\ msg_content_text um = prefix MAX_CONTENT_LEN (strip question)
    /\ msg_content_text am = prefix MAX_CONTENT_LEN answer.
Proof.
  apply (service_run_new_session (demo_world research_script)
           (demo_service one_session_db) question research_result).
  - exact research_run.
  - reflexivity.
  - discriminate.
Defined.

(** A run without stored session: session 4 of conversation 3 is created
    and the turn stored as rows 5 and 6. *)
Example research_turn_persisted :
  exists answer md sv',
    AgentService.run (demo_world research_script) true
      (demo_service one_session_db) question None
    = (Ok (answer, md), sv')
    /\ (md_session_id md, md_conversation_id md,
        md_user_message_id md, md_assistant_message_id md)
       = (4%N, 3%N, 5%N, 6%N)
    /\ md_cited_turn_ids md = [1%N]
    /\ persistence_log sv'
       = [CreateSession;
          AppendTurn 4%N question
            (lit "The kickoff was planned on 1 January [1].")].
Proof.
  eexists _, _, _. split; [vm_compute; reflexivity |].
  repeat split.
Qed.

End ServiceExamples.

(** * Session details and the sessions API *)

(** ** models/sessions.py: reading and patching a session *)

Module SessionDetails.
Import Retrieval Sessions.

(** A row of [_fetch_session_messages] (timestamps left out, as in the
    store). *)
Record session_message : Type := {
  m_idx : Z;
  m_id : uuid;
  m_role : pystr;
  m_content : pystr;
  m_conversation_id : uuid
}.

(** The dict [fetch_session_details] returns.  [sd_metadata] is what the
    code reads of the metadata column, as it was when the row was
    fetched. *)
Record session_detail : Type := {
  sd_id : uuid;
  sd_title : option pystr;
  sd_pinned : bool;
  sd_archived : bool;
  sd_metadata : option uuid;
  sd_conversation_id : uuid;
  sd_messages : list session_message;
  sd_message_count : Z
}.

(** session_messages sm JOIN messages m ON sm.message_id = m.id
    WHERE sm.session_id = ..., in the order of the links. *)
Definition joined_messages (d : db) (session_id : uuid)
    : list session_message :=
  omap (fun sm =>
          if bool_decide (sm_session_id sm = session_id) then
            match find (fun m => bool_decide (msg_id m = sm_message_id sm))
                       (messages d) with
            | Some m =>
                Some {| m_idx := sm_idx sm; m_id := msg_id m;
                        m_role := msg_role m;
                        m_content := msg_content_text m;
                        m_conversation_id := msg_conversation_id m |}
            | None => None
            end
          else None)
       (session_messages d).

(** Put [x] behind the rows whose idx is at most its own. *)
Fixpoint place (x : session_message) (sorted : list session_message)
    : list session_message :=
  match sorted with
  | [] => [x]
  | y :: r => if m_idx x <? m_idx y then x :: y :: r else y :: place x r
  end.

(** ORDER BY sm.idx ASC.  The query breaks ties of idx by timestamps,
    which the store does not keep: rows of equal idx stay here in the
    order of their links, and the results below that speak of the order
    are about sessions whose idx values are distinct. *)
Definition order_by_idx (rows : list session_message)
    : list session_message :=
  fold_left (fun sorted x => place x sorted) rows [].

Definition _fetch_session_messages (d : db) (session_id : uuid)
    : list session_message :=
  order_by_idx (joined_messages d session_id).

Definition fetch_session_details (d : db) (session_id : uuid)
    (include_archived : bool) : res (session_detail * db) :=
  do session_row <- _fetch_session_row d session_id;
  if s_archived session_row && negb include_archived
  then Raise SessionNotFound
  else
    let (conversation_id, d) :=
      _conversation_id_for_session d session_id
        (s_conversation session_row) in
    let messages := _fetch_session_messages d session_id in
    Ok ({| sd_id := session_id;
           sd_title := s_title session_row;
           sd_pinned := s_pinned session_row;
           sd_archived := s_archived session_row;
           sd_metadata := s_conversation session_row;
           sd_conversation_id := conversation_id;
           sd_messages := messages;
           sd_message_count := Z.of_nat (length messages) |}, d).

(** UPDATE sessions SET <the fields given>, updated_at = now
    WHERE id = ... *)
Definition update_session (d : db) (session_id : uuid)
    (title : option pystr) (pinned archived : option bool) : db :=
  {| conversations := conversations d;
     sessions :=
       alter (fun r => {| s_title := match title with
                                     | Some t => Some t
                                     | None => s_title r
                                     end;
                          s_pinned := default (s_pinned r) pinned;
                          s_archived := default (s_archived r) archived;
                          s_conversation := s_conversation r |})
             session_id (sessions d);
     messages := messages d; session_messages := session_messages d;
     next_uuid := next_uuid d |}.

Definition patch_session (d : db) (session_id : uuid)
    (title : option pystr) (pinned archived : option bool)
    : res (session_detail * db) :=
  do _row <- _fetch_session_row d session_id;
  let d := update_session d session_id title pinned archived in
  fetch_session_details d session_id true.

Definition soft_archive_session (d : db) (session_id : uuid)
    : res (session_detail * db) :=
  patch_session d session_id None None (Some true).

End SessionDetails.

(** ** api/sessions.py: the handlers *)

Module SessionsApi.
Import Retrieval Sessions SessionDetails.

(** A handler's outcome and the store it leaves committed.  The
    connection is closed when the handler is done: what was written and
    not committed is gone. *)
Definition handled (A : Type) : Type := res A * db.

Definition not_found {A} (r : res A) : res A :=
  match r with
  | Raise SessionNotFound => Raise (HTTPException 404)
  | _ => r
  end.

(** GET /sessions/{session_id}: nothing is committed. *)
Definition get_session (d : db) (session_id : uuid)
    (include_archived : bool) : handled session_detail :=
  (not_found (do data <- fetch_session_details d session_id
                           include_archived;
              Ok data.1),
   d).

(** POST /sessions: the new session is committed, then read back. *)
Definition create_session (d : db) (title : option pystr)
    : handled session_detail :=
  let (ids, committed) := Sessions.create_session d title in
  let (session_id, conversation_id) := ids in
  match fetch_session_details committed session_id true with
  | Ok (data, _) =>
      (Ok {| sd_id := sd_id data; sd_title := sd_title data;
             sd_pinned := sd_pinned data; sd_archived := sd_archived data;
             sd_metadata := sd_metadata data;
             sd_conversation_id := conversation_id;
             sd_messages := sd_messages data;
             sd_message_count := sd_message_count data |},
       committed)
  | Raise e => (Raise e, committed)
  end.

(** PATCH /sessions/{session_id}: committed when the patch went
    through. *)
Definition patch_session (d : db) (session_id : uuid)
    (title : option pystr) (pinned archived : option bool)
    : handled session_detail :=
  match SessionDetails.patch_session d session_id title pinned archived with
  | Ok (updated, d') => (Ok updated, d')
  | Raise e => (not_found (Raise e), d)
  end.

(** DELETE /sessions/{session_id} *)
Definition delete_session (d : db) (session_id : uuid) : handled unit :=
  match soft_archive_session d session_id with
  | Ok (_, d') => (Ok tt, d')
  | Raise e => (not_found (Raise e), d)
  end.

End SessionsApi.

(** ** Reading sessions back *)

Module DetailsFacts.
Import Retrieval Sessions SessionDetails SessionsFacts StoreFacts.

Lemma place_Permutation x l : place x l ≡ₚ x :: l.
Proof.
  induction l as [| y r IH]; cbn [place]; [reflexivity |].
  destruct (m_idx x <? m_idx y); [reflexivity |].
  rewrite IH. apply Permutation_swap.
Qed.

Lemma order_by_idx_snoc l x :
  order_by_idx (l ++ [x]) = place x (order_by_idx l).
Proof. unfold order_by_idx. rewrite fold_left_app. reflexivity. Qed.

Lemma order_by_idx_Permutation l : order_by_idx l ≡ₚ l.
Proof.
  induction l as [| x l IH] using rev_ind; [reflexivity |].
  rewrite order_by_idx_snoc, place_Permutation, IH.
  apply Permutation_cons_append.
Qed.

(** A row whose idx is not below any present goes last. *)
Lemma place_last x l :
  Forall (fun y => m_idx y <= m_idx x) l -> place x l = l ++ [x].
Proof.
  induction 1 as [| y r Hy _ IH]; cbn [place]; [reflexivity |].
  destruct (Z.ltb_spec (m_idx x) (m_idx y)); [lia |].
  rewrite IH. reflexivity.
Qed.

Definition by_idx (x y : session_message) : Prop := m_idx x <= m_idx y.

Lemma place_sorted x l :
  StronglySorted by_idx l -> StronglySorted by_idx (place x l).
Proof.
  induction 1 as [| y r Hr IH Hy]; cbn [place].
  - repeat constructor.
  - destruct (Z.ltb_spec (m_idx x) (m_idx y)).
    + constructor; [constructor; assumption |].
      constructor; [unfold by_idx; lia |].
      eapply Forall_impl; [exact Hy |]. unfold by_idx. cbn. intros. lia.
    + constructor; [exact IH |].
      rewrite place_Permutation. constructor; [unfold by_idx; lia | exact Hy].
Qed.

Lemma order_by_idx_sorted l : StronglySorted by_idx (order_by_idx l).
Proof.
  induction l as [| x l IH] using rev_ind; [constructor |].
  rewrite order_by_idx_snoc. apply place_sorted. exact IH.
Qed.

Lemma joined_messages_links d sid m :
  m ∈ joined_messages d sid ->
  exists sm row,
    sm ∈ session_messages d /\ sm_session_id sm = sid
    /\ row ∈ messages d /\ msg_id row = sm_message_id sm
    /\ m = {| m_idx := sm_idx sm; m_id := msg_id row;
              m_role := msg_role row; m_content := msg_content_text row;
              m_conversation_id := msg_conversation_id row |}.
Proof.
  unfold joined_messages. rewrite list_elem_of_omap.
  intros (sm & Hin & Hsome). exists sm.
  case_bool_decide as Hsid; [| discriminate].
  destruct (find _ (messages d)) as [row |] eqn:Hfind; [| discriminate].
  injection Hsome as <-. exists row.
  apply find_some in Hfind as [Hrow Hid].
  apply bool_decide_eq_true_1 in Hid.
  split; [exact Hin |]. split; [exact Hsid |].
  split; [apply list_elem_of_In; exact Hrow |]. split; [exact Hid | reflexivity].
Qed.

(** What is read of a session depends on the rows and links only. *)
Lemma joined_messages_ext d d' sid :
  messages d' = messages d -> session_messages d' = session_messages d ->
  joined_messages d' sid = joined_messages d sid.
Proof. unfold joined_messages. intros -> ->. reflexivity. Qed.

Lemma fetch_session_messages_ext d d' sid :
  messages d' = messages d -> session_messages d' = session_messages d ->
  _fetch_session_messages d' sid = _fetch_session_messages d sid.
Proof.
  intros Hm Hsm. unfold _fetch_session_messages.
  rewrite (joined_messages_ext d d' sid Hm Hsm). reflexivity.
Qed.

(** Everything [fetch_session_details] returns and leaves behind. *)
Lemma fetch_session_details_effect d sid include_archived data d' :
  fetch_session_details d sid include_archived = Ok (data, d') ->
  exists row,
    sessions d !! sid = Some row
    /\ (s_archived row = true -> include_archived = true)
    /\ data
       = {| sd_id := sid; sd_title := s_title row;
            sd_pinned := s_pinned row; sd_archived := s_archived row;
            sd_metadata := s_conversation row;
            sd_conversation_id
            := chosen_conversation d sid (s_conversation row);
            sd_messages := _fetch_session_messages d sid;
            sd_message_count
            := Z.of_nat (length (_fetch_session_messages d sid)) |}
    /\ messages d' = messages d
    /\ session_messages d' = session_messages d
    /\ sessions d' !! sid
       = Some (with_conversation row (sd_conversation_id data))
    /\ (forall sid', sid' <> sid -> sessions d' !! sid' = sessions d !! sid').
Proof.
  unfold fetch_session_details, _fetch_session_row.
  destruct (sessions d !! sid) as [row |] eqn:Hrow; [| discriminate].
  cbn [bind].
  destruct (s_archived row && negb include_archived) eqn:Hhidden;
    [discriminate |].
  pose proof (conversation_for_session_effect d sid row Hrow) as Hcd.
  destruct (_conversation_id_for_session d sid (s_conversation row))
    as [cid d1].
  cbn [fst snd] in Hcd.
  destruct Hcd as (Hcid & Hm & Hsm & _ & Hsid & Hother & _).
  intros H. injection H as <- <-. exists row.
  rewrite (fetch_session_messages_ext d d1 sid Hm Hsm), Hcid.
  split; [reflexivity |]. split.
  { intros Ha. rewrite Ha in Hhidden. destruct include_archived;
      [reflexivity | discriminate Hhidden]. }
  split; [reflexivity |]. cbn [sd_conversation_id].
  rewrite <- Hcid. auto.
Qed.

Lemma fetch_session_details_raises d sid include_archived e :
  fetch_session_details d sid include_archived = Raise e ->
  e = SessionNotFound
  /\ (sessions d !! sid = None
      \/ exists row, sessions d !! sid = Some row
                     /\ s_archived row = true /\ include_archived = false).
Proof.
  unfold fetch_session_details, _fetch_session_row.
  destruct (sessions d !! sid) as [row |] eqn:Hrow; cbn [bind].
  - destruct (s_archived row) eqn:Ha, include_archived; cbn;
      try (destruct (_conversation_id_for_session d sid (s_conversation row));
           discriminate).
    intros H. injection H as <-. split; [reflexivity |]. right. eauto.
  - intros H. injection H as <-. auto.
Qed.

Lemma fetch_session_details_total d sid row :
  sessions d !! sid = Some row ->
  exists data d', fetch_session_details d sid true = Ok (data, d').
Proof.
  intros Hrow. unfold fetch_session_details, _fetch_session_row.
  rewrite Hrow. cbn [bind]. rewrite andb_false_r.
  destruct (_conversation_id_for_session d sid (s_conversation row)).
  eexists _, _. reflexivity.
Qed.

(** The patched row. *)
Definition patched (row : session_row) (title : option pystr)
    (pinned archived : option bool) : session_row :=
  {| s_title := match title with Some t => Some t | None => s_title row end;
     s_pinned := default (s_pinned row) pinned;
     s_archived := default (s_archived row) archived;
     s_conversation := s_conversation row |}.

Lemma patch_session_effect d sid title pinned archived data d' :
  patch_session d sid title pinned archived = Ok (data, d') ->
  exists row,
    sessions d !! sid = Some row
    /\ sd_id data = sid
    /\ sd_title data = s_title (patched row title pinned archived)
    /\ sd_pinned data = s_pinned (patched row title pinned archived)
    /\ sd_archived data = s_archived (patched row title pinned archived)
    /\ sd_conversation_id data
       = chosen_conversation d sid (s_conversation row)
    /\ sd_messages data = _fetch_session_messages d sid
    /\ sd_message_count data = Z.of_nat (length (sd_messages data))
    /\ messages d' = messages d
    /\ session_messages d' = session_messages d
    /\ sessions d' !! sid
       = Some (with_conversation (patched row title pinned archived)
                 (sd_conversation_id data))
    /\ (forall sid', sid' <> sid -> sessions d' !! sid' = sessions d !! sid').
Proof.
  unfold patch_session, _fetch_session_row.
  destruct (sessions d !! sid) as [row |] eqn:Hrow; [| discriminate].
  cbn [bind]. intros H.
  apply fetch_session_details_effect in H
    as (row' & Hrow' & _ & -> & Hm & Hsm & Hsid & Hother).
  cbn in Hrow'. rewrite lookup_alter_eq, Hrow in Hrow'.
  injection Hrow' as <-. exists row. cbn in Hm, Hsm.
  cbn [sd_id sd_title sd_pinned sd_archived sd_conversation_id sd_messages
       sd_message_count] in *.
  rewrite (fetch_session_messages_ext d (update_session d sid title pinned
                                           archived) sid)
    by reflexivity.
  repeat split; auto.
  intros sid' Hne. rewrite (Hother sid' Hne). cbn.
  apply lookup_alter_ne. congruence.
Qed.

Lemma patch_session_total d sid title pinned archived row :
  sessions d !! sid = Some row ->
  exists data d', patch_session d sid title pinned archived = Ok (data, d').
Proof.
  intros Hrow. unfold patch_session, _fetch_session_row. rewrite Hrow.
  cbn [bind]. eapply fetch_session_details_total. cbn.
  rewrite lookup_alter_eq, Hrow. reflexivity.
Qed.

Lemma patch_session_raises d sid title pinned archived e :
  patch_session d sid title pinned archived = Raise e ->
  e = SessionNotFound /\ sessions d !! sid = None.
Proof.
  intros Hpatch. destruct (sessions d !! sid) as [row |] eqn:Hrow.
  - destruct (patch_session_total d sid title pinned archived row Hrow)
      as (data & d' & Hok).
    rewrite Hok in Hpatch. discriminate Hpatch.
  - revert Hpatch. unfold patch_session, _fetch_session_row.
    rewrite Hrow. cbn. intros H. injection H as <-. auto.
Qed.


(** X19. Once [soft_archive_session] has gone through, the session is
    closed: [append_turn] on it raises [ValueError] whatever the texts,
    reading it without [include_archived] raises [SessionNotFound] (the
    GET handler answers 404), and reading it with [include_archived]
    returns it, archived, with the messages it had.  Archiving touches
    no message row and no link. *)
Theorem archived_session_is_closed d sid data d' :
  soft_archive_session d sid = Ok (data, d') ->
  sd_archived data = true
  /\ messages d' = messages d
  /\ session_messages d' = session_messages d
  /\ (forall u a, append_turn d' sid u a = Raise ValueError)
  /\ fetch_session_details d' sid false = Raise SessionNotFound
  /\ (SessionsApi.get_session d' sid false).1 = Raise (HTTPException 404)
  /\ exists data' d'',
       fetch_session_details d' sid true = Ok (data', d'')
       /\ sd_archived data' = true
       /\ sd_messages data' = sd_messages data.
Proof.
  unfold soft_archive_session. intros H.
  destruct (patch_session_effect _ _ _ _ _ _ _ H)
    as (row & Hrow & _ & _ & _ & Ha & _ & Hmsgs & _ & Hm & Hsm & Hsid & _).
  cbn in Ha.
  assert (Hhidden : fetch_session_details d' sid false
                    = Raise SessionNotFound).
  { unfold fetch_session_details, _fetch_session_row. rewrite Hsid.
    reflexivity. }
  split; [exact Ha |]. split; [exact Hm |]. split; [exact Hsm |].
  split.
  { intros u a. eapply PersistenceFacts.append_turn_archived;
      [exact Hsid | reflexivity]. }
  split; [exact Hhidden |].
  split; [unfold SessionsApi.get_session; rewrite Hhidden; reflexivity |].
  destruct (fetch_session_details_total d' sid _ Hsid) as (data' & d'' & Hok).
  exists data', d''. split; [exact Hok |].
  apply fetch_session_details_effect in Hok
    as (row' & Hrow' & _ & -> & _).
  rewrite Hsid in Hrow'. injection Hrow' as <-. cbn.
  split; [reflexivity |].
  rewrite Hmsgs. apply fetch_session_messages_ext; assumption.
Qed.

(** X20. Archiving an open session and then patching it back with
    [archived=False] loses nothing: the session is open again with its
    title, its pin and its messages, no message row or link has changed,
    and the next turn appended goes to the conversation the session had
    when it was archived. *)
Theorem unarchive_restores_session d sid row data1 d1 data2 d2 :
  sessions d !! sid = Some row ->
  s_archived row = false ->
  soft_archive_session d sid = Ok (data1, d1) ->
  patch_session d1 sid None None (Some false) = Ok (data2, d2) ->
  sd_archived data2 = false
  /\ sd_title data2 = s_title row
  /\ sd_pinned data2 = s_pinned row
  /\ sd_messages data2 = _fetch_session_messages d sid
  /\ sd_conversation_id data2 = sd_conversation_id data1
  /\ sessions d2 !! sid
     = Some (with_conversation row (sd_conversation_id data1))
  /\ messages d2 = messages d
  /\ session_messages d2 = session_messages d
  /\ forall u a, exists ids d3,
       append_turn d2 sid u a = Ok (ids, d3)
       /\ t_conversation_id ids = sd_conversation_id data1.
Proof.
  unfold soft_archive_session. intros Hrow Hopen H1 H2.
  destruct (patch_session_effect _ _ _ _ _ _ _ H1)
    as (row1 & Hrow1 & _ & _ & _ & _ & _ & _ & _ & Hm1 & Hsm1 & Hsid1 & _).
  rewrite Hrow in Hrow1. injection Hrow1 as <-.
  destruct (patch_session_effect _ _ _ _ _ _ _ H2)
    as (row2 & Hrow2 & _ & Ht & Hp & Ha & Hc & Hmsgs & _ & Hm2 & Hsm2
        & Hsid2 & _).
  rewrite Hsid1 in Hrow2. injection Hrow2 as <-.
  cbn in Ht, Hp, Ha, Hc, Hsid2.
  split; [exact Ha |]. split; [exact Ht |]. split; [exact Hp |].
  split.
  { rewrite Hmsgs. apply fetch_session_messages_ext; assumption. }
  split; [exact Hc |].
  assert (Hfinal : sessions d2 !! sid
                   = Some (with_conversation row (sd_conversation_id data1))).
  { rewrite Hsid2, Hc. unfold with_conversation, patched. cbn.
    rewrite Hopen. reflexivity. }
  split; [exact Hfinal |].
  split; [congruence |]. split; [congruence |].
  intros u a.
  destruct (PersistenceFacts.append_turn_open d2 sid u a _ Hfinal Hopen)
    as (ids & d3 & Hok & _).
  exists ids, d3. split; [exact Hok |].
  destruct (append_turn_effect _ _ _ _ _ _ Hok)
    as (row3 & Hrow3 & _ & _ & Hcid & _).
  rewrite Hfinal in Hrow3. injection Hrow3 as <-. exact Hcid.
Qed.

(** [uuid4()] has not handed out the ids in use: every message id, and
    every message id a link refers to, was drawn before. *)
Definition fresh (d : db) : Prop :=
  Forall (fun m => (msg_id m < next_uuid d)%N) (messages d)
  /\ Forall (fun sm => (sm_message_id sm < next_uuid d)%N)
            (session_messages d).

(** The join on explicit tables. *)
Definition join (rows : list message_row)
    (links : list session_message_row) (session_id : uuid)
    : list session_message :=
  omap (fun sm =>
          if bool_decide (sm_session_id sm = session_id) then
            match find (fun m => bool_decide (msg_id m = sm_message_id sm))
                       rows with
            | Some m =>
                Some {| m_idx := sm_idx sm; m_id := msg_id m;
                        m_role := msg_role m;
                        m_content := msg_content_text m;
                        m_conversation_id := msg_conversation_id m |}
            | None => None
            end
          else None)
       links.

Lemma joined_messages_join d sid :
  joined_messages d sid = join (messages d) (session_messages d) sid.
Proof. reflexivity. Qed.

Lemma find_app_old {A} (p : A -> bool) (l l' : list A) :
  Forall (fun x => p x = false) l' -> find p (l ++ l') = find p l.
Proof.
  intros Hnew. induction l as [| x l IH]; cbn [app find].
  - induction Hnew as [| y r Hy _ IH]; [reflexivity |].
    cbn [find]. rewrite Hy. exact IH.
  - destruct (p x); [reflexivity | exact IH].
Qed.

Lemma find_app_new {A} (p : A -> bool) (l l' : list A) :
  Forall (fun x => p x = false) l -> find p (l ++ l') = find p l'.
Proof.
  induction 1 as [| x l Hx _ IH]; [reflexivity |].
  cbn [app find]. rewrite Hx. exact IH.
Qed.

(** Links that refer to none of the new rows join as before. *)
Lemma join_old_links rows new links sid :
  Forall (fun sm => Forall (fun m => msg_id m <> sm_message_id sm) new)
         links ->
  join (rows ++ new) links sid = join rows links sid.
Proof.
  induction 1 as [| sm links Hsm _ IH]; [reflexivity |].
  unfold join in *. cbn [omap list_omap]. rewrite IH.
  rewrite find_app_old; [reflexivity |].
  eapply Forall_impl; [exact Hsm |]. cbn. intros m Hne.
  apply bool_decide_eq_false_2. exact Hne.
Qed.

Lemma join_other_session rows links sid sid' :
  Forall (fun sm => sm_session_id sm = sid) links -> sid' <> sid ->
  join rows links sid' = [].
Proof.
  intros Hlinks Hne. induction Hlinks as [| sm links Hsm _ IH];
    [reflexivity |].
  unfold join in *. cbn [omap list_omap].
  rewrite bool_decide_eq_false_2 by congruence. exact IH.
Qed.

Lemma join_app rows links links' sid :
  join rows (links ++ links') sid
  = join rows links sid ++ join rows links' sid.
Proof. apply omap_app. Qed.

Lemma order_by_idx_two l x y :
  Forall (fun z => m_idx z <= m_idx x) l -> m_idx x <= m_idx y ->
  order_by_idx (l ++ [x; y]) = order_by_idx l ++ [x; y].
Proof.
  intros Hl Hxy.
  change (l ++ [x; y]) with (l ++ [x] ++ [y]).
  rewrite app_assoc, !order_by_idx_snoc.
  assert (Hsorted : Forall (fun z => m_idx z <= m_idx x) (order_by_idx l))
    by (rewrite order_by_idx_Permutation; exact Hl).
  rewrite (place_last x) by exact Hsorted.
  rewrite place_last; [rewrite <- app_assoc; reflexivity |].
  apply Forall_app. split.
  - eapply Forall_impl; [exact Hsorted |]. cbn. intros. lia.
  - repeat constructor. exact Hxy.
Qed.

(** The two rows a turn adds to what is read of its session. *)
Definition turn_messages (d : db) (sid : uuid) (ids : turn_ids)
    (u a : pystr) : list session_message :=
  [ {| m_idx := _next_idx_for_session d sid;
       m_id := t_user_message_id ids;
       m_role := lit "user";
       m_content := prefix MAX_CONTENT_LEN (strip u);
       m_conversation_id := t_conversation_id ids |};
    {| m_idx := _next_idx_for_session d sid + 1;
       m_id := t_assistant_message_id ids;
       m_role := lit "assistant";
       m_content := prefix MAX_CONTENT_LEN (strip a);
       m_conversation_id := t_conversation_id ids |} ].

(** X21. In a store whose ids were all drawn from [uuid4], a turn
    appended to a session reads back: [_fetch_session_messages] returns
    what it returned before followed by the user message and the
    assistant message of the turn, with the stored texts (trimmed, at
    most 32000 characters) and the turn's ids; what is read of every
    other session is unchanged; [fetch_session_details] then reports two
    messages more, in the turn's conversation; and the ids of the new
    store are again all drawn. *)
Theorem appended_turn_reads_back d sid u a ids d' :
  fresh d ->
  append_turn d sid u a = Ok (ids, d') ->
  _fetch_session_messages d' sid
  = _fetch_session_messages d sid ++ turn_messages d sid ids u a
  /\ (forall sid', sid' <> sid ->
        _fetch_session_messages d' sid' = _fetch_session_messages d sid')
  /\ fresh d'
  /\ exists data d'',
       fetch_session_details d' sid false = Ok (data, d'')
       /\ sd_messages data
          = _fetch_session_messages d sid ++ turn_messages d sid ids u a
       /\ sd_message_count data
          = Z.of_nat (length (_fetch_session_messages d sid)) + 2
       /\ sd_conversation_id data = t_conversation_id ids.
Proof.
  intros [Hrows Hlinks] H.
  destruct (append_turn_effect d sid u a ids d' H)
    as (row & Hrow & Harch & _ & Hcid & Haid & Huid & Hnext & _ & Hsid
        & _ & Hm & Hsm).
  set (um := {| msg_id := t_user_message_id ids |}) in Hm.
  set (am := {| msg_id := t_assistant_message_id ids |}) in Hm.
  set (ul := {| sm_message_id := t_user_message_id ids |}) in Hsm.
  set (al := {| sm_message_id := t_assistant_message_id ids |}) in Hsm.
  assert (Hold : forall sid',
            join (messages d') (session_messages d) sid'
            = join (messages d) (session_messages d) sid').
  { intros sid'. rewrite Hm. apply join_old_links.
    eapply Forall_impl; [exact Hlinks |]. cbn. intros sm Hlt.
    repeat constructor; cbn; lia. }
  assert (Hnew : join (messages d') [ul; al] sid
                 = turn_messages d sid ids u a).
  { rewrite Hm. unfold join. cbn [omap list_omap ul al sm_session_id
                                   sm_message_id].
    rewrite !bool_decide_eq_true_2 by reflexivity.
    rewrite !find_app_new
      by (eapply Forall_impl; [exact Hrows |]; cbn; intros m Hlt;
          apply bool_decide_eq_false_2; lia).
    cbn [find um am msg_id].
    rewrite bool_decide_eq_true_2 by reflexivity.
    rewrite bool_decide_eq_false_2 by lia.
    rewrite bool_decide_eq_true_2 by reflexivity.
    cbn. unfold turn_messages. rewrite !stored_content_spec. reflexivity. }
  assert (Hread : _fetch_session_messages d' sid
                  = _fetch_session_messages d sid
                    ++ turn_messages d sid ids u a).
  { unfold _fetch_session_messages.
    rewrite (joined_messages_join d'), Hsm, join_app, Hold, Hnew.
    rewrite <- joined_messages_join. unfold turn_messages.
    apply order_by_idx_two; cbn; [| lia].
    apply Forall_forall. intros m Hin.
    apply joined_messages_links in Hin
      as (sm & found & Hsm_in & Hsm_sid & _ & _ & ->). cbn.
    pose proof (next_idx_for_session_above d sid sm Hsm_in Hsm_sid). lia. }
  split; [exact Hread |]. split.
  { intros sid' Hne. unfold _fetch_session_messages.
    rewrite (joined_messages_join d'), Hsm, join_app, Hold.
    rewrite (join_other_session _ [ul; al] sid sid')
      by (repeat constructor || exact Hne).
    rewrite app_nil_r. reflexivity. }
  split.
  { unfold fresh. rewrite Hm, Hsm, Hnext. split.
    - apply Forall_app. split.
      + eapply Forall_impl; [exact Hrows |]. cbn. intros. lia.
      + repeat constructor; cbn; lia.
    - apply Forall_app. split.
      + eapply Forall_impl; [exact Hlinks |]. cbn. intros. lia.
      + repeat constructor; cbn; lia. }
  assert (Hopen : s_archived (with_conversation row (t_conversation_id ids))
                  = false) by exact Harch.
  unfold fetch_session_details, _fetch_session_row. rewrite Hsid.
  cbn [bind]. rewrite Hopen. cbn [andb].
  pose proof (conversation_for_session_effect d' sid _ Hsid) as Hcd.
  destruct (_conversation_id_for_session d' sid _) as [cid d''].
  cbn [fst snd] in Hcd. destruct Hcd as (Hc & Hm' & Hsm' & _).
  eexists _, _. split; [reflexivity |]. cbn.
  rewrite (fetch_session_messages_ext d' d'' sid Hm' Hsm'), Hread.
  split; [reflexivity |]. split; [| exact Hc].
  rewrite length_app. cbn [length turn_messages]. lia.
Qed.

End DetailsFacts.

(** ** The sessions handlers *)

Module ApiFacts.
Import Retrieval Sessions SessionDetails SessionsFacts StoreFacts.
Import DetailsFacts SessionsApi.

(** X22. GET /sessions/{id} leaves the store as it was, whatever it
    answers.  It answers 404 exactly when the session does not exist or
    is archived and [include_archived] is off; otherwise it answers the
    session's row with its messages in non-decreasing idx order, counted
    and each drawn from a link of that session. *)
Theorem get_session_reads_only d sid include_archived :
  (get_session d sid include_archived).2 = d
  /\ match (get_session d sid include_archived).1 with
     | Ok data =>
         exists row,
           sessions d !! sid = Some row
           /\ (s_archived row = true -> include_archived = true)
           /\ sd_id data = sid
           /\ sd_title data = s_title row
           /\ sd_pinned data = s_pinned row
           /\ sd_archived data = s_archived row
           /\ sd_message_count data = Z.of_nat (length (sd_messages data))
           /\ StronglySorted by_idx (sd_messages data)
           /\ sd_messages data ≡ₚ joined_messages d sid
     | Raise e =>
         e = HTTPException 404
         /\ (sessions d !! sid = None
             \/ exists row, sessions d !! sid = Some row
                            /\ s_archived row = true
                            /\ include_archived = false)
     end.
Proof.
  split; [reflexivity |]. unfold get_session. cbn [fst].
  destruct (fetch_session_details d sid include_archived)
    as [[data d'] | e] eqn:Hfetch; cbn [bind not_found fst].
  - apply fetch_session_details_effect in Hfetch
      as (row & Hrow & Hvisible & -> & _).
    exists row. cbn. repeat split; auto.
    + apply order_by_idx_sorted.
    + apply order_by_idx_Permutation.
  - apply fetch_session_details_raises in Hfetch as [-> Hwhy].
    split; [reflexivity | exact Hwhy].
Qed.

(** X23. POST /sessions commits exactly what [create_session] wrote and
    answers 201 with the new session: the title given, not pinned, not
    archived, under a session id and a conversation id that differ, and
    with the messages of whatever links already named that id (none, in
    a store that has no such link). *)
Theorem create_session_answers_new_session d title :
  exists data,
    create_session d title = (Ok data, (Sessions.create_session d title).2)
    /\ sd_id data = (Sessions.create_session d title).1.1
    /\ sd_conversation_id data = (Sessions.create_session d title).1.2
    /\ sd_id data <> sd_conversation_id data
    /\ sd_title data = title
    /\ sd_pinned data = false
    /\ sd_archived data = false
    /\ sd_messages data = _fetch_session_messages d (sd_id data)
    /\ (Forall (fun sm => sm_session_id sm <> sd_id data)
               (session_messages d) ->
        sd_messages data = [] /\ sd_message_count data = 0).
Proof.
  unfold create_session, fetch_session_details, _fetch_session_row. cbn.
  rewrite lookup_insert_eq. cbn. eexists. split; [reflexivity |]. cbn.
  split; [reflexivity |]. split; [reflexivity |]. split; [lia |].
  split; [reflexivity |]. split; [reflexivity |]. split; [reflexivity |].
  split; [reflexivity |]. intros Hnone.
  assert (Hjoin : joined_messages d (N.succ (next_uuid d)) = []).
  { unfold joined_messages.
    induction Hnone as [| sm links Hsm _ IH]; [reflexivity |].
    cbn [omap list_omap]. rewrite bool_decide_eq_false_2 by exact Hsm.
    exact IH. }
  change (order_by_idx (joined_messages d (N.succ (next_uuid d))) = []
          /\ Z.of_nat
               (length (order_by_idx
                          (joined_messages d (N.succ (next_uuid d)))))
             = 0).
  rewrite Hjoin. split; reflexivity.
Qed.

(** X24. DELETE /sessions/{id} answers 404, and commits nothing, exactly
    when the session does not exist.  Otherwise it succeeds and leaves
    the session archived with its rows and links in place, and it can be
    repeated: deleting an archived session succeeds again and changes
    neither its row nor any message. *)
Theorem delete_session_archives d sid :
  match delete_session d sid with
  | (Raise e, d') =>
      e = HTTPException 404 /\ sessions d !! sid = None /\ d' = d
  | (Ok _, d') =>
      exists row,
        sessions d !! sid = Some row
        /\ sessions d' !! sid
           = Some {| s_title := s_title row; s_pinned := s_pinned row;
                     s_archived := true;
                     s_conversation
                     := Some (chosen_conversation d sid
                                (s_conversation row)) |}
        /\ (forall sid', sid' <> sid ->
                         sessions d' !! sid' = sessions d !! sid')
        /\ messages d' = messages d
        /\ session_messages d' = session_messages d
        /\ exists d'',
             delete_session d' sid = (Ok tt, d'')
             /\ sessions d'' !! sid = sessions d' !! sid
             /\ messages d'' = messages d
             /\ session_messages d'' = session_messages d
  end.
Proof.
  unfold delete_session, soft_archive_session.
  destruct (SessionDetails.patch_session d sid None None (Some true))
    as [[data d'] | e] eqn:Hpatch.
  - destruct (patch_session_effect _ _ _ _ _ _ _ Hpatch)
      as (row & Hrow & _ & _ & _ & _ & Hc & _ & _ & Hm & Hsm & Hsid
          & Hother).
    exists row. rewrite Hc in Hsid.
    split; [exact Hrow |]. split; [exact Hsid |]. split; [exact Hother |].
    split; [exact Hm |]. split; [exact Hsm |].
    destruct (patch_session_total d' sid None None (Some true) _ Hsid)
      as (data2 & d'' & Hok).
    exists d''. rewrite Hok.
    destruct (patch_session_effect _ _ _ _ _ _ _ Hok)
      as (row2 & Hrow2 & _ & _ & _ & _ & Hc2 & _ & _ & Hm2 & Hsm2 & Hsid2
          & _).
    rewrite Hsid in Hrow2. injection Hrow2 as <-.
    split; [reflexivity |]. split; [| split; congruence].
    rewrite Hsid2, Hc2, Hsid. reflexivity.
  - destruct (patch_session_raises _ _ _ _ _ _ Hpatch) as [-> Hnone].
    cbn. auto.
Qed.

End ApiFacts.

Module DetailsExamples.
Import Retrieval Sessions SessionDetails SessionsFacts StoreFacts.
Import DetailsFacts StoreExamples.

Definition result_or {A} (dflt : A) (r : res A) : A :=
  match r with Ok x => x | Raise _ => dflt end.

Definition no_detail : session_detail :=
  {| sd_id := 0%N; sd_title := None; sd_pinned := false;
     sd_archived := false; sd_metadata := None; sd_conversation_id := 0%N;
     sd_messages := []; sd_message_count := 0 |}.

(** Session 2 with its first turn, archived. *)
Definition archived_2 : session_detail * db :=
  Eval vm_compute in
    result_or (no_detail, after_first_turn.2)
      (soft_archive_session after_first_turn.2 2%N).

Lemma archive_2 :
  soft_archive_session after_first_turn.2 2%N
  = Ok (archived_2.1, archived_2.2).
Proof. vm_compute. reflexivity. Qed.

Lemma archived_session_is_closed_witness :
  soft_archive_session after_first_turn.2 2%N
  = Ok (archived_2.1, archived_2.2)
  /\ sd_archived archived_2.1 = true
  /\ messages archived_2.2 = messages after_first_turn.2
  /\ session_messages archived_2.2 = session_messages after_first_turn.2
  /\ (forall u a, append_turn archived_2.2 2%N u a = Raise ValueError)
  /\ fetch_session_details archived_2.2 2%N false = Raise SessionNotFound
  /\ (SessionsApi.get_session archived_2.2 2%N false).1
     = Raise (HTTPException 404)
  /\ exists data' d'',
       fetch_session_details archived_2.2 2%N true = Ok (data', d'')
       /\ sd_archived data' = true
       /\ sd_messages data' = sd_messages archived_2.1.
Proof.
  split; [exact archive_2 |].
  apply (archived_session_is_closed after_first_turn.2 2%N).
  exact archive_2.
Defined.

(** ... and opened again. *)
Definition reopened_2 : session_detail * db :=
  Eval vm_compute in
    result_or (no_detail, archived_2.2)
      (patch_session archived_2.2 2%N None None (Some false)).

Lemma reopen_2 :
  patch_session archived_2.2 2%N None None (Some false)
  = Ok (reopened_2.1, reopened_2.2).
Proof. vm_compute. reflexivity. Qed.

Definition session_2_row : session_row :=
  {| s_title := None; s_pinned := false; s_archived := false;
     s_conversation := Some 1%N |}.

Lemma unarchive_restores_session_witness :
  sd_archived reopened_2.1 = false
  /\ sd_title reopened_2.1 = s_title session_2_row
  /\ sd_pinned reopened_2.1 = s_pinned session_2_row
  /\ sd_messages reopened_2.1
     = _fetch_session_messages after_first_turn.2 2%N
  /\ sd_conversation_id reopened_2.1 = sd_conversation_id archived_2.1
  /\ sessions reopened_2.2 !! 2%N
     = Some (with_conversation session_2_row
               (sd_conversation_id archived_2.1))
  /\ messages reopened_2.2 = messages after_first_turn.2
  /\ session_messages reopened_2.2 = session_messages after_first_turn.2
  /\ forall u a, exists ids d3,
       append_turn reopened_2.2 2%N u a = Ok (ids, d3)
       /\ t_conversation_id ids = sd_conversation_id archived_2.1.
Proof.
  apply (unarchive_restores_session after_first_turn.2 2%N session_2_row
           archived_2.1 archived_2.2 reopened_2.1 reopened_2.2).
  - vm_compute. reflexivity.
  - reflexivity.
  - exact archive_2.
  - exact reopen_2.
Defined.

(** A second turn in session 2. *)
Definition after_second_turn : turn_ids * db :=
  Eval vm_compute in
    result_or after_first_turn
      (append_turn after_first_turn.2 2%N (lit "and then?") (lit " done ")).

Lemma second_turn :
  append_turn after_first_turn.2 2%N (lit "and then?") (lit " done ")
  = Ok (after_second_turn.1, after_second_turn.2).
Proof. vm_compute. reflexivity. Qed.

Lemma first_turn_fresh : fresh after_first_turn.2.
Proof. split; repeat constructor. Qed.

Lemma appended_turn_reads_back_witness :
  fresh after_first_turn.2
  /\ append_turn after_first_turn.2 2%N (lit "and then?") (lit " done ")
     = Ok (after_second_turn.1, after_second_turn.2)
  /\ _fetch_session_messages after_second_turn.2 2%N
     = _fetch_session_messages after_first_turn.2 2%N
       ++ turn_messages after_first_turn.2 2%N after_second_turn.1
            (lit "and then?") (lit " done ")
  /\ (forall sid', sid' <> 2%N ->
        _fetch_session_messages after_second_turn.2 sid'
        = _fetch_session_messages after_first_turn.2 sid')
  /\ fresh after_second_turn.2
  /\ exists data d'',
       fetch_session_details after_second_turn.2 2%N false = Ok (data, d'')
       /\ sd_messages data
          = _fetch_session_messages after_first_turn.2 2%N
            ++ turn_messages after_first_turn.2 2%N after_second_turn.1
                 (lit "and then?") (lit " done ")
       /\ sd_message_count data
          = Z.of_nat
              (length (_fetch_session_messages after_first_turn.2 2%N))
            + 2
       /\ sd_conversation_id data = t_conversation_id after_second_turn.1.
Proof.
  split; [exact first_turn_fresh |]. split; [exact second_turn |].
  apply (appended_turn_reads_back after_first_turn.2 2%N (lit "and then?")
           (lit " done ")).
  - exact first_turn_fresh.
  - exact second_turn.
Defined.

(** What GET /sessions/2 shows after the two turns. *)
Example session_2_transcript :
  map (fun m => (m_idx m, m_id m, m_role m, m_content m))
      (_fetch_session_messages after_second_turn.2 2%N)
  = [ (0, 5%N, lit "user", lit "which week did we start?");
      (1, 6%N, lit "assistant", lit "ok");
      (2, 7%N, lit "user", lit "and then?");
      (3, 8%N, lit "assistant", lit "done") ].
Proof. reflexivity. Qed.

(** Links out of idx order are read back in idx order. *)
Example links_out_of_order :
  map m_idx
    (order_by_idx
       (map (fun i => {| m_idx := i; m_id := 0%N; m_role := [];
                         m_content := []; m_conversation_id := 0%N |})
            [3; 0; 2; 1]))
  = [0; 1; 2; 3].
Proof. reflexivity. Qed.

End DetailsExamples.

(** * The chat endpoint *)

(** ** api/chat.py *)

Module Chat.
Import Retrieval Agent.

(** [ChatMessage]: both fields are required strings. *)
Record ChatMessage : Type := {
  cm_role : pystr;
  cm_content : pystr
}.

(** What the handler reads of [request.app.state]: the DSN and whether an
    embedding client is set. *)
Record app_state : Type := {
  st_dsn : option pystr;
  st_embedding_client : bool
}.

Definition _get_state (st : app_state) : res unit :=
  match st_dsn st with
  | Some (c :: t) =>
      if st_embedding_client st then Ok tt else Raise (HTTPException 500)
  | _ => Raise (HTTPException 500)
  end.

(** The loop of [_last_user_content] over [reversed(messages)]. *)
Fixpoint scan_user (reversed : list ChatMessage) : res pystr :=
  match reversed with
  | [] => Raise (HTTPException 400)
  | msg :: rest =>
      if bool_decide (cm_role msg = lit "user") then
        if truthy (strip (cm_content msg)) then Ok (cm_content msg)
        else scan_user rest
      else scan_user rest
  end.

Definition _last_user_content (messages : list ChatMessage) : res pystr :=
  scan_user (rev messages).

(** POST /chat.  [api_key] says that OPENAI_API_KEY is set, [sv] is the
    store behind the DSN, [dumps], [u1], [u2] are what [stream_answer]
    draws; the result is the list of events of the streamed body. *)
Definition chat (w : world) (st : app_state) (api_key : bool)
    (sv : service) (dumps : chunk -> pystr) (u1 u2 : pystr)
    (messages : list ChatMessage) : res (list pystr) * service :=
  match messages with
  | [] => (Raise (HTTPException 400), sv)
  | _ :: _ =>
      match _last_user_content messages with
      | Raise e => (Raise e, sv)
      | Ok user_query =>
          match _get_state st with
          | Raise e => (Raise e, sv)
          | Ok _ =>
              let (ran, sv') :=
                AgentService.run w api_key sv user_query None in
              match ran with
              | Raise e => (Raise e, sv')
              | Ok (final_answer, metadata) =>
                  (Ok (stream_answer dumps u1 u2 final_answer metadata),
                   sv')
              end
          end
      end
  end.

End Chat.

Module ChatFacts.
Import Retrieval Sessions Agent Chat.
Import OrchestratorFacts RunFacts PersistenceFacts StoreFacts PyStrFacts.
Import SessionsFacts ServiceFacts StreamFacts.

(** A user message with something in it. *)
Definition asks_something (m : ChatMessage) : Prop :=
  cm_role m = lit "user" /\ strip (cm_content m) <> [].

Lemma scan_user_spec (l : list ChatMessage) :
  match scan_user l with
  | Ok c =>
      exists skipped m rest,
        l = skipped ++ m :: rest
        /\ cm_content m = c
        /\ asks_something m
        /\ Forall (fun m' => ~ asks_something m') skipped
  | Raise e =>
      e = HTTPException 400 /\ Forall (fun m => ~ asks_something m) l
  end.
Proof.
  induction l as [| msg rest IH]; cbn [scan_user].
  - split; [reflexivity | constructor].
  - assert (Hskip : ~ asks_something msg ->
              match scan_user rest with
              | Ok c =>
                  exists skipped m rest',
                    msg :: rest = skipped ++ m :: rest'
                    /\ cm_content m = c
                    /\ asks_something m
                    /\ Forall (fun m' => ~ asks_something m') skipped
              | Raise e =>
                  e = HTTPException 400
                  /\ Forall (fun m => ~ asks_something m) (msg :: rest)
              end).
    { intros Hno. destruct (scan_user rest) as [c | e].
      - destruct IH as (skipped & m & rest' & -> & Hc & Hm & Hs).
        exists (msg :: skipped), m, rest'.
        split; [reflexivity |]. split; [exact Hc |]. split; [exact Hm |].
        constructor; assumption.
      - destruct IH as [-> Hall]. split; [reflexivity |].
        constructor; assumption. }
    case_bool_decide as Hrole.
    + destruct (strip (cm_content msg)) as [| c t] eqn:Hc; cbn [truthy].
      * apply Hskip. intros [_ Hne]. congruence.
      * exists [], msg, rest. split; [reflexivity |].
        split; [reflexivity |]. split; [| constructor].
        split; [exact Hrole | rewrite Hc; discriminate].
    + apply Hskip. intros [Hr _]. contradiction.
Qed.

(** X25. [_last_user_content] returns the content, as sent and not
    trimmed, of the last message whose role is "user" and whose content
    is not blank: no later message is such a message.  It raises HTTP
    400 exactly when the list holds no such message. *)
Theorem last_user_content_spec (messages : list ChatMessage) :
  match _last_user_content messages with
  | Ok c =>
      exists before m after,
        messages = before ++ m :: after
        /\ cm_content m = c
        /\ asks_something m
        /\ Forall (fun m' => ~ asks_something m') after
  | Raise e =>
      e = HTTPException 400
      /\ Forall (fun m => ~ asks_something m) messages
  end.
Proof.
  unfold _last_user_content.
  pose proof (scan_user_spec (rev messages)) as Hscan.
  destruct (scan_user (rev messages)) as [c | e].
  - destruct Hscan as (skipped & m & rest & Hrev & Hc & Hm & Hs).
    exists (rev rest), m, (rev skipped).
    split.
    { rewrite <- (rev_involutive messages), Hrev, rev_app_distr.
      cbn [rev]. rewrite <- app_assoc. reflexivity. }
    split; [exact Hc |]. split; [exact Hm |].
    apply Forall_forall. intros x Hx. rewrite Forall_forall in Hs.
    apply Hs. apply list_elem_of_In. apply in_rev.
    apply list_elem_of_In. exact Hx.
  - destruct Hscan as [-> Hall]. split; [reflexivity |].
    apply Forall_forall. intros x Hx. rewrite Forall_forall in Hall.
    apply Hall. apply list_elem_of_In. apply in_rev. rewrite rev_involutive.
    apply list_elem_of_In. exact Hx.
Qed.

Lemma last_user_content_none messages :
  Forall (fun m => ~ asks_something m) messages ->
  _last_user_content messages = Raise (HTTPException 400).
Proof.
  intros Hall. unfold _last_user_content.
  pose proof (scan_user_spec (rev messages)) as Hspec.
  destruct (scan_user (rev messages)) as [c | e].
  - destruct Hspec as (skipped & m & rest & Hrev & _ & Hm & _).
    exfalso. rewrite Forall_forall in Hall. apply (Hall m); [| exact Hm].
    apply list_elem_of_In. apply in_rev. rewrite Hrev.
    apply in_or_app. right. left. reflexivity.
  - destruct Hspec as [-> _]. reflexivity.
Qed.

Lemma last_user_content_some messages :
  Exists asks_something messages ->
  exists c, _last_user_content messages = Ok c /\ strip c <> [].
Proof.
  intros Hex. unfold _last_user_content.
  pose proof (scan_user_spec (rev messages)) as Hspec.
  destruct (scan_user (rev messages)) as [c | e].
  - destruct Hspec as (skipped & m & rest & _ & <- & [_ Hm] & _).
    exists (cm_content m). auto.
  - exfalso. destruct Hspec as [_ Hall].
    apply Exists_exists in Hex as (m & Hin & Hm).
    rewrite Forall_forall in Hall. apply (Hall m); [| exact Hm].
    apply list_elem_of_In. rewrite <- in_rev. apply list_elem_of_In.
    exact Hin.
Qed.

Section WithWorld.
Variable w : world.

(** A run for a new session that raises has written nothing. *)
Lemma new_session_run_failure api_key sv intent0 e sv' :
  AgentService.run w api_key sv intent0 None = (Raise e, sv') -> sv' = sv.
Proof.
  unfold AgentService.run.
  destruct api_key; [| intros H; injection H as <- <-; reflexivity].
  destruct (LLMOrchestrator.run w 0 intent0) as [r | e0] eqn:Hr;
    [| intros H; injection H as <- <-; reflexivity].
  destruct (run_summary w intent0 r Hr) as (_ & Ha).
  destruct (final_answer r) as [[| c t] |] eqn:Hfa;
    try (intros H; injection H as <- <-; reflexivity).
  destruct Ha as (_ & _ & Hstrip & _).
  rewrite persist_turn_cases, Hstrip.
  destruct (truthy (strip intent0)) eqn:Hu;
    [| intros H; injection H as <- <-; reflexivity].
  cbn [truthy].
  destruct (fresh_session_accepts (store sv) (strip intent0) (c :: t))
    as (ids & d' & Hok).
  cbn [target_store target_session]. rewrite Hok. discriminate.
Qed.

(** X26. POST /chat checks the message list before anything else: a
    list (empty or not) without a non-blank user message is answered 400
    whatever the application state; with such a message, a missing DSN
    or embedding client is answered 500, and a missing OPENAI_API_KEY
    502.  Whenever the request fails, for these or any other reason, the
    store and the log of persistence calls are as they were. *)
Theorem chat_rejections st api_key sv dumps u1 u2 messages :
  (Forall (fun m => ~ asks_something m) messages ->
   chat w st api_key sv dumps u1 u2 messages
   = (Raise (HTTPException 400), sv))
  /\ (Exists asks_something messages -> _get_state st <> Ok tt ->
      chat w st api_key sv dumps u1 u2 messages
      = (Raise (HTTPException 500), sv))
  /\ (Exists asks_something messages -> _get_state st = Ok tt ->
      api_key = false ->
      chat w st api_key sv dumps u1 u2 messages
      = (Raise (HTTPException 502), sv))
  /\ (forall e sv',
        chat w st api_key sv dumps u1 u2 messages = (Raise e, sv') ->
        sv' = sv).
Proof.
  split; [| split; [| split]].
  - intros Hnone. unfold chat. destruct messages as [| m ms]; [reflexivity |].
    rewrite (last_user_content_none _ Hnone). reflexivity.
  - intros Hsome Hstate. unfold chat.
    destruct messages as [| m ms]; [inversion Hsome |].
    destruct (last_user_content_some _ Hsome) as (c & -> & _).
    revert Hstate. unfold _get_state.
    destruct (st_dsn st) as [[| ch t] |]; try reflexivity.
    destruct (st_embedding_client st); [congruence | reflexivity].
  - intros Hsome Hstate ->. unfold chat.
    destruct messages as [| m ms]; [inversion Hsome |].
    destruct (last_user_content_some _ Hsome) as (c & -> & _).
    rewrite Hstate. reflexivity.
  - intros e sv'. unfold chat.
    destruct messages as [| m ms];
      [intros H; injection H as _ <-; reflexivity |].
    destruct (_last_user_content (m :: ms)) as [c | e0];
      [| intros H; injection H as _ <-; reflexivity].
    destruct (_get_state st) as [[] | e0];
      [| intros H; injection H as _ <-; reflexivity].
    destruct (AgentService.run w api_key sv c None) as [ran sv1] eqn:Hrun.
    destruct ran as [[answer md] | e1]; [discriminate |].
    intros H. injection H as _ <-.
    eapply new_session_run_failure. exact Hrun.
Qed.

(** X27. When POST /chat succeeds, the orchestrator was run on the last
    non-blank user message and completed; the body streams that answer:
    its token events are those of the answer, whose contents concatenate
    to the answer, then the metadata event, then [DONE]; and every
    request opens a session of its own: one [create_session] and one
    [append_turn] were made, the session reported in the metadata is new
    and holds the turn as its two rows, the trimmed query and the
    answer, each cut to 32000 characters. *)
Theorem chat_streams_and_stores st api_key sv dumps u1 u2 messages
    events sv' :
  chat w st api_key sv dumps u1 u2 messages = (Ok events, sv') ->
  exists user_query r answer md um am,
    _last_user_content messages = Ok user_query
    /\ LLMOrchestrator.run w 0 user_query = Ok r
    /\ status r = completed
    /\ final_answer r = Some answer
    /\ events
       = map (event dumps) (token_chunks (lit "chatcmpl-" ++ u1) answer)
         ++ [event dumps (meta_chunk (lit "meta-" ++ u2) md); DONE]
    /\ concat (contents (token_chunks (lit "chatcmpl-" ++ u1) answer))
       = answer
    /\ md_cited_turn_ids md = hydrated_ids (tool_runs r)
    /\ persistence_log sv'
       = persistence_log sv
         ++ [CreateSession;
             AppendTurn (md_session_id md) (strip user_query) answer]
    /\ md_session_id md = N.succ (next_uuid (store sv))
    /\ sessions (store sv') !! md_session_id md
       = Some {| s_title := None; s_pinned := false; s_archived := false;
                 s_conversation := Some (md_conversation_id md) |}
    /\ Sessions.messages (store sv')
       = Sessions.messages (store sv) ++ [um; am]
    /\ (msg_id um, msg_id am)
       = (md_user_message_id md, md_assistant_message_id md)
    /\ msg_content_text um = prefix MAX_CONTENT_LEN (strip user_query)
    /\ msg_content_text am = prefix MAX_CONTENT_LEN answer.
Proof.
  unfold chat. destruct messages as [| m0 ms]; [discriminate |].
  destruct (_last_user_content (m0 :: ms)) as [user_query | e0];
    [| discriminate].
  destruct (_get_state st) as [[] | e0]; [| discriminate].
  unfold AgentService.run.
  destruct api_key; [| discriminate].
  destruct (LLMOrchestrator.run w 0 user_query) as [r | e0] eqn:Hr;
    [| discriminate].
  destruct (run_summary w user_query r Hr) as (_ & Ha).
  destruct (final_answer r) as [[| c t] |] eqn:Hfa; try discriminate.
  destruct Ha as (Hs & _ & Hstrip & Hcited).
  rewrite persist_turn_cases, Hstrip.
  destruct (truthy (strip user_query)) eqn:Hu; [| discriminate].
  cbn [truthy].
  destruct (append_turn _ _ _ _) as [[ids d'] | e1] eqn:Happ;
    [| discriminate].
  intros H. injection H as <- <-.
  pose proof (append_turn_effect _ _ _ _ _ _ Happ)
    as (row & Hrow & _ & Hsid & Hcid & _ & _ & _ & _ & Hsess & _ & Hm & _).
  cbn in Hrow. rewrite lookup_insert_eq in Hrow. injection Hrow as <-.
  cbn in Hcid, Hsid. rewrite Hcid in Hsess.
  eexists user_query, r, (c :: t), _, _, _.
  split; [reflexivity |]. split; [exact Hr |]. split; [exact Hs |].
  split; [exact Hfa |]. split; [reflexivity |].
  split.
  { rewrite token_chunks_contents.
    rewrite <- (join_split_space (c :: t)) at 3.
    apply (concat_spaced (split_space (c :: t)) 0). }
  cbn [md_cited_turn_ids md_session_id md_conversation_id
       md_user_message_id md_assistant_message_id store persistence_log].
  split; [exact Hcited |].
  split; [unfold turn_calls; cbn; rewrite Hsid; reflexivity |].
  split; [exact Hsid |].
  split; [rewrite Hsid, Hcid; exact Hsess |].
  split; [exact Hm |]. cbn.
  rewrite !stored_content_spec, Hstrip, strip_idempotent.
  repeat split; reflexivity.
Qed.

End WithWorld.

End ChatFacts.

Module ChatExamples.
Import Retrieval Sessions Agent Chat ChatFacts.
Import OrchestratorFacts SessionsFacts PersistenceFacts StreamFacts.
Import Demo OrchestratorExamples RunExamples.

(** A conversation whose last user message is blank: the question
    before it is the one answered. *)
Definition conversation : list ChatMessage :=
  [ {| cm_role := lit "system"; cm_content := lit "Be brief." |};
    {| cm_role := lit "user"; cm_content := question |};
    {| cm_role := lit "assistant"; cm_content := lit "Looking it up." |};
    {| cm_role := lit "user"; cm_content := lit "   " |} ].

Definition configured : app_state :=
  {| st_dsn := Some (lit "postgresql://lens"); st_embedding_client := true |}.

Definition no_dsn : app_state :=
  {| st_dsn := Some []; st_embedding_client := true |}.

Definition demo_dumps (c : chunk) : pystr :=
  match ck_delta c with
  | ContentDelta s => lit "{content:" ++ s ++ lit "}"
  | MetadataDelta _ => lit "{metadata}"
  end.

Example last_user_content_of_conversation :
  _last_user_content conversation = Ok question
  /\ _last_user_content
       [ {| cm_role := lit "assistant"; cm_content := lit "hello" |};
         {| cm_role := lit "user"; cm_content := lit " " |} ]
     = Raise (HTTPException 400)
  /\ _last_user_content
       [ {| cm_role := lit "User"; cm_content := lit "hello" |} ]
     = Raise (HTTPException 400).
Proof. repeat split. Qed.

Lemma chat_rejections_witness :
  chat (demo_world research_script) no_dsn true
    (demo_service one_session_db) demo_dumps (lit "a") (lit "b") []
  = (Raise (HTTPException 400), demo_service one_session_db)
  /\ chat (demo_world research_script) no_dsn true
       (demo_service one_session_db) demo_dumps (lit "a") (lit "b")
       conversation
     = (Raise (HTTPException 500), demo_service one_session_db)
  /\ chat (demo_world research_script) configured false
       (demo_service one_session_db) demo_dumps (lit "a") (lit "b")
       conversation
     = (Raise (HTTPException 502), demo_service one_session_db).
Proof.
  split; [| split].
  - apply (chat_rejections (demo_world research_script) no_dsn true
             (demo_service one_session_db) demo_dumps (lit "a") (lit "b")
             []).
    constructor.
  - apply (chat_rejections (demo_world research_script) no_dsn true
             (demo_service one_session_db) demo_dumps (lit "a") (lit "b")
             conversation).
    + apply Exists_cons_tl, Exists_cons_hd. split; [reflexivity | discriminate].
    + discriminate.
  - apply (chat_rejections (demo_world research_script) configured false
             (demo_service one_session_db) demo_dumps (lit "a") (lit "b")
             conversation).
    + apply Exists_cons_tl, Exists_cons_hd. split; [reflexivity | discriminate].
    + reflexivity.
    + reflexivity.
Defined.

Definition chat_outcome : res (list pystr) * service :=
  Eval vm_compute in
    chat (demo_world research_script) configured true
      (demo_service one_session_db) demo_dumps (lit "a") (lit "b")
      conversation.

Definition chat_events : list pystr :=
  match chat_outcome.1 with Ok events => events | Raise _ => [] end.

Lemma chat_served :
  chat (demo_world research_script) configured true
    (demo_service one_session_db) demo_dumps (lit "a") (lit "b")
    conversation
  = (Ok chat_events, chat_outcome.2).
Proof. vm_compute. reflexivity. Qed.

Lemma chat_streams_and_stores_witness :
  exists user_query r answer md um am,
    _last_user_content conversation = Ok user_query
    /\ LLMOrchestrator.run (demo_world research_script) 0 user_query = Ok r
    /\ status r = completed
    /\ final_answer r = Some answer
    /\ chat_events
       = map (event demo_dumps)
             (token_chunks (lit "chatcmpl-" ++ lit "a") answer)
         ++ [event demo_dumps (meta_chunk (lit "meta-" ++ lit "b") md);
             DONE]
    /\ concat (contents (token_chunks (lit "chatcmpl-" ++ lit "a") answer))
       = answer
    /\ md_cited_turn_ids md = hydrated_ids (tool_runs r)
    /\ persistence_log chat_outcome.2
       = persistence_log (demo_service one_session_db)
         ++ [CreateSession;
             AppendTurn (md_session_id md) (strip user_query) answer]
    /\ md_session_id md
       = N.succ (next_uuid (store (demo_service one_session_db)))
    /\ sessions (store chat_outcome.2) !! md_session_id md
       = Some {| s_title := None; s_pinned := false; s_archived := false;
                 s_conversation := Some (md_conversation_id md) |}
    /\ Sessions.messages (store chat_outcome.2)
       = Sessions.messages (store (demo_service one_session_db))
         ++ [um; am]
    /\ (msg_id um, msg_id am)
       = (md_user_message_id md, md_assistant_message_id md)
    /\ msg_content_text um = prefix MAX_CONTENT_LEN (strip user_query)
    /\ msg_content_text am = prefix MAX_CONTENT_LEN answer.
Proof.
  apply (chat_streams_and_stores (demo_world research_script) configured
           true (demo_service one_session_db) demo_dumps (lit "a")
           (lit "b") conversation chat_events chat_outcome.2).
  exact chat_served.
Defined.

(** The body of the response: eight token events, the metadata event and
    the terminator. *)
Example chat_body :
  length chat_events = 10%nat
  /\ chat_events !! 0%nat = Some (lit "data: {content:The }" ++ NEWLINES)
  /\ chat_events !! 8%nat = Some (lit "data: {metadata}" ++ NEWLINES)
  /\ last chat_events = Some DONE.
Proof. repeat split. Qed.

End ChatExamples.

(** * The offline pipelines *)

(** ** ingest/pipeline.py *)

Module Ingest.
Import Retrieval Agent.

Definition NUL : char := 0%N.

(** [value.replace("\x00", "")] *)
Definition drop_nuls (s : pystr) : pystr :=
  List.filter (fun c => negb (c =? NUL)%N) s.

(** [scrub_nulls]: strings lose their NUL characters, lists and dict
    values are scrubbed in turn, dict keys are kept as they are, and
    anything else is returned unchanged. *)
Fixpoint scrub_nulls (value : json) : json :=
  match value with
  | JStr s => JStr (drop_nuls s)
  | JList l => JList (map scrub_nulls l)
  | JDict items =>
      JDict (map (fun kv => match kv with
                            | (k, v) => (k, scrub_nulls v)
                            end) items)
  | _ => value
  end.

End Ingest.

(** ** embeddings/pipeline.py *)

Module Embeddings.
Import Retrieval Agent.

Definition MAX_CONTENT_LEN : Z := 32000.

(** [s[:n]], also for a negative [n] (which counts from the end). *)
Definition slice_to (n : Z) (s : pystr) : pystr :=
  if n <? 0 then take (length s - Z.to_nat (- n)) s
  else take (Z.to_nat n) s.

(** ["User: {user_text}\nAssistant: {assistant_part}"] *)
Definition turn_text (user_text assistant_part : pystr) : pystr :=
  lit "User: " ++ user_text ++ [10%N] ++ lit "Assistant: " ++ assistant_part.

Definition build_content (user_text assistant_text : pystr)
    (turn_summary : option pystr) (max_len : Z) : pystr * bool :=
  let summary := strip (default [] turn_summary) in
  let assistant_part := if truthy summary then summary else assistant_text in
  let used_summary :=
    match turn_summary with
    | Some s => truthy s && truthy (strip s)
    | None => false
    end in
  let content := turn_text user_text assistant_part in
  let content :=
    if len content >? max_len then slice_to max_len content else content in
  (content, used_summary).

(** What one POST /embeddings comes to inside the [try]: the embeddings
    of the response, or the exception's (status, body) as
    [_extract_response_details] reads them. *)
Inductive attempt_outcome : Type :=
  | Served (embeddings : list (list float))
  | Failed (status : option Z) (body : option pystr).

(** What [fetch_embeddings] does, in order. *)
Inductive fetch_event : Type :=
  | Post (attempt : Z)        (* client.post("/embeddings", ...) *)
  | Sleep (attempt : Z).      (* time.sleep(backoff * attempt) *)

Inductive fetch_result : Type :=
  | Fetched (embeddings : list (list float))
  | EmbeddingFetchError (status : option Z) (body : option pystr).

(** The body of the [try] for one attempt: a response whose count does
    not match raises ValueError, which carries no response. *)
Definition try_post (post : Z -> attempt_outcome) (n_texts : nat)
    (attempt : Z) : attempt_outcome :=
  match post attempt with
  | Served embeddings =>
      if bool_decide (length embeddings = n_texts) then Served embeddings
      else Failed None None
  | Failed status body => Failed status body
  end.

(** The [for attempt in range(1, max_retries + 1)] loop from [todo] on;
    [last] is (last_status, last_body). *)
Fixpoint fetch_loop (post : Z -> attempt_outcome) (n_texts : nat)
    (max_retries : Z) (todo : list Z) (last : option Z * option pystr)
    : fetch_result * list fetch_event :=
  match todo with
  | [] => (EmbeddingFetchError last.1 last.2, [])
  | attempt :: rest =>
      match try_post post n_texts attempt with
      | Served embeddings => (Fetched embeddings, [Post attempt])
      | Failed status body =>
          if attempt =? max_retries
          then (EmbeddingFetchError status body, [Post attempt])
          else
            let (result, events) :=
              fetch_loop post n_texts max_retries rest (status, body) in
            (result, Post attempt :: Sleep attempt :: events)
      end
  end.

(** [fetch_embeddings]; [post attempt] is the outcome of the
    [attempt]-th request. *)
Definition fetch_embeddings (post : Z -> attempt_outcome) (n_texts : nat)
    (max_retries : Z) : fetch_result * list fetch_event :=
  fetch_loop post n_texts max_retries
    (LLMOrchestrator.range 1 (max_retries + 1)) (None, None).

End Embeddings.

(** ** Scrubbing and composing texts *)

Module PipelineFacts.
Import Retrieval Agent Ingest Embeddings PyStrFacts.

Section JsonInduction.
Variable P : json -> Prop.
Hypothesis Hnull : P JNull.
Hypothesis Hbool : forall b, P (JBool b).
Hypothesis Hint : forall z, P (JInt z).
Hypothesis Hfloat : forall f, P (JFloat f).
Hypothesis Hstr : forall s, P (JStr s).
Hypothesis Hlist : forall l, Forall P l -> P (JList l).
Hypothesis Hdict :
  forall items, Forall (fun kv => P kv.2) items -> P (JDict items).

(** Induction on JSON values, through lists and dict values. *)
Fixpoint json_induction (v : json) : P v :=
  match v with
  | JNull => Hnull
  | JBool b => Hbool b
  | JInt z => Hint z
  | JFloat f => Hfloat f
  | JStr s => Hstr s
  | JList l =>
      Hlist l
        ((fix all (l : list json) : Forall P l :=
            match l with
            | [] => @List.Forall_nil _ P
            | x :: r => @List.Forall_cons _ P x r (json_induction x) (all r)
            end) l)
  | JDict items =>
      Hdict items
        ((fix all (items : list (pystr * json))
            : Forall (fun kv => P kv.2) items :=
            match items with
            | [] => @List.Forall_nil _ (fun kv => P kv.2)
            | (k, x) :: r =>
                @List.Forall_cons _ (fun kv => P kv.2) (k, x) r
                  (json_induction x) (all r)
            end) items)
  end.

End JsonInduction.

(** No string value, at any depth, holds a NUL (keys are not looked
    at). *)
Fixpoint nul_free (v : json) : bool :=
  match v with
  | JStr s => forallb (fun c => negb (c =? NUL)%N) s
  | JList l => forallb nul_free l
  | JDict items =>
      forallb (fun kv => match kv with (_, x) => nul_free x end) items
  | _ => true
  end.

(** The dict keys of a value, at any depth, in order. *)
Fixpoint all_keys (v : json) : list pystr :=
  match v with
  | JList l => concat (map all_keys l)
  | JDict items =>
      concat (map (fun kv => match kv with
                             | (k, x) => k :: all_keys x
                             end) items)
  | _ => []
  end.

Lemma drop_nuls_clean (s : pystr) :
  forallb (fun c => negb (c =? NUL)%N) (drop_nuls s) = true.
Proof.
  unfold drop_nuls. apply forallb_forall. intros c Hc.
  apply filter_In in Hc as [_ Hc]. exact Hc.
Qed.

Lemma drop_nuls_fixed (s : pystr) :
  forallb (fun c => negb (c =? NUL)%N) s = true -> drop_nuls s = s.
Proof.
  unfold drop_nuls. induction s as [| c s IH]; [reflexivity |].
  cbn [forallb List.filter]. intros H. apply andb_prop in H as [Hc Hs].
  rewrite Hc, (IH Hs). reflexivity.
Qed.

Lemma scrub_nulls_clean v : nul_free (scrub_nulls v) = true.
Proof.
  induction v as [| b | z | f | s | l IH | items IH] using json_induction;
    try reflexivity.
  - apply drop_nuls_clean.
  - cbn [scrub_nulls nul_free]. induction IH as [| x r Hx _ IHr];
      [reflexivity |].
    cbn [map forallb]. rewrite Hx. exact IHr.
  - cbn [scrub_nulls nul_free]. induction IH as [| [k x] r Hx _ IHr];
      [reflexivity |].
    cbn [map forallb]. cbn in Hx. rewrite Hx. exact IHr.
Qed.

Lemma scrub_nulls_fixed v : nul_free v = true -> scrub_nulls v = v.
Proof.
  induction v as [| b | z | f | s | l IH | items IH] using json_induction;
    try reflexivity.
  - cbn [nul_free scrub_nulls]. intros H. rewrite (drop_nuls_fixed s H).
    reflexivity.
  - cbn [scrub_nulls nul_free]. intros H. f_equal.
    induction IH as [| x r Hx _ IHr]; [reflexivity |].
    cbn [map forallb] in *. apply andb_prop in H as [H1 H2].
    rewrite (Hx H1), (IHr H2). reflexivity.
  - cbn [scrub_nulls nul_free]. intros H. f_equal.
    induction IH as [| [k x] r Hx _ IHr]; [reflexivity |].
    cbn [map forallb] in *. apply andb_prop in H as [H1 H2].
    cbn in Hx. rewrite (Hx H1), (IHr H2). reflexivity.
Qed.

Lemma scrub_nulls_keys v : all_keys (scrub_nulls v) = all_keys v.
Proof.
  induction v as [| b | z | f | s | l IH | items IH] using json_induction;
    try reflexivity.
  - cbn [scrub_nulls all_keys]. f_equal.
    induction IH as [| x r Hx _ IHr]; [reflexivity |].
    cbn [map]. rewrite Hx, IHr. reflexivity.
  - cbn [scrub_nulls all_keys]. f_equal.
    induction IH as [| [k x] r Hx _ IHr]; [reflexivity |].
    cbn [map]. cbn in Hx. rewrite Hx, IHr. reflexivity.
Qed.

(** X28. [scrub_nulls] leaves no NUL character in any string value, at
    any depth of lists and dicts; it keeps every dict key as it is, NUL
    characters included; it returns exactly the values that hold no NUL
    unchanged, so scrubbing twice is scrubbing once. *)
Theorem scrub_nulls_spec (v : json) :
  nul_free (scrub_nulls v) = true
  /\ all_keys (scrub_nulls v) = all_keys v
  /\ (scrub_nulls v = v <-> nul_free v = true)
  /\ scrub_nulls (scrub_nulls v) = scrub_nulls v.
Proof.
  split; [apply scrub_nulls_clean |].
  split; [apply scrub_nulls_keys |].
  split.
  - split; [| apply scrub_nulls_fixed].
    intros H. rewrite <- H. apply scrub_nulls_clean.
  - apply scrub_nulls_fixed, scrub_nulls_clean.
Qed.

(** A NUL in a value goes, a NUL in a key stays. *)
Example scrub_conversation :
  scrub_nulls
    (JDict [ ([116; 0]%N, JList [JStr [104; 0; 105]%N; JInt 0; JNull]) ])
  = JDict [ ([116; 0]%N, JList [JStr [104; 105]%N; JInt 0; JNull]) ].
Proof. reflexivity. Qed.

(** The assistant part of the embedded text: the trimmed summary when
    there is one, else the assistant text as stored. *)
Definition assistant_part (assistant_text : pystr)
    (turn_summary : option pystr) : pystr :=
  if truthy (strip (default [] turn_summary))
  then strip (default [] turn_summary)
  else assistant_text.

Lemma truthy_strip_nonempty (s : pystr) :
  truthy s && truthy (strip s) = truthy (strip s).
Proof. destruct s as [| c t]; reflexivity. Qed.

Lemma slice_to_nonneg (n : Z) (s : pystr) :
  0 <= n -> slice_to n s = prefix n s.
Proof.
  intros Hn. unfold slice_to, prefix.
  destruct (Z.ltb_spec n 0); [lia | reflexivity].
Qed.

(** X29. [build_content] composes "User: " + user text + "\nAssistant: "
    + assistant part, where the assistant part is the turn summary
    trimmed when the summary holds something other than whitespace, and
    the assistant text untouched otherwise; [used_summary] says which,
    and with a summary the assistant text plays no part.  For a
    non-negative [max_len] the content is the first [max_len] characters
    of that text, so never longer than [max_len] and the whole text when
    it fits; a negative [max_len] instead cuts that many characters off
    the end. *)
Theorem build_content_spec user_text assistant_text turn_summary max_len :
  let full :=
    turn_text user_text (assistant_part assistant_text turn_summary) in
  let content :=
    (build_content user_text assistant_text turn_summary max_len).1 in
  let used_summary :=
    (build_content user_text assistant_text turn_summary max_len).2 in
  (used_summary = true <-> strip (default [] turn_summary) <> [])
  /\ (used_summary = true ->
      forall other,
        build_content user_text other turn_summary max_len
        = build_content user_text assistant_text turn_summary max_len)
  /\ (used_summary = false ->
      full = turn_text user_text assistant_text)
  /\ (0 <= max_len ->
      content = prefix max_len full
      /\ len content = Z.min max_len (len full))
  /\ (len full <= max_len -> content = full)
  /\ (max_len < 0 ->
      len content = Z.max 0 (len full + max_len)
      /\ content `prefix_of` full).
Proof.
  cbn zeta. unfold build_content. cbn [fst snd].
  fold (assistant_part assistant_text turn_summary).
  assert (Hused : match turn_summary with
                  | Some s => truthy s && truthy (strip s)
                  | None => false
                  end = truthy (strip (default [] turn_summary))).
  { destruct turn_summary as [s |]; [apply truthy_strip_nonempty |].
    reflexivity. }
  rewrite Hused.
  set (full := turn_text user_text (assistant_part assistant_text
                                      turn_summary)).
  split.
  { destruct (strip (default [] turn_summary)); cbn [truthy];
      split; congruence. }
  split.
  { intros Hsum other. unfold assistant_part. rewrite Hsum.
    fold (assistant_part assistant_text turn_summary). fold full.
    unfold full, assistant_part. rewrite Hsum. reflexivity. }
  split.
  { intros Hsum. unfold full, assistant_part. rewrite Hsum. reflexivity. }
  split.
  { intros Hn. destruct (Z.gtb_spec (len full) max_len) as [Hgt | Hle].
    - rewrite slice_to_nonneg by exact Hn. split; [reflexivity |].
      unfold len, prefix in *. rewrite length_take. lia.
    - split; [| lia]. unfold prefix, len in *. symmetry.
      apply take_ge. lia. }
  split.
  { intros Hfit. destruct (Z.gtb_spec (len full) max_len); [lia |].
    reflexivity. }
  intros Hneg. destruct (Z.gtb_spec (len full) max_len) as [Hgt | Hle];
    [| unfold len in Hle; lia].
  unfold slice_to. destruct (Z.ltb_spec max_len 0); [| lia].
  split; [| apply prefix_take].
  unfold len. rewrite length_take. lia.
Qed.

Example content_with_summary :
  build_content (lit "When?") (lit "In week one.")
    (Some (lit "  Kickoff in week one. ")) 32000
  = (lit "User: When?" ++ [10%N] ++ lit "Assistant: Kickoff in week one.",
     true)
  /\ build_content (lit "When?") (lit " In week one. ") (Some (lit "  "))
       20
     = (lit "User: When?" ++ [10%N] ++ lit "Assistan", false)
  /\ build_content (lit "When?") (lit "Soon") None (-3)
     = (lit "User: When?" ++ [10%N] ++ lit "Assistant: S", false).
Proof. repeat split. Qed.

(** ** Retrying the embedding request *)

Import LLMOrchestrator.









(** Two failures, then a response one embedding short, then a full
    response: four requests, three pauses. *)
Example served_at_fourth_attempt :
  fetch_embeddings
    (fun attempt =>
       if attempt <=? 2 then Failed (Some 503) (Some (lit "busy"))
       else if attempt =? 3 then Served [[0.5%float]]
       else Served [[0.5%float]; [0.25%float]])
    2 5
  = (Fetched [[0.5%float]; [0.25%float]],
     [Post 1; Sleep 1; Post 2; Sleep 2; Post 3; Sleep 3; Post 4])
  /\ fetch_embeddings (fun _ => Failed (Some 400) None) 2 3
     = (EmbeddingFetchError (Some 400) None,
        [Post 1; Sleep 1; Post 2; Sleep 2; Post 3])
  /\ fetch_embeddings (fun _ => Served []) 0 0
     = (EmbeddingFetchError None None, []).
Proof. repeat split. Qed.

End PipelineFacts.
